(** * The name-registration pipeline of blockstack_client/backend/registrar.py

    A shallow embedding of the registrar back end: the durable queue, the
    operation issuers ([preorder], [update], [transfer], ...), the wallet
    cache ([set_wallet], [get_wallet]), the replicator
    ([replicate_name_data]), the pipeline steps of [RegistrarWorker] and its
    [run] loop with the lockfile protocol.

    Python dictionaries with a fixed set of keys are records whose optional
    keys are [option] fields; [None] values and absent keys are told apart
    only where the source does.  Side effects on the outside world (chain
    broadcasts, chain look-ups, atlas pushes, storage puts) are recorded in a
    trace, so that "does not broadcast" is a statement about that trace.
    Exceptions are explicit: a computation returns a value or raises, and the
    world it has modified so far survives the raise, as in Python. *)

From Stdlib Require Import String Ascii List Bool Arith ZArith QArith Lia.
From Stdlib Require Import Qround DecimalString DecimalZ DecimalPos.
Import ListNotations.

Local Close Scope Q_scope.
Local Open Scope string_scope.
Local Open Scope list_scope.

(* ===================================================================== *)
(** ** Data model *)
(* ===================================================================== *)

(** The seven queue categories (the first argument of [in_queue],
    [queue_find_accepted], ...). *)
Inductive category : Type :=
| Preorder | Register | Update | Transfer | Renew | Revoke | NameImport.

Definition category_eqb (a b : category) : bool :=
  match a, b with
  | Preorder, Preorder | Register, Register | Update, Update
  | Transfer, Transfer | Renew, Renew | Revoke, Revoke
  | NameImport, NameImport => true
  | _, _ => false
  end.

(** One queue row.  [etype] is the queue the row lives in; the other fields
    are the keys the registrar reads: [name_data['fqu']],
    [name_data['tx_hash']], [name_data['zonefile']],
    [name_data.get('zonefile_hash')], [name_data['token_file']],
    [update.get('transfer_address')].  [errors] holds the messages added by
    [queue_add_error_msg]. *)
Record entry : Type := mk_entry {
  etype : category;
  fqu : string;
  tx_hash : string;
  zonefile : option string;
  zonefile_hash : option string;
  token_file : option string;
  transfer_address : option string;
  errors : list string
}.

(** [x in l] for a Python list of strings. *)
Definition mem_string (x : string) (l : list string) : bool :=
  existsb (String.eqb x) l.

(** Private key information: a single-signature key (a string) or a
    multi-signature descriptor (a dict). *)
Inductive keyinfo : Type :=
| Singlesig (hex : string)
| Multisig (m : nat) (pubkeys privkeys : list string).

(** Python truthiness of the values [set_wallet] asserts on. *)
Definition truthy_string (s : option string) : bool :=
  match s with
  | Some EmptyString | None => false
  | Some _ => true
  end.

Definition truthy_keyinfo (k : option keyinfo) : bool :=
  match k with
  | None => false
  | Some (Singlesig s) => truthy_string (Some s)
  | Some (Multisig _ _ _) => true
  end.

(** [RegistrarState]: the in-memory wallet cache. *)
Record RegistrarState : Type := mk_state {
  payment_address : option string;
  owner_address : option string;
  payment_privkey_info : option keyinfo;
  owner_privkey_info : option keyinfo;
  data_privkey_info : option keyinfo;
  data_pubkey : option string
}.

(** The class attributes of [RegistrarState]: everything [None]. *)
Definition empty_state : RegistrarState :=
  mk_state None None None None None None.

(** The dict returned by [get_name_blockchain_record]: an error, or a record
    with the keys 'address' and 'value_hash'. *)
Inductive name_record : Type :=
| NameError_rec (error : string)
| NameRec (address : string) (value_hash : option string).

(** The reply of [get_atlas_peers]: a dict with 'peers', a dict with 'error',
    a [socket.error], or another exception. *)
Inductive peers_reply : Type :=
| PeersOk (peers : list string)
| PeersErr (error : string)
| PeersSocketError
| PeersException.

(** The outcome of building and broadcasting a transaction in nameops. *)
Record broadcast_reply : Type := mk_broadcast {
  b_error : option string;
  b_txid : string;
  b_tx : option string
}.

(** Everything the registrar does to the outside world, in order. *)
Inductive event : Type :=
| EvIsNameRegistered (name : string)
| EvGetNameRecord (name : string)
| EvIsZonefileHashCurrent (name hash : string)
| EvGetAtlasPeers (hostport : string)
| EvBroadcast (op : category) (name : string)
| EvAtlasPush (name data : string)
| EvTokenFilePut (name payload : string).

(** The response dicts of the issuers and of the worker's helpers.  A key
    that is absent from the dict is [None] (or [false] for the two flags,
    which the source reads with [res.get]). *)
Record resp : Type := mk_resp {
  r_success : option bool;
  r_status : option bool;
  r_error : option string;
  r_warning : option string;
  r_message : option string;
  r_transaction_hash : option string;
  r_value_hash : option string;
  r_zonefile_hash : option string;
  r_tx : option string;
  r_already_registered : bool;
  r_not_preordered : bool;
  r_names : option (list string)
}.

Definition empty_resp : resp :=
  mk_resp None None None None None None None None None false false None.

(** [{'status': True}] *)
Definition status_ok : resp :=
  mk_resp None (Some true) None None None None None None None false false None.

(** [{'error': e}] *)
Definition error_resp (e : string) : resp :=
  mk_resp None None (Some e) None None None None None None false false None.

(** [{'success': False, 'error': e}] *)
Definition failure_resp (e : string) : resp :=
  mk_resp (Some false) None (Some e) None None None None None None false false None.

(** ['error' in res] *)
Definition has_error (r : resp) : bool :=
  match r_error r with Some _ => true | None => false end.

(** The exceptions the modelled code can raise. *)
Inductive exn : Type :=
| NameError (name : string)
| AssertionError (msg : string)
| KeyError (key : string)
| Exception (msg : string)
| OSError.

(** The world the registrar acts on: the durable queue, the wallet cache,
    the two mutable default arguments of [replicate_name_data] (shared by all
    its calls), and the trace of outside effects. *)
Record World : Type := mk_world {
  queue : list entry;
  wallet : RegistrarState;
  replicated_zonefiles : list string;
  replicated_token_file_hashes : list string;
  trace : list event
}.

Definition set_queue (q : list entry) (w : World) : World :=
  mk_world q (wallet w) (replicated_zonefiles w)
           (replicated_token_file_hashes w) (trace w).

Definition set_wallet_state (s : RegistrarState) (w : World) : World :=
  mk_world (queue w) s (replicated_zonefiles w)
           (replicated_token_file_hashes w) (trace w).

Definition emit (e : event) (w : World) : World :=
  mk_world (queue w) (wallet w) (replicated_zonefiles w)
           (replicated_token_file_hashes w) (trace w ++ [e]).

Definition remember_zonefile (h : string) (w : World) : World :=
  mk_world (queue w) (wallet w) (replicated_zonefiles w ++ [h])
           (replicated_token_file_hashes w) (trace w).

Definition remember_token_file (h : string) (w : World) : World :=
  mk_world (queue w) (wallet w) (replicated_zonefiles w)
           (replicated_token_file_hashes w ++ [h]) (trace w).

(* ===================================================================== *)
(** ** Computations: state and exceptions *)
(* ===================================================================== *)

Inductive outcome (A : Type) : Type :=
| Ret (a : A)
| Raise (e : exn).
Arguments Ret {A} a.
Arguments Raise {A} e.

Definition M (A : Type) : Type := World -> outcome A * World.

Definition ret {A} (a : A) : M A := fun w => (Ret a, w).

Definition raise {A} (e : exn) : M A := fun w => (Raise e, w).

Definition bind {A B} (c : M A) (k : A -> M B) : M B :=
  fun w => match c w with
           | (Ret a, w1) => k a w1
           | (Raise e, w1) => (Raise e, w1)
           end.

Definition gets {A} (f : World -> A) : M A := fun w => (Ret (f w), w).

Definition modify (f : World -> World) : M unit := fun w => (Ret tt, f w).

Declare Scope reg_scope.
Delimit Scope reg_scope with reg.
Notation "x <- c ;; k" := (bind c (fun x => k))
  (at level 61, c at next level, right associativity) : reg_scope.
Notation "c ;;; k" := (bind c (fun _ => k))
  (at level 61, right associativity) : reg_scope.
Local Open Scope reg_scope.

(** [for x in xs: acc = body(acc, x)], an exception leaving the loop. *)
Fixpoint for_each {A S} (xs : list A) (body : S -> A -> M S) (acc : S) : M S :=
  match xs with
  | [] => ret acc
  | x :: rest => acc1 <- body acc x ;; for_each rest body acc1
  end.

(* ===================================================================== *)
(** ** The collaborators the registrar imports *)
(* ===================================================================== *)

(** A [(host, port)] pair, as [url_to_host_port] of ..utils returns it. *)
Definition host_port : Type := (option string * option Z)%type.

(** The modules behind [from ..proxy import ...], [from .nameops import ...],
    [from ..zonefile import ...], [keylib], [virtualchain] and the constants
    are outside the registrar.  Their answers are the fields of [Env]; the
    registrar is verified for every [Env]. *)
Record Env : Type := mk_env {
  (* ..proxy *)
  is_name_registered : string -> bool;
  get_name_blockchain_record : string -> name_record;
  is_zonefile_hash_current : string -> string -> bool;
  get_atlas_peers : string -> peers_reply;
  (* .queue: whether a transaction has TX_MIN_CONFIRMATIONS confirmations,
     and whether a preorder has aged out *)
  tx_accepted : string -> bool;
  preorder_expired : entry -> bool;
  (* .nameops: the outcome of building and broadcasting an operation *)
  chain_broadcast : category -> string -> broadcast_reply;
  (* ..zonefile, ..token_file, ..storage, ..user, blockstack_zones *)
  zonefile_data_replicate : string -> string -> option string;
  token_file_put : string -> string -> option string;
  get_zonefile_data_hash : string -> string;
  sha256_hexdigest : string -> string;
  is_user_zonefile : string -> bool;
  (* virtualchain, ..keys, keylib *)
  is_singlesig : keyinfo -> bool;
  is_multisig : keyinfo -> bool;
  is_singlesig_hex : keyinfo -> bool;
  pubkey_hex_of_privkey : keyinfo -> string;
  get_pubkey_format : string -> string;
  decompress : string -> string;
  get_signing_privkey : option keyinfo -> option string;
  (* ..constants, ..config *)
  BLOCKSTACK_TEST : bool;
  conf_server : string;
  conf_port : string;
  (* random.random(), by draw number *)
  random : nat -> Q;
  (* ..utils: the (host, port) pair of a "host:port" string *)
  url_to_host_port : string -> host_port
}.

(* ===================================================================== *)
(** ** The durable queue *)
(* ===================================================================== *)

Definition same_key (c : category) (name : string) (e : entry) : bool :=
  category_eqb (etype e) c && String.eqb (fqu e) name.

(** Modelled from the spec: [in_queue] of backend/queue.py, the
    [Contains(category, fqu)] of the durable queue. *)
Definition in_queue (c : category) (name : string) (q : list entry) : bool :=
  existsb (same_key c name) q.

(** Modelled from the spec: [queue_removeall] of backend/queue.py, the
    idempotent bulk delete by primary key [(category, fqu)]. *)
Definition queue_removeall (rows : list entry) (q : list entry) : list entry :=
  filter (fun e => negb (existsb (fun r => same_key (etype r) (fqu r) e) rows)) q.

(** A row with one more error message.  The source passes
    [res.get('error')], which is [None] when the key is absent. *)
Definition annotate (msg : option string) (e : entry) : entry :=
  mk_entry (etype e) (fqu e) (tx_hash e) (zonefile e) (zonefile_hash e)
           (token_file e) (transfer_address e)
           (errors e ++ match msg with Some m => [m] | None => ["None"] end).

(** Modelled from the spec: [queue_add_error_msg] of backend/queue.py, the
    best-effort annotation [AddErrorMessage(category, fqu, text)]. *)
Definition queue_add_error_msg (c : category) (name : string)
           (msg : option string) (q : list entry) : list entry :=
  map (fun e => if same_key c name e then annotate msg e else e) q.

(** Modelled from the spec: the [Append(category, entry)] of the durable
    queue, which fails on a duplicate key. *)
Definition queue_append (e : entry) (q : list entry) : option (list entry) :=
  if in_queue (etype e) (fqu e) q then None else Some (q ++ [e]).

Section Registrar.

Variable E : Env.

(** Modelled from the spec: [queue_find_accepted] of backend/queue.py, the
    [FindAccepted(category)] of the durable queue: the rows of a category
    whose transaction has enough confirmations. *)
Definition queue_find_accepted (c : category) (q : list entry) : list entry :=
  filter (fun e => category_eqb (etype e) c && tx_accepted E (tx_hash e)) q.

(** Modelled from the spec: [cleanup_preorder_queue] of backend/queue.py,
    the [CleanupPreorderExpired()] of the durable queue. *)
Definition cleanup_preorder_queue (q : list entry) : list entry :=
  filter (fun e => negb (category_eqb (etype e) Preorder && preorder_expired E e)) q.

(** Modelled from the spec: the [async_*] functions of backend/nameops.py.
    Each broadcasts its operation and, when the broadcast succeeded, appends
    a row of its category to the queue; it answers with 'transaction_hash'
    (and 'zonefile_hash' for an update), or with 'error'. *)
Definition async_op (row : entry) : M resp := fun w =>
  let b := chain_broadcast E (etype row) (fqu row) in
  let w1 := emit (EvBroadcast (etype row) (fqu row)) w in
  match b_error b with
  | Some e =>
      (Ret (mk_resp None None (Some e) None None None None None (b_tx b)
                    false false None), w1)
  | None =>
      match queue_append row (queue w1) with
      | None =>
          (Ret (mk_resp None None (Some "ALREADY_QUEUED") None None None None
                        None (b_tx b) false false None), w1)
      | Some q =>
          (Ret (mk_resp None (Some true) None None None (Some (b_txid b)) None
                        (zonefile_hash row) (b_tx b) false false None),
           set_queue q w1)
      end
  end.

(** The transaction hash a row of category [c] for [name] is queued under. *)
Definition txid_of (c : category) (name : string) : string :=
  b_txid (chain_broadcast E c name).

(** Modelled from the spec: [async_preorder] of backend/nameops.py; the row
    carries the zone file, the token file and the transfer address for the
    later stages. *)
Definition async_preorder (name : string) (zonefile_data token : option string)
           (xfer : option string) : M resp :=
  async_op (mk_entry Preorder name (txid_of Preorder name) zonefile_data None
                     token xfer []).

(** Modelled from the spec: [async_register] of backend/nameops.py; the row
    carries forward what the preorder row held. *)
Definition async_register (name_data : entry) : M resp :=
  async_op (mk_entry Register (fqu name_data) (txid_of Register (fqu name_data))
                     (zonefile name_data) (zonefile_hash name_data)
                     (token_file name_data) (transfer_address name_data) []).

(** Modelled from the spec: [async_update] of backend/nameops.py. *)
Definition async_update (name : string) (zonefile_txt token : option string)
           (hash : string) (xfer : option string) : M resp :=
  async_op (mk_entry Update name (txid_of Update name) zonefile_txt (Some hash)
                     token xfer []).

(** Modelled from the spec: [async_transfer] of backend/nameops.py. *)
Definition async_transfer (name addr : string) : M resp :=
  async_op (mk_entry Transfer name (txid_of Transfer name) None None None
                     (Some addr) []).

(** Modelled from the spec: [async_renew] of backend/nameops.py. *)
Definition async_renew (name : string) : M resp :=
  async_op (mk_entry Renew name (txid_of Renew name) None None None None []).

(** Modelled from the spec: [async_revoke] of backend/nameops.py. *)
Definition async_revoke (name : string) : M resp :=
  async_op (mk_entry Revoke name (txid_of Revoke name) None None None None []).

(* ===================================================================== *)
(** ** Wallet cache *)
(* ===================================================================== *)

(** The dict built by [get_wallet]. *)
Record wallet_data : Type := mk_wallet_data {
  wd_payment_address : option string;
  wd_owner_address : option string;
  wd_data_pubkey : option string;
  wd_payment_privkey : option keyinfo;
  wd_owner_privkey : option keyinfo;
  wd_data_privkey : option keyinfo;
  wd_error : option string
}.

(** [set_wallet]: each keypair is [(address, private key information)]. *)
Definition set_wallet (payment_keypair owner_keypair data_keypair :
                         option string * option keyinfo) : M resp := fun w =>
  if negb (truthy_string (fst payment_keypair)
           && truthy_keyinfo (snd payment_keypair)
           && truthy_string (fst owner_keypair)
           && truthy_keyinfo (snd owner_keypair)
           && truthy_string (fst data_keypair)
           && truthy_keyinfo (snd data_keypair))
  then (Ret (error_resp "Missing wallet information"), w)
  else
    match snd payment_keypair, snd owner_keypair, snd data_keypair with
    | Some pk, Some ok, Some dk =>
        if negb (is_singlesig E pk) && negb (is_multisig E pk)
        then (Ret (error_resp "Invalid payment key info"), w)
        else if negb (is_singlesig E ok) && negb (is_multisig E ok)
        then (Ret (error_resp "Invalid owner key info"), w)
        else if negb (is_singlesig_hex E dk)
        then (Ret (error_resp "Invalid data key info"), w)
        else
          let pub := pubkey_hex_of_privkey E dk in
          let pub' := if String.eqb (get_pubkey_format E pub) "hex_compressed"
                      then decompress E pub else pub in
          (Ret (mk_resp (Some true) None None None None None None None None
                        false false None),
           set_wallet_state
             (mk_state (fst payment_keypair) (fst owner_keypair)
                       (Some pk) (Some ok) (Some dk) (Some pub')) w)
    | _, _, _ => (Ret (error_resp "Missing wallet information"), w)
    end.

Definition get_wallet_payment_privkey_info : M (option keyinfo) :=
  gets (fun w => payment_privkey_info (wallet w)).

Definition get_wallet_owner_privkey_info : M (option keyinfo) :=
  gets (fun w => owner_privkey_info (wallet w)).

Definition get_wallet_data_privkey_info : M (option keyinfo) :=
  gets (fun w => data_privkey_info (wallet w)).

Definition get_wallet : M wallet_data :=
  st <- gets wallet ;;
  pp <- get_wallet_payment_privkey_info ;;
  op <- get_wallet_owner_privkey_info ;;
  dp <- get_wallet_data_privkey_info ;;
  ret (mk_wallet_data (payment_address st) (owner_address st) (data_pubkey st)
         pp op dp
         (match pp, op, dp with
          | Some _, Some _, Some _ => None
          | _, _, _ => Some "Failed to load private keys (wrong password?)"
          end)).

(** [state.payment_address is None or state.owner_address is None] *)
Definition wallet_locked (st : RegistrarState) : bool :=
  match payment_address st, owner_address st with
  | Some _, Some _ => false
  | _, _ => true
  end.

(* ===================================================================== *)
(** ** Operation issuers *)
(* ===================================================================== *)

(** The tail shared by the issuers: turn the reply of [async_*] into the
    issuer's answer.  [with_message] tells whether the failure branch sets
    'message' ([transfer] does not); [with_value_hash] whether success copies
    'zonefile_hash' into 'value_hash' ([update] only). *)
Definition issuer_reply (ok_message : string) (with_message with_value_hash : bool)
           (r : resp) : resp :=
  match r_error r with
  | None =>
      mk_resp (Some true) None None None (Some ok_message)
              (r_transaction_hash r)
              (if with_value_hash then r_zonefile_hash r else None)
              None (r_tx r) false false None
  | Some e =>
      mk_resp (Some false) None (Some e) None
              (if with_message
               then Some "Couldn't broadcast transaction. You can try again."
               else None)
              None None None (r_tx r) false false None
  end.

Definition preorder_message : string :=
  "The name has been queued up for registration and will take a few hours to go through. You can check on the status at any time by running 'blockstack info'.".

Definition update_message : string :=
  "The name has been queued up for update and will take ~1 hour to process. You can check on the status at any time by running 'blockstack info'.".

Definition transfer_message : string :=
  "The name has been queued up for transfer and will take ~1 hour to process. You can check on the status at any time by running 'blockstack info'.".

Definition renew_message : string :=
  "The name has been queued up for renewal and will take ~1 hour to process. You can check on the status at any time by running 'blockstack info'.".

Definition revoke_message : string :=
  "The name has been queued up for revocation and will take ~1 hour to process. You can check on the status at any time by running 'blockstack info'.".

(** [preorder].  [cost_satoshis] and [min_payment_confs] only reach the
    transaction builder. *)
Definition preorder (name : string) (zonefile_data token xfer : option string)
  : M resp :=
  st <- gets wallet ;;
  if wallet_locked st then ret (failure_resp "Wallet is not unlocked.")
  else
    q <- gets queue ;;
    if in_queue Preorder name q then ret (failure_resp "Already in queue.")
    else
      _ <- get_wallet_payment_privkey_info ;;
      _ <- get_wallet_owner_privkey_info ;;
      r <- async_preorder name zonefile_data token xfer ;;
      ret (issuer_reply preorder_message true false r).

(** The answer of [update] when the zone file hash is already current. *)
Definition unchanged_resp : resp :=
  mk_resp (Some true) None None
          (Some "The zonefile has not changed, so no update sent.")
          None None None None None false false None.

Definition update (name : string) (zonefile_txt token : option string)
           (zonefile_hash0 : option string) (xfer : option string) : M resp :=
  match zonefile_txt, zonefile_hash0 with
  | None, None => raise (AssertionError "need zonefile or zonefile hash")
  | _, _ =>
      let hash := match zonefile_hash0, zonefile_txt with
                  | Some h, _ => h
                  | None, Some txt => get_zonefile_data_hash E txt
                  | None, None => ""
                  end in
      st <- gets wallet ;;
      if wallet_locked st then ret (failure_resp "Wallet is not unlocked.")
      else
        q <- gets queue ;;
        if in_queue Update name q then ret (failure_resp "Already in queue.")
        else
          _ <- get_wallet_payment_privkey_info ;;
          _ <- get_wallet_owner_privkey_info ;;
          modify (emit (EvIsZonefileHashCurrent name hash)) ;;;
          if negb (is_zonefile_hash_current E name hash)
          then
            r <- async_update name zonefile_txt token hash xfer ;;
            ret (issuer_reply update_message true true r)
          else ret unchanged_resp
  end.

Definition transfer (name addr : string) : M resp :=
  st <- gets wallet ;;
  if wallet_locked st then ret (failure_resp "Wallet is not unlocked.")
  else
    q <- gets queue ;;
    if in_queue Transfer name q then ret (failure_resp "Already in queue.")
    else
      _ <- get_wallet_payment_privkey_info ;;
      _ <- get_wallet_owner_privkey_info ;;
      r <- async_transfer name addr ;;
      ret (issuer_reply transfer_message false false r).

Definition renew (name : string) : M resp :=
  st <- gets wallet ;;
  if wallet_locked st then ret (failure_resp "Wallet is not unlocked.")
  else
    q <- gets queue ;;
    if in_queue Renew name q then ret (failure_resp "Already in queue.")
    else
      _ <- get_wallet_payment_privkey_info ;;
      _ <- get_wallet_owner_privkey_info ;;
      r <- async_renew name ;;
      ret (issuer_reply renew_message true false r).

Definition revoke (name : string) : M resp :=
  st <- gets wallet ;;
  if wallet_locked st then ret (failure_resp "Wallet is not unlocked.")
  else
    q <- gets queue ;;
    if in_queue Revoke name q then ret (failure_resp "Already in queue.")
    else
      _ <- get_wallet_payment_privkey_info ;;
      _ <- get_wallet_owner_privkey_info ;;
      r <- async_revoke name ;;
      ret (issuer_reply revoke_message true false r).

(* ===================================================================== *)
(** ** RegistrarWorker: the pipeline steps *)
(* ===================================================================== *)

(** The double quote character of the source's error messages. *)
Definition dquote : string := String (ascii_of_nat 34) EmptyString.

(** [str(x)] of a value that is a string or [None]. *)
Definition py_str (x : option string) : string :=
  match x with Some s => s | None => "None" end.

Definition remove_rows (rows : list entry) : M unit :=
  modify (fun w => set_queue (queue_removeall rows (queue w)) w).

(** [register_preordered_name].  The branch taken when the name is both in
    the preorder queue and in the register queue calls [queuedb_find], a name
    the module neither imports nor defines: Python raises [NameError]
    there. *)
Definition register_preordered_name (name_data : entry) : M resp :=
  modify (emit (EvIsNameRegistered (fqu name_data))) ;;;
  if negb (is_name_registered E (fqu name_data)) then
    q <- gets queue ;;
    if in_queue Preorder (fqu name_data) q then
      q' <- gets queue ;;
      if negb (in_queue Register (fqu name_data) q') then
        async_register name_data
      else raise (NameError "queuedb_find")
    else
      ret (mk_resp None None
             (Some ("Name " ++ dquote ++ fqu name_data ++ dquote ++ " is not preorded")%string)
             None None None None None None false true None)
  else
    ret (mk_resp None None
           (Some ("Name " ++ dquote ++ fqu name_data ++ dquote ++ " is already registered")%string)
           None None None None None None true false None).

(** [set_zonefile].  Its "already processed" branch calls [queuedb_find] as
    well. *)
Definition set_zonefile (name_data : entry) : M resp :=
  q <- gets queue ;;
  if in_queue Update (fqu name_data) q then raise (NameError "queuedb_find")
  else
    res <- update (fqu name_data) (zonefile name_data) (token_file name_data)
                  (zonefile_hash name_data) (transfer_address name_data) ;;
    match r_success res with
    | None => raise (AssertionError "'success' in res")
    | Some false =>
        match r_error res with
        | Some e => ret (error_resp e)
        | None => raise (KeyError "error")
        end
    | Some true =>
        match r_transaction_hash res, r_value_hash res with
        | Some t, Some v =>
            ret (mk_resp None (Some true) None None None (Some t) None (Some v)
                         None false false None)
        | _, _ => raise (Exception "Invalid response")
        end
    end.

Definition get_confirmed_registers (q : list entry) : list entry :=
  queue_find_accepted Register q.

Definition get_confirmed_preorders (q : list entry) : list entry :=
  queue_find_accepted Preorder q.

Definition get_confirmed_updates (q : list entry) : list entry :=
  queue_find_accepted Update q.

Definition get_confirmed_transfers (q : list entry) : list entry :=
  queue_find_accepted Transfer q.

Definition get_confirmed_name_imports (q : list entry) : list entry :=
  queue_find_accepted NameImport q.

(** The body of the loop of [set_zonefiles]. *)
Definition set_zonefiles_body (acc : resp) (register : entry) : M resp :=
  q <- gets queue ;;
  if in_queue Update (fqu register) q then
    remove_rows [register] ;;; ret acc
  else
    res <- set_zonefile register ;;
    if has_error res then ret (error_resp "Failed to set up name token file")
    else remove_rows [register] ;;; ret acc.

Definition set_zonefiles : M resp :=
  q <- gets queue ;;
  for_each (get_confirmed_registers q) set_zonefiles_body status_ok.

(** The body of the loop of [register_preorders]. *)
Definition register_preorders_body (acc : resp) (preorder_row : entry) : M resp :=
  q <- gets queue ;;
  if in_queue Register (fqu preorder_row) q then
    remove_rows [preorder_row] ;;; ret acc
  else
    res <- register_preordered_name preorder_row ;;
    if has_error res then
      if r_already_registered res then remove_rows [preorder_row] ;;; ret acc
      else ret (error_resp "Failed to preorder a name")
    else remove_rows [preorder_row] ;;; ret acc.

(** [register_preorders]; the keys in [wallet_data] only reach the
    transaction builder. *)
Definition register_preorders (wd : wallet_data) : M resp :=
  q <- gets queue ;;
  for_each (get_confirmed_preorders q) register_preorders_body status_ok.

(** [clear_confirmed] *)
Definition clear_queue (c : category) : M unit :=
  q <- gets queue ;;
  match queue_find_accepted c q with
  | [] => ret tt
  | accepted => remove_rows accepted
  end.

Definition clear_confirmed : M resp :=
  clear_queue Transfer ;;; clear_queue Revoke ;;; clear_queue Renew ;;;
  clear_queue NameImport ;;;
  modify (fun w => set_queue (cleanup_preorder_queue (queue w)) w) ;;;
  ret status_ok.

(** The first half of [replicate_name_data]: the zone file.  [None] means
    "go on with the token file"; [Some r] is an early [return r]. *)
Definition replicate_zonefile (name_data : entry) (zonefile_data zh : string)
  : M (option resp) :=
  rz <- gets replicated_zonefiles ;;
  if negb (mem_string zh rz) then
    modify (emit (EvGetNameRecord (fqu name_data))) ;;;
    match get_name_blockchain_record E (fqu name_data) with
    | NameError_rec e => ret (Some (error_resp e))
    | NameRec _ value_hash =>
        if negb (String.eqb (py_str value_hash) zh)
        then ret (Some (error_resp "Zonefile hash not yet replicated"))
        else
          modify (emit (EvAtlasPush (fqu name_data) zonefile_data)) ;;;
          match zonefile_data_replicate E (fqu name_data) zonefile_data with
          | Some e => ret (Some (error_resp e))
          | None => modify (remember_zonefile zh) ;;; ret None
          end
    end
  else ret None.

(** The second half of [replicate_name_data]: the token file. *)
Definition replicate_token_file (name_data : entry) (zonefile_data zh : string)
           (wd : wallet_data) : M resp :=
  match token_file name_data with
  | Some token =>
      if negb (is_user_zonefile E zonefile_data) then ret status_ok
      else
        match get_signing_privkey E (wd_owner_privkey wd) with
        | None => raise (AssertionError "signing_privkey")
        | Some _ =>
            let token_file_hash :=
              sha256_hexdigest E (fqu name_data ++ zh ++ token)%string in
            rt <- gets replicated_token_file_hashes ;;
            if mem_string token_file_hash rt then ret status_ok
            else
              modify (emit (EvTokenFilePut (fqu name_data) token)) ;;;
              match token_file_put E (fqu name_data) token with
              | Some _ => ret (error_resp "Failed to replicate token file")
              | None =>
                  modify (remember_token_file token_file_hash) ;;; ret status_ok
              end
        end
  | None => ret status_ok
  end.

(** The zone file hash [replicate_name_data] works with: the row's
    'zonefile_hash', or the hash of the data when the row has none. *)
Definition entry_zonefile_hash (name_data : entry) (zonefile_data : string) : string :=
  match zonefile_hash name_data with
  | Some h => h
  | None => get_zonefile_data_hash E zonefile_data
  end.

Definition replicate_name_data (name_data : entry) (wd : wallet_data) : M resp :=
  match zonefile name_data with
  | None => ret status_ok
  | Some zonefile_data =>
      let zh := entry_zonefile_hash name_data zonefile_data in
      early <- replicate_zonefile name_data zonefile_data zh ;;
      match early with
      | Some r => ret r
      | None => replicate_token_file name_data zonefile_data zh wd
      end
  end.

(** [get_atlas_server_list]: the error dict, or the list of servers, each
    turned into its [(host, port)] pair by [url_to_host_port].
    [list(set(...))] is modelled by [nodup]. *)
Definition get_atlas_server_list : M (resp + list host_port) :=
  let server_hostport := (conf_server E ++ ":" ++ conf_port E)%string in
  modify (emit (EvGetAtlasPeers server_hostport)) ;;;
  match get_atlas_peers E server_hostport with
  | PeersOk peers =>
      let servers := nodup string_dec (server_hostport :: peers) in
      ret (inr (map (url_to_host_port E)
                    (if negb (mem_string "node.blockstack.org:6264" servers)
                        && negb (BLOCKSTACK_TEST E)
                     then servers ++ ["node.blockstack.org:6264"]
                     else servers)))
  | PeersErr _ => ret (inl (error_resp "Failed to get valid response"))
  | PeersSocketError =>
      ret (inl (error_resp "Failed to get atlas peers due to socket error"))
  | PeersException => ret (inl (error_resp "Failed to contact atlas peer"))
  end.

(** The body of the loop of [replicate_names_data]; the accumulator is
    [(ret, failed_names)]. *)
Definition replicate_names_body (wd : wallet_data) (skip : list string)
           (acc : resp * list string) (update_row : entry)
  : M (resp * list string) :=
  if mem_string (fqu update_row) skip then ret acc
  else
    res <- replicate_name_data update_row wd ;;
    if has_error res
    then ret (error_resp "Failed to finish an update", snd acc ++ [fqu update_row])
    else ret acc.

(** [ret['names'] = failed] when ['error' in ret]. *)
Definition with_names (acc : resp * list string) : resp :=
  if has_error (fst acc)
  then mk_resp None None (r_error (fst acc)) None None None None None None
               false false (Some (snd acc))
  else fst acc.

(** [replicate_names_data].  When the server list is an error dict the
    source formats [servers['error']], and [servers] is not defined in this
    function: a [NameError]. *)
Definition replicate_names_data (updates : list entry) (wd : wallet_data)
           (skip : list string) : M resp :=
  atlas_servers <- get_atlas_server_list ;;
  match atlas_servers with
  | inl _ => raise (NameError "servers")
  | inr _ =>
      acc <- for_each updates (replicate_names_body wd skip) (status_ok, []) ;;
      ret (with_names acc)
  end.

Definition replicate_update_data (wd : wallet_data) (skip : list string) : M resp :=
  q <- gets queue ;;
  match get_confirmed_updates q with
  | [] => ret status_ok
  | updates => replicate_names_data updates wd skip
  end.

Definition replicate_name_import_data (wd : wallet_data) (skip : list string)
  : M resp :=
  q <- gets queue ;;
  match get_confirmed_name_imports q with
  | [] => ret status_ok
  | name_imports => replicate_names_data name_imports wd skip
  end.

(** The transfer, or the declared victory, for one update row with a
    transfer address. *)
Definition transfer_or_victory (update_row : entry) (addr : string) : M resp :=
  modify (emit (EvGetNameRecord (fqu update_row))) ;;;
  match get_name_blockchain_record E (fqu update_row) with
  | NameRec a _ =>
      if String.eqb a addr
      then ret (mk_resp (Some true) None None None None None None None None
                        false false None)
      else transfer (fqu update_row) addr
  | NameError_rec _ => transfer (fqu update_row) addr
  end.

(** The body of the loop of [transfer_names]; the accumulator is
    [(ret, failed)]. *)
Definition transfer_names_body (skip : list string)
           (acc : resp * list string) (update_row : entry)
  : M (resp * list string) :=
  if mem_string (fqu update_row) skip then ret acc
  else
    match transfer_address update_row with
    | Some addr =>
        res <- transfer_or_victory update_row addr ;;
        match r_success res with
        | None => raise (AssertionError "'success' in res")
        | Some true => remove_rows [update_row] ;;; ret acc
        | Some false =>
            modify (fun w => set_queue
                      (queue_add_error_msg Update (fqu update_row) (r_error res)
                                           (queue w)) w) ;;;
            ret (error_resp "Not all names transferred",
                 snd acc ++ [fqu update_row])
        end
    | None => remove_rows [update_row] ;;; ret acc
    end.

Definition transfer_names (skip : list string) : M resp :=
  q <- gets queue ;;
  acc <- for_each (get_confirmed_updates q) (transfer_names_body skip)
                  (status_ok, []) ;;
  ret (with_names acc).

End Registrar.

(* ===================================================================== *)
(** ** The file system the lockfile lives in *)
(* ===================================================================== *)

(** Directory entries name inodes, so that a hard link and the descriptor
    returned by [tempfile.mkstemp] reach the same bytes. *)
Record FS : Type := mk_fs {
  links : list (string * nat);
  inodes : list (nat * string)
}.

Fixpoint assoc_string (k : string) (l : list (string * nat)) : option nat :=
  match l with
  | [] => None
  | (k', v) :: rest => if String.eqb k k' then Some v else assoc_string k rest
  end.

Fixpoint assoc_nat (k : nat) (l : list (nat * string)) : option string :=
  match l with
  | [] => None
  | (k', v) :: rest => if Nat.eqb k k' then Some v else assoc_nat k rest
  end.

(** [os.path.exists] *)
Definition fs_exists (path : string) (fs : FS) : bool :=
  match assoc_string path (links fs) with Some _ => true | None => false end.

(** [open(path, "r").read()] *)
Definition fs_read (path : string) (fs : FS) : option string :=
  match assoc_string path (links fs) with
  | Some i => assoc_nat i (inodes fs)
  | None => None
  end.

(** [os.unlink]; [None] is the [OSError] of a missing path. *)
Definition fs_unlink (path : string) (fs : FS) : option FS :=
  if fs_exists path fs
  then Some (mk_fs (filter (fun l => negb (String.eqb (fst l) path)) (links fs))
                   (inodes fs))
  else None.

(** [os.link(src, dst)]; [None] is the [OSError] of an existing [dst] or a
    missing [src]. *)
Definition fs_link (src dst : string) (fs : FS) : option FS :=
  match assoc_string src (links fs) with
  | Some i =>
      if fs_exists dst fs then None
      else Some (mk_fs ((dst, i) :: links fs) (inodes fs))
  | None => None
  end.

(** [os.write(fd, buf)], the descriptor being the inode; [None] is the
    [OSError] of a bad descriptor. *)
Definition fs_write (fd : nat) (buf : string) (fs : FS) : option FS :=
  match assoc_nat fd (inodes fs) with
  | Some old =>
      Some (mk_fs (links fs)
                  (map (fun p => if Nat.eqb (fst p) fd
                                 then (fd, (old ++ buf)%string) else p)
                       (inodes fs)))
  | None => None
  end.

(** [os.path.join] of two components. *)
Definition path_join (a b : string) : string :=
  match a with
  | EmptyString => b
  | _ => if String.eqb (substring (String.length a - 1) 1 a) "/"
         then (a ++ b)%string else (a ++ "/" ++ b)%string
  end.

Fixpoint tmp_suffix (n : nat) : string :=
  match n with
  | O => EmptyString
  | S k => String "a" (tmp_suffix k)
  end.

Fixpoint first_fresh (fuel n : nat) (candidate : nat -> string) (fs : FS)
  : option string :=
  match fuel with
  | O => None
  | S f => if fs_exists (candidate n) fs
           then first_fresh f (S n) candidate fs
           else Some (candidate n)
  end.

Definition fresh_inode (fs : FS) : nat := S (list_max (map fst (inodes fs))).

(** [tempfile.mkstemp(prefix=..., dir=...)]: a new empty file under a name
    that is not in use; [None] is the [IOError] of finding no usable name. *)
Definition mkstemp (prefix dir : string) (fs : FS) : option (nat * string * FS) :=
  match first_fresh (S (length (links fs))) 0
                    (fun n => path_join dir (prefix ++ tmp_suffix n)%string) fs with
  | None => None
  | Some path =>
      let i := fresh_inode fs in
      Some (i, path, mk_fs ((path, i) :: links fs) ((i, "") :: inodes fs))
  end.

(* ===================================================================== *)
(** ** The lockfile *)
(* ===================================================================== *)

Definition is_space (c : ascii) : bool :=
  match nat_of_ascii c with
  | 9 | 10 | 11 | 12 | 13 | 32 => true
  | _ => false
  end.

Fixpoint lstrip (s : string) : string :=
  match s with
  | EmptyString => EmptyString
  | String c r => if is_space c then lstrip r else s
  end.

Fixpoint rev_string (s acc : string) : string :=
  match s with
  | EmptyString => acc
  | String c r => rev_string r (String c acc)
  end.

(** [str.strip()] *)
Definition strip (s : string) : string :=
  rev_string (lstrip (rev_string (lstrip s) "")) "".

(** [int(s)] for a stripped string; [None] is the [ValueError]. *)
Definition py_int (s : string) : option Z :=
  match s with
  | String "+" r => option_map Z.of_uint (NilZero.uint_of_string r)
  | String "-" r => option_map (fun d => (- Z.of_uint d)%Z) (NilZero.uint_of_string r)
  | _ => option_map Z.of_uint (NilZero.uint_of_string s)
  end.

(** ["%s" % n] for an integer. *)
Definition py_str_of_int (n : Z) : string := NilZero.string_of_int (Z.to_int n).

(** The PID [is_lockfile_stale] reads out of the lockfile's contents. *)
Definition lockfile_pid (dat : string) : Z :=
  match py_int (strip dat) with
  | Some pid => pid
  | None => (-1)%Z
  end.

Section Lockfile.

(** [os.getpid()] and [os.path.dirname(config_path)]. *)
Variable getpid : Z.
Variable config_dir : string.

(** [is_lockfile_stale], on the contents of the file. *)
Definition is_lockfile_stale_contents (dat : string) : bool :=
  negb (Z.eqb (lockfile_pid dat) getpid).

(** [is_lockfile_stale].  The source calls it on a path that exists. *)
Definition is_lockfile_stale (path : string) (fs : FS) : bool :=
  match fs_read path fs with
  | Some dat => is_lockfile_stale_contents dat
  | None => true
  end.

Definition get_lockfile_path : string := path_join config_dir "registrar.lock".

Definition is_lockfile_valid (fs : FS) : bool :=
  if fs_exists get_lockfile_path fs
  then if is_lockfile_stale get_lockfile_path fs then false else true
  else false.

(** [lockfile_write]: the new file system and [True], or [False]. *)
Definition lockfile_write (fd : nat) (fs : FS) : FS * bool :=
  match fs_write fd (py_str_of_int getpid ++ String (ascii_of_nat 10) "")%string fs with
  | Some fs' => (fs', true)
  | None => (fs, false)
  end.

(** [os.unlink(path)] inside [try: ... except: pass]. *)
Definition try_unlink (path : string) (fs : FS) : FS :=
  match fs_unlink path fs with Some fs' => fs' | None => fs end.

(** The start of [run], up to the pipeline loop: the file system it leaves
    behind, and whether the worker holds the lock and goes on ([true]) or
    returns ([false]).  The stale lockfile is unlinked right after
    [os.path.exists] said it is there, so that this [os.unlink] does not
    raise. *)
Definition acquire_lockfile (fs : FS) : FS * bool :=
  if negb (is_lockfile_valid fs) then
    let fs1 := if fs_exists get_lockfile_path fs
               then try_unlink get_lockfile_path fs else fs in
    match mkstemp ".registrar.lock." config_dir fs1 with
    | None => (fs1, false)
    | Some (fd, path, fs2) =>
        match fs_link path get_lockfile_path fs2 with
        | None => (try_unlink path fs2, false)
        | Some fs3 =>
            let fs4 := try_unlink path fs3 in
            let '(fs5, rc) := lockfile_write fd fs4 in
            (fs5, rc)
        end
    end
  else (fs, false).

End Lockfile.

(* ===================================================================== *)
(** ** RegistrarWorker.run *)
(* ===================================================================== *)

(** The six [try] blocks of one cycle of the loop, in order. *)
Inductive step : Type :=
| RegisterPreorders | SetZonefiles | ReplicateUpdates
| TransferNames | ReplicateNameImports | ClearConfirmed.

(** The places of [run] between which the worker thread is observed:
    - [Startup]: the lockfile protocol;
    - [LoopHead]: the test of [while self.running];
    - [WalletGate]: the test of the inner [while] that waits for the owner
      address;
    - [Preemption]: the [if not self.running: break] after the gate;
    - [AtStep s]: the [try] block of step [s];
    - [Backoff]: the choice of the next [poll_interval];
    - [Sleeping i n]: iteration [i] of [for i in xrange(0, n)];
    - [Exited]: [run] has returned. *)
Inductive pc : Type :=
| Startup | LoopHead | WalletGate | Preemption
| AtStep (s : step) | Backoff | Sleeping (i n : nat) | Exited.

(** What an observer of the thread sees. *)
Inductive run_event : Type :=
| RunFlagRead (value : bool)
| RunBeginStep (s : step)
| RunSleepFor (seconds : Q)
| RunSleep1
| RunStopRequested.

(** The thread: [self.running], [self.lockfile_path], the locals of [run],
    the place it is at, and the world, file system and random draws it has
    consumed. *)
Record Worker : Type := mk_worker {
  running : bool;
  lockfile_path : option string;
  poll_interval : Q;
  failed : bool;
  failed_names : list string;
  cur_wallet_data : option wallet_data;
  at_pc : pc;
  world : World;
  fs : FS;
  draws : nat;
  history : list run_event
}.

Definition next_pc (s : step) : pc :=
  match s with
  | RegisterPreorders => AtStep SetZonefiles
  | SetZonefiles => AtStep ReplicateUpdates
  | ReplicateUpdates => AtStep TransferNames
  | TransferNames => AtStep ReplicateNameImports
  | ReplicateNameImports => AtStep ClearConfirmed
  | ClearConfirmed => Backoff
  end.

(** The steps whose failure branch runs [failed_names += res['names']]. *)
Definition adds_names (s : step) : bool :=
  match s with
  | ReplicateUpdates | TransferNames | ReplicateNameImports => true
  | _ => false
  end.

(** [int(x)] of a float: truncation towards zero. *)
Definition py_int_of_float (x : Q) : Z := Z.quot (Qnum x) (Zpos (Qden x)).

Definition no_wallet_data : wallet_data :=
  mk_wallet_data None None None None None None None.

(** ['error' in wallet_data or wallet_data['owner_address'] is None] *)
Definition owner_address_unset (wd : wallet_data) : bool :=
  match wd_error wd, wd_owner_address wd with
  | None, Some _ => false
  | _, _ => true
  end.

Section Run.

Variable E : Env.
Variable getpid : Z.
Variable config_dir : string.
(** [self.poll_interval], an [int] read from the configuration. *)
Variable configured_poll_interval : Z.

(** The call made by the [try] block of a step. *)
Definition step_call (s : step) (w : Worker) : M resp :=
  let wd := match cur_wallet_data w with Some wd => wd | None => no_wallet_data end in
  match s with
  | RegisterPreorders => register_preorders E wd
  | SetZonefiles => set_zonefiles E
  | ReplicateUpdates => replicate_update_data E wd []
  | TransferNames => transfer_names E (failed_names w)
  | ReplicateNameImports => replicate_name_import_data E wd (failed_names w)
  | ClearConfirmed => clear_confirmed E
  end.

(** One [try] block: an 'error' in the result, or an exception, sets
    [failed = True] and [poll_interval = 1.0]. *)
Definition run_step (s : step) (w : Worker) : Worker :=
  let '(out, world') := step_call s w (world w) in
  let hist := history w ++ [RunBeginStep s] in
  match out with
  | Ret res =>
      if has_error res then
        mk_worker (running w) (lockfile_path w) 1%Q true
                  (if adds_names s
                   then match r_names res with
                        | Some names => failed_names w ++ names
                        | None => failed_names w
                        end
                   else failed_names w)
                  (cur_wallet_data w) (next_pc s) world' (fs w) (draws w) hist
      else
        mk_worker (running w) (lockfile_path w) (poll_interval w) (failed w)
                  (failed_names w) (cur_wallet_data w) (next_pc s) world' (fs w)
                  (draws w) hist
  | Raise _ =>
      mk_worker (running w) (lockfile_path w) 1%Q true (failed_names w)
                (cur_wallet_data w) (next_pc s) world' (fs w) (draws w) hist
  end.

(** The end of [run]: [cleanup_lockfile]. *)
Definition finish (w : Worker) (hist : list run_event) : Worker :=
  match lockfile_path w with
  | None =>
      mk_worker (running w) None (poll_interval w) (failed w) (failed_names w)
                (cur_wallet_data w) Exited (world w) (fs w) (draws w) hist
  | Some path =>
      match fs_unlink path (fs w) with
      | Some fs' =>
          mk_worker (running w) None (poll_interval w) (failed w)
                    (failed_names w) (cur_wallet_data w) Exited (world w) fs'
                    (draws w) hist
      | None =>
          mk_worker (running w) (Some path) (poll_interval w) (failed w)
                    (failed_names w) (cur_wallet_data w) Exited (world w) (fs w)
                    (draws w) hist
      end
  end.

Definition goto (p : pc) (w : Worker) (hist : list run_event) : Worker :=
  mk_worker (running w) (lockfile_path w) (poll_interval w) (failed w)
            (failed_names w) (cur_wallet_data w) p (world w) (fs w) (draws w) hist.

(** The next [poll_interval], with real numbers for the floats. *)
Definition next_poll_interval (w : Worker) : Q :=
  if failed w
  then Qred (2 * poll_interval w + random E (draws w) * poll_interval w)%Q
  else inject_Z configured_poll_interval.

(** The thread runs from the place it is at to the next one. *)
Definition tick (w : Worker) : Worker :=
  match at_pc w with
  | Startup =>
      let '(fs', locked) := acquire_lockfile getpid config_dir (fs w) in
      mk_worker (running w) (Some (get_lockfile_path config_dir))
                (poll_interval w) (failed w) (failed_names w)
                (cur_wallet_data w) (if locked then LoopHead else Exited)
                (world w) fs' (draws w) (history w)
  | LoopHead =>
      let hist := history w ++ [RunFlagRead (running w)] in
      if running w then
        match get_wallet (world w) with
        | (Ret wd, world') =>
            mk_worker (running w) (lockfile_path w) (poll_interval w) false []
                      (Some wd) WalletGate world' (fs w) (draws w) hist
        | (Raise _, world') =>
            finish (mk_worker (running w) (lockfile_path w) (poll_interval w)
                              false [] None WalletGate world' (fs w) (draws w)
                              hist) hist
        end
      else finish w hist
  | WalletGate =>
      let wd := match cur_wallet_data w with
                | Some wd => wd | None => no_wallet_data end in
      if owner_address_unset wd then
        let hist := history w ++ [RunFlagRead (running w)] in
        if running w then
          match get_wallet (world w) with
          | (Ret wd', world') =>
              mk_worker (running w) (lockfile_path w) (poll_interval w)
                        (failed w) (failed_names w) (Some wd') WalletGate
                        world' (fs w) (draws w) (hist ++ [RunSleep1])
          | (Raise _, world') => finish w hist
          end
        else goto Preemption w hist
      else goto Preemption w (history w)
  | Preemption =>
      let hist := history w ++ [RunFlagRead (running w)] in
      if running w then goto (AtStep RegisterPreorders) w hist
      else finish w hist
  | AtStep s => run_step s w
  | Backoff =>
      let p := next_poll_interval w in
      mk_worker (running w) (lockfile_path w) p (failed w) (failed_names w)
                (cur_wallet_data w)
                (Sleeping 0 (Z.to_nat (py_int_of_float p)))
                (world w) (fs w) (if failed w then S (draws w) else draws w)
                (history w ++ [RunSleepFor p])
  | Sleeping i n =>
      if Nat.ltb i n then
        let hist := history w ++ [RunSleep1; RunFlagRead (running w)] in
        if running w then goto (Sleeping (S i) n) w hist
        else goto LoopHead w hist
      else goto LoopHead w (history w)
  | Exited => w
  end.

(** What happens to the thread: it runs to its next place, another thread
    calls [request_stop], or another thread makes an RPC call that acts on
    the world (an issuer, [set_wallet]). *)
Inductive action : Type :=
| Tick
| Stop
| Rpc (call : M resp).

Definition request_stop (w : Worker) : Worker :=
  mk_worker false (lockfile_path w) (poll_interval w) (failed w)
            (failed_names w) (cur_wallet_data w) (at_pc w) (world w) (fs w)
            (draws w) (history w ++ [RunStopRequested]).

Definition rpc (call : M resp) (w : Worker) : Worker :=
  mk_worker (running w) (lockfile_path w) (poll_interval w) (failed w)
            (failed_names w) (cur_wallet_data w) (at_pc w)
            (snd (call (world w))) (fs w) (draws w) (history w).

Definition act (a : action) (w : Worker) : Worker :=
  match a with
  | Tick => tick w
  | Stop => request_stop w
  | Rpc call => rpc call w
  end.

Fixpoint exec (acts : list action) (w : Worker) : Worker :=
  match acts with
  | [] => w
  | a :: rest => exec rest (act a w)
  end.

(** [RegistrarWorker.__init__] and [start()]: the thread before [run]. *)
Definition new_worker (w0 : World) (fs0 : FS) : Worker :=
  mk_worker true None (inject_Z configured_poll_interval) false [] None
            Startup w0 fs0 0 [].

End Run.

(* ===================================================================== *)
(** ** Concrete collaborators and worlds, for the scenarios below *)
(* ===================================================================== *)

Module Demo.

(** Host and port out of "host:port". *)
Fixpoint before_colon (s : string) : string :=
  match s with
  | EmptyString => EmptyString
  | String c r => if Ascii.eqb c ":" then EmptyString else String c (before_colon r)
  end.

Fixpoint after_colon (s : string) : option string :=
  match s with
  | EmptyString => None
  | String c r => if Ascii.eqb c ":" then Some r else after_colon r
  end.

Definition host_port_of (hp : string) : host_port :=
  match after_colon hp with
  | Some port => (Some (before_colon hp), py_int port)
  | None => (None, None)
  end.

(** A chain on which no name is registered yet, every transaction is
    confirmed, every broadcast and every replication succeeds.  The chain
    record of alice.id carries the hash of the zone file "Z"; every other
    name still carries an older hash.  Private keys derive compressed public
    keys ("02..."), which [decompress] turns into uncompressed ones
    ("04..."). *)
Definition env : Env :=
  mk_env
    (fun _ => false)
    (fun name => if String.eqb name "alice.id"
                 then NameRec "owner-of-alice" (Some "hash(Z)")
                 else NameRec "owner-of-others" (Some "older-hash"))
    (fun _ _ => false)
    (fun _ => PeersOk [])
    (fun _ => true)
    (fun _ => false)
    (fun _ name => mk_broadcast None ("tx-" ++ name)%string None)
    (fun _ _ => None)
    (fun _ _ => None)
    (fun data => ("hash(" ++ data ++ ")")%string)
    (fun data => ("sha256(" ++ data ++ ")")%string)
    (fun _ => true)
    (fun k => match k with Singlesig _ => true | Multisig _ _ _ => false end)
    (fun k => match k with Singlesig _ => false | Multisig _ _ _ => true end)
    (fun k => match k with Singlesig _ => true | Multisig _ _ _ => false end)
    (fun k => match k with
              | Singlesig s => ("02" ++ s)%string
              | Multisig _ _ _ => ""
              end)
    (fun pub => if prefix "04" pub then "hex" else "hex_compressed")
    (fun pub => ("04" ++ pub)%string)
    (fun _ => Some "signing-key")
    true
    "localhost"
    "6264"
    (fun _ => (1 # 2)%Q)
    host_port_of.

(** The same chain, except that every broadcast fails. *)
Definition failing_env : Env :=
  mk_env
    (is_name_registered env) (get_name_blockchain_record env)
    (is_zonefile_hash_current env) (get_atlas_peers env) (tx_accepted env)
    (preorder_expired env)
    (fun _ _ => mk_broadcast (Some "broadcast failed") "" None)
    (zonefile_data_replicate env) (token_file_put env)
    (get_zonefile_data_hash env) (sha256_hexdigest env) (is_user_zonefile env)
    (is_singlesig env) (is_multisig env) (is_singlesig_hex env)
    (pubkey_hex_of_privkey env) (get_pubkey_format env) (decompress env)
    (get_signing_privkey env) (BLOCKSTACK_TEST env) (conf_server env)
    (conf_port env) (random env) (url_to_host_port env).

(** The same chain, except that it reports every zone file hash as
    current. *)
Definition current_env : Env :=
  mk_env
    (is_name_registered env) (get_name_blockchain_record env)
    (fun _ _ => true) (get_atlas_peers env) (tx_accepted env)
    (preorder_expired env) (chain_broadcast env)
    (zonefile_data_replicate env) (token_file_put env)
    (get_zonefile_data_hash env) (sha256_hexdigest env) (is_user_zonefile env)
    (is_singlesig env) (is_multisig env) (is_singlesig_hex env)
    (pubkey_hex_of_privkey env) (get_pubkey_format env) (decompress env)
    (get_signing_privkey env) (BLOCKSTACK_TEST env) (conf_server env)
    (conf_port env) (random env) (url_to_host_port env).

Definition unlocked : RegistrarState :=
  mk_state (Some "payment-address") (Some "owner-address")
           (Some (Singlesig "aa")) (Some (Singlesig "bb"))
           (Some (Singlesig "cc")) (Some "04cc").

Definition world_of (q : list entry) : World := mk_world q unlocked [] [] [].

Definition empty_world : World := world_of [].

Definition locked_world : World := mk_world [] empty_state [] [] [].

Definition wd : wallet_data :=
  mk_wallet_data (Some "payment-address") (Some "owner-address") (Some "04cc")
                 (Some (Singlesig "aa")) (Some (Singlesig "bb"))
                 (Some (Singlesig "cc")) None.

(** Queue rows. *)
Definition preorder_row (name : string) : entry :=
  mk_entry Preorder name ("tx-" ++ name)%string (Some "Z") None None None [].

Definition register_row (name : string) : entry :=
  mk_entry Register name ("tx-" ++ name)%string (Some "Z") None None None [].

Definition update_row (name : string) (xfer : option string) : entry :=
  mk_entry Update name ("tx-" ++ name)%string (Some "Z") (Some "hash(Z)")
           (Some "T") xfer [].

Definition deletion_row (name : string) : entry :=
  mk_entry Update name ("tx-" ++ name)%string None (Some "hash(Z)") (Some "T")
           None [].

(** A directory whose lockfile was left by process 4242, and one whose
    lockfile holds garbage. *)
Definition newline : string := String (ascii_of_nat 10) EmptyString.

Definition stale_fs : FS :=
  mk_fs [("/home/u/.blockstack/registrar.lock", 7%nat)]
        [(7%nat, ("4242" ++ newline)%string)].

Definition corrupt_fs : FS :=
  mk_fs [("/home/u/.blockstack/registrar.lock", 7%nat)] [(7%nat, "not a pid")].

Definition empty_fs : FS := mk_fs [] [].

Definition config_dir : string := "/home/u/.blockstack".

Definition lock_path : string := "/home/u/.blockstack/registrar.lock".

End Demo.

(** The chain record of [name] has the address [addr]. *)
Definition chain_shows (E : Env) (name addr : string) : bool :=
  match get_name_blockchain_record E name with
  | NameRec a _ => String.eqb a addr
  | NameError_rec _ => false
  end.

(** A call of [transfer] for [name] in the world [w] gets its transaction
    broadcast: the wallet is unlocked, no transfer of the name is queued, and
    the broadcast has no error. *)
Definition transfer_broadcast_succeeds (E : Env) (w : World) (name : string) : bool :=
  negb (wallet_locked (wallet w))
  && negb (in_queue Transfer name (queue w))
  && match b_error (chain_broadcast E Transfer name) with
     | None => true
     | Some _ => false
     end.

(** The 'error' of a call of [transfer] that does not succeed. *)
Definition transfer_failure (E : Env) (w : World) (name : string) : option string :=
  if wallet_locked (wallet w) then Some "Wallet is not unlocked."
  else if in_queue Transfer name (queue w) then Some "Already in queue."
  else b_error (chain_broadcast E Transfer name).

(** The three ways an update row is done with: no transfer address, the name
    already at the transfer address, or a transfer broadcast for it. *)
Definition row_done (E : Env) (w : World) (u : entry) : bool :=
  match transfer_address u with
  | None => true
  | Some addr => chain_shows E (fqu u) addr || transfer_broadcast_succeeds E w (fqu u)
  end.

(** At most one row per [(category, fqu)]. *)
Definition unique_keys (q : list entry) : Prop :=
  NoDup (map (fun e => (etype e, fqu e)) q).

(** Going from [w] to [w'] has touched, in the queue, nothing but the
    update rows and the transfer rows of the names in [names]; the wallet is
    the same and the trace has only grown. *)
Definition touches_only (names : list string) (w w' : World) : Prop :=
  wallet w' = wallet w /\
  (forall name, ~ In name names ->
     in_queue Update name (queue w') = in_queue Update name (queue w) /\
     in_queue Transfer name (queue w') = in_queue Transfer name (queue w)) /\
  (forall x, In x (queue w) ->
     (forall name, In name names -> same_key Update name x = false) ->
     In x (queue w')) /\
  (forall ev, In ev (trace w) -> In ev (trace w')).

(** What has become of the update row [u], processed in the world [w], in
    the world [w']: gone exactly when it was done with, otherwise still there
    and annotated with the error of the transfer; and when it is gone and had
    a transfer address at which the chain does not show the name, a transfer
    of the name has been broadcast and queued. *)
Definition row_outcome (E : Env) (u : entry) (w w' : World) : Prop :=
  in_queue Update (fqu u) (queue w') = negb (row_done E w u) /\
  (row_done E w u = false ->
   In (annotate (transfer_failure E w (fqu u)) u) (queue w')) /\
  (row_done E w u = true ->
   forall addr, transfer_address u = Some addr ->
     chain_shows E (fqu u) addr = false ->
     In (EvBroadcast Transfer (fqu u)) (trace w') /\
     in_queue Transfer (fqu u) (queue w') = true).

(** A string without white space. *)
Fixpoint no_space (s : string) : bool :=
  match s with
  | EmptyString => true
  | String c r => negb (is_space c) && no_space r
  end.

(** The steps an observer has seen begin, and the sleeps it has seen
    chosen. *)
Fixpoint begun (h : list run_event) : list step :=
  match h with
  | [] => []
  | RunBeginStep s :: rest => s :: begun rest
  | _ :: rest => begun rest
  end.

Fixpoint sleep_intervals (h : list run_event) : list Q :=
  match h with
  | [] => []
  | RunSleepFor q :: rest => q :: sleep_intervals rest
  | _ :: rest => sleep_intervals rest
  end.

(** The steps of the current cycle that are still to begin. *)
Definition remaining_steps (p : pc) : list step :=
  match p with
  | AtStep RegisterPreorders =>
      [RegisterPreorders; SetZonefiles; ReplicateUpdates; TransferNames;
       ReplicateNameImports; ClearConfirmed]
  | AtStep SetZonefiles =>
      [SetZonefiles; ReplicateUpdates; TransferNames; ReplicateNameImports;
       ClearConfirmed]
  | AtStep ReplicateUpdates =>
      [ReplicateUpdates; TransferNames; ReplicateNameImports; ClearConfirmed]
  | AtStep TransferNames => [TransferNames; ReplicateNameImports; ClearConfirmed]
  | AtStep ReplicateNameImports => [ReplicateNameImports; ClearConfirmed]
  | AtStep ClearConfirmed => [ClearConfirmed]
  | _ => []
  end.

(** How many moves a thread that has been told to stop needs, at most, to
    return from [run]. *)
Definition ticks_to_exit (p : pc) : nat :=
  match p with
  | Exited => 0
  | LoopHead | Preemption => 1
  | Startup | WalletGate | Sleeping _ _ => 2
  | Backoff => 3
  | AtStep s => 3 + List.length (remaining_steps (AtStep s))
  end.

Fixpoint count_ticks (acts : list action) : nat :=
  match acts with
  | [] => 0
  | Tick :: rest => S (count_ticks rest)
  | _ :: rest => count_ticks rest
  end.

(** The six [try] blocks of a cycle, one after the other. *)
Definition run_steps (E : Env) (w : Worker) : Worker :=
  run_step E ClearConfirmed
    (run_step E ReplicateNameImports
       (run_step E TransferNames
          (run_step E ReplicateUpdates
             (run_step E SetZonefiles
                (run_step E RegisterPreorders w))))).


(* ===================================================================== *)
(** ** RegistrarWorker.__init__: the required storage drivers *)
(* ===================================================================== *)

(** [config.get(key, None)] on the dict returned by [get_config]. *)
Fixpoint config_get (key : string) (conf : list (string * string)) : option string :=
  match conf with
  | [] => None
  | (k, v) :: rest => if String.eqb key k then Some v else config_get key rest
  end.

(** [s.split(sep)] for a separator of one character. *)
Fixpoint split_on (sep : ascii) (s : string) : list string :=
  match s with
  | EmptyString => [EmptyString]
  | String c r =>
      if Ascii.eqb c sep then EmptyString :: split_on sep r
      else match split_on sep r with
           | piece :: rest => String c piece :: rest
           | [] => [String c EmptyString]
           end
  end.

(** [self.required_storage_drivers] as [__init__] computes it. *)
Definition required_storage_drivers (conf : list (string * string)) : list string :=
  match config_get "storage_drivers_required_write" conf with
  | None =>
      split_on ","
        (match config_get "storage_drivers" conf with
         | Some drivers => drivers
         | None => ""
         end)
  | Some drivers => split_on "," drivers
  end.

(* ===================================================================== *)
(** ** Invariants of computations *)
(* ===================================================================== *)

(** The computation [c] keeps the property [P] of the world, whether it
    returns or raises. *)
Definition keeps {A : Type} (P : World -> Prop) (c : M A) : Prop :=
  forall w, P w -> P (snd (c w)).

(** The row an issuer queues for an operation on [name]. *)
Definition queued_row (E : Env) (c : category) (name : string)
           (zf zh tok xfer : option string) : entry :=
  mk_entry c name (txid_of E c name) zf zh tok xfer [].

(** The four categories [clear_confirmed] clears. *)
Definition is_terminal (c : category) : bool :=
  match c with
  | Transfer | Revoke | Renew | NameImport => true
  | _ => false
  end.

(** A row is confirmed: its transaction has enough confirmations. *)
Definition confirmed (E : Env) (e : entry) : bool := tx_accepted E (tx_hash e).

(** Rows of other names are as they were, the wallet is the same and the
    trace has only grown. *)
Definition other_names_untouched (names : list string) (w w' : World) : Prop :=
  wallet w' = wallet w /\
  (forall c name, ~ In name names ->
     in_queue c name (queue w') = in_queue c name (queue w)) /\
  (forall x, In x (queue w) -> ~ In (fqu x) names -> In x (queue w')) /\
  (forall ev, In ev (trace w) -> In ev (trace w')).

(** The issuer [call] has met a chain that refuses the broadcast of [c] for
    [name] with the error [e]: it hands the error back and leaves nothing
    behind but the broadcast in the trace. *)
Definition refused_by_chain (E : Env) (c : category) (name e : string)
           (with_message : bool) (call : M resp) (w : World) : Prop :=
  call w
  = (Ret (mk_resp (Some false) None (Some e) None
                  (if with_message
                   then Some "Couldn't broadcast transaction. You can try again."
                   else None)
                  None None None (b_tx (chain_broadcast E c name)) false false None),
     emit (EvBroadcast c name) w).

(** The issuer [call] has broadcast and queued [row]: it answers with the
    transaction hash the row is queued under, the queue has grown by that row
    and the trace by the broadcast, and the same call made again is
    refused. *)
Definition issued (E : Env) (row : entry) (call : M resp) (w : World) : Prop :=
  exists r,
    call w = (Ret r, set_queue (queue w ++ [row])
                               (emit (EvBroadcast (etype row) (fqu row)) w)) /\
    r_success r = Some true /\
    r_transaction_hash r = Some (tx_hash row) /\
    tx_hash row = b_txid (chain_broadcast E (etype row) (fqu row)) /\
    call (snd (call w)) = (Ret (failure_resp "Already in queue."), snd (call w)).

(** [get_wallet] gives the worker what its gate waits for: no 'error' and an
    owner address. *)
Definition wallet_ready (w : World) : bool :=
  match fst (get_wallet w) with
  | Ret wd => negb (owner_address_unset wd)
  | Raise _ => false
  end.

(** The three ways [register_preorders] is done with a preorder row: a
    register of the name is queued already, the name is registered on the
    chain already, or the register is broadcast now. *)
Definition register_done (E : Env) (w : World) (u : entry) : bool :=
  in_queue Register (fqu u) (queue w)
  || is_name_registered E (fqu u)
  || match b_error (chain_broadcast E Register (fqu u)) with
     | None => true
     | Some _ => false
     end.

(** The register row that follows the preorder row [u]. *)
Definition register_row_of (E : Env) (u : entry) : entry :=
  queued_row E Register (fqu u) (zonefile u) (zonefile_hash u) (token_file u)
             (transfer_address u).

(** What has become of the preorder row [u], processed in the world [w], in
    the world [w']. *)
Definition preorder_outcome (E : Env) (u : entry) (w w' : World) : Prop :=
  in_queue Preorder (fqu u) (queue w') = negb (register_done E w u) /\
  (register_done E w u = false -> In u (queue w')) /\
  (register_done E w u = true ->
   is_name_registered E (fqu u) = true \/
   in_queue Register (fqu u) (queue w') = true) /\
  (in_queue Register (fqu u) (queue w) = false ->
   is_name_registered E (fqu u) = false ->
   b_error (chain_broadcast E Register (fqu u)) = None ->
   In (register_row_of E u) (queue w') /\
   In (EvBroadcast Register (fqu u)) (trace w')).

(** Going from [w] to [w'] has lost no name between its registration and
    its update: every register row of [w] is still queued in [w'], or an
    update of its name is; and the names with an update queued in [w] have
    one queued in [w']. *)
Definition registers_followed (w w' : World) : Prop :=
  (forall r, In r (queue w) -> etype r = Register ->
     In r (queue w') \/ in_queue Update (fqu r) (queue w') = true) /\
  (forall name, in_queue Update name (queue w) = true ->
     in_queue Update name (queue w') = true).


(** The zone file hash [update] works with for the row [v]. *)
Definition row_zonefile_hash (E : Env) (v : entry) : string :=
  match zonefile_hash v, zonefile v with
  | Some h, _ => h
  | None, Some txt => get_zonefile_data_hash E txt
  | None, None => ""
  end.

(** The queue [q] holds a confirmed row with the key of [x]. *)
Definition key_confirmed (E : Env) (q : list entry) (x : entry) : bool :=
  existsb (fun y => same_key (etype x) (fqu x) y && confirmed E y) q.

(** What one round of [clear_confirmed] for the category [c] keeps. *)
Definition survives (E : Env) (c : category) (q : list entry) (x : entry) : bool :=
  negb (category_eqb (etype x) c && key_confirmed E q x).

(** What [clear_confirmed] takes out of the queue [q]: the rows of a
    category without a later stage whose key has a confirmed row, and the
    expired preorders. *)
Definition cleared (E : Env) (q : list entry) (x : entry) : bool :=
  (is_terminal (etype x) && key_confirmed E q x)
  || (category_eqb (etype x) Preorder && preorder_expired E x).

(** A chain on which the transactions of bob.id are the only confirmed ones
    and the preorder of carol.id has aged out. *)
Module Scenario.

Definition env : Env :=
  mk_env
    (is_name_registered Demo.env) (get_name_blockchain_record Demo.env)
    (is_zonefile_hash_current Demo.env) (get_atlas_peers Demo.env)
    (fun tx => String.eqb tx "tx-bob.id")
    (fun e => String.eqb (fqu e) "carol.id")
    (chain_broadcast Demo.env)
    (zonefile_data_replicate Demo.env) (token_file_put Demo.env)
    (get_zonefile_data_hash Demo.env) (sha256_hexdigest Demo.env)
    (is_user_zonefile Demo.env)
    (is_singlesig Demo.env) (is_multisig Demo.env) (is_singlesig_hex Demo.env)
    (pubkey_hex_of_privkey Demo.env) (get_pubkey_format Demo.env)
    (decompress Demo.env)
    (get_signing_privkey Demo.env) (BLOCKSTACK_TEST Demo.env)
    (conf_server Demo.env) (conf_port Demo.env) (random Demo.env)
    (url_to_host_port Demo.env).

Definition row (c : category) (name : string) : entry :=
  mk_entry c name ("tx-" ++ name)%string None None None None [].

Definition mixed_queue : list entry :=
  [row Transfer "alice.id"; row Transfer "bob.id"; row Renew "bob.id";
   row Update "bob.id"; row Preorder "carol.id"; row Preorder "dave.id"].

End Scenario.


(** The wallet data the worker's gate looks at. *)
Definition gate_wallet (w : Worker) : wallet_data :=
  match cur_wallet_data w with
  | Some wd => wd
  | None => no_wallet_data
  end.

(** One round of the wait at the gate, as an observer sees it. *)
Definition gate_round : list run_event := [RunFlagRead true; RunSleep1].


(** The six steps of a cycle, in the order of [run]. *)
Definition all_steps : list step :=
  [RegisterPreorders; SetZonefiles; ReplicateUpdates; TransferNames;
   ReplicateNameImports; ClearConfirmed].

(** One second of the sleep between two cycles, as an observer sees it. *)
Definition nap : list run_event := [RunSleep1; RunFlagRead true].


(** From [w] to [w'] the queue and the wallet have not changed, and what was
    remembered as replicated and what was in the trace still is. *)
Definition replication_frame (w w' : World) : Prop :=
  queue w' = queue w /\ wallet w' = wallet w /\
  incl (replicated_zonefiles w) (replicated_zonefiles w') /\
  incl (replicated_token_file_hashes w) (replicated_token_file_hashes w') /\
  incl (trace w) (trace w').


(** ['{}:{}'.format(conf['server'], conf['port'])] *)
Definition server_hostport (E : Env) : string :=
  (conf_server E ++ ":" ++ conf_port E)%string.

(** The reply of [get_atlas_peers] is a peer list. *)
Definition peers_ok (r : peers_reply) : bool :=
  match r with PeersOk _ => true | _ => false end.


(** The chain of [Demo.env], with an Atlas node that cannot be reached. *)
Module Offline.

Definition env : Env :=
  mk_env
    (is_name_registered Demo.env) (get_name_blockchain_record Demo.env)
    (is_zonefile_hash_current Demo.env) (fun _ => PeersSocketError)
    (tx_accepted Demo.env) (preorder_expired Demo.env)
    (chain_broadcast Demo.env)
    (zonefile_data_replicate Demo.env) (token_file_put Demo.env)
    (get_zonefile_data_hash Demo.env) (sha256_hexdigest Demo.env)
    (is_user_zonefile Demo.env)
    (is_singlesig Demo.env) (is_multisig Demo.env) (is_singlesig_hex Demo.env)
    (pubkey_hex_of_privkey Demo.env) (get_pubkey_format Demo.env)
    (decompress Demo.env)
    (get_signing_privkey Demo.env) (BLOCKSTACK_TEST Demo.env)
    (conf_server Demo.env) (conf_port Demo.env) (random Demo.env)
    (url_to_host_port Demo.env).

End Offline.

(** The node every server list gets outside of tests. *)
Definition default_atlas_node : string := "node.blockstack.org:6264".


(** The name an outside effect is about; the question for the Atlas peers is
    about none. *)
Definition event_name (ev : event) : option string :=
  match ev with
  | EvIsNameRegistered n | EvGetNameRecord n | EvIsZonefileHashCurrent n _
  | EvBroadcast _ n | EvAtlasPush n _ | EvTokenFilePut n _ => Some n
  | EvGetAtlasPeers _ => None
  end.

(** Every effect in the trace of [w'] was in the trace of [w0] already, or
    is about one of [names] (or about no name). *)
Definition acts_only_on (names : list string) (w0 w' : World) : Prop :=
  forall ev, In ev (trace w') ->
    In ev (trace w0) \/
    match event_name ev with Some n => In n names | None => True end.

(** The names of [rows] that are not in [skip]. *)
Definition names_not_skipped (skip : list string) (rows : list entry) : list string :=
  map fqu (filter (fun u => negb (mem_string (fqu u) skip)) rows).

(** The four refusals of [set_wallet]. *)
Definition set_wallet_errors : list string :=
  ["Missing wallet information"; "Invalid payment key info";
   "Invalid owner key info"; "Invalid data key info"].


(** The character [c] occurs in [s]. *)
Fixpoint mentions (c : ascii) (s : string) : bool :=
  match s with
  | EmptyString => false
  | String c' r => Ascii.eqb c' c || mentions c r
  end.

(** The string of drivers [__init__] splits: 'storage_drivers_required_write'
    when the configuration has it, else 'storage_drivers', else the empty
    string. *)
Definition configured_drivers (conf : list (string * string)) : string :=
  match config_get "storage_drivers_required_write" conf with
  | Some drivers => drivers
  | None =>
      match config_get "storage_drivers" conf with
      | Some drivers => drivers
      | None => ""
      end
  end.


(** The chain of [Demo.env] outside of a test run ([BLOCKSTACK_TEST] unset),
    with an Atlas node that names a peer twice and itself once. *)
Module Peers.

Definition env : Env :=
  mk_env
    (is_name_registered Demo.env) (get_name_blockchain_record Demo.env)
    (is_zonefile_hash_current Demo.env)
    (fun _ => PeersOk ["peer.example:6270"; "localhost:6264"; "peer.example:6270"])
    (tx_accepted Demo.env) (preorder_expired Demo.env)
    (chain_broadcast Demo.env)
    (zonefile_data_replicate Demo.env) (token_file_put Demo.env)
    (get_zonefile_data_hash Demo.env) (sha256_hexdigest Demo.env)
    (is_user_zonefile Demo.env)
    (is_singlesig Demo.env) (is_multisig Demo.env) (is_singlesig_hex Demo.env)
    (pubkey_hex_of_privkey Demo.env) (get_pubkey_format Demo.env)
    (decompress Demo.env)
    (get_signing_privkey Demo.env) false
    (conf_server Demo.env) (conf_port Demo.env) (random Demo.env)
    (url_to_host_port Demo.env).

End Peers.


(* ===================================================================== *)
(** ** Other threads between the worker's reads of the queue *)
(* ===================================================================== *)

(** The issuers run on the threads of their callers.  A call of another
    thread that runs to its end while the worker is between two operations of
    its own: the worker goes on in the world the call leaves; the call's
    answer, or its exception, stays with the caller. *)
Definition meanwhile {A : Type} (other : M A) : M unit :=
  fun w => (Ret tt, snd (other w)).

(** [register_preordered_name], with the calls [o1] and [o2] of other threads
    running before its first and before its second reading of the queue. *)
Definition register_preordered_name_racing (E : Env) (o1 o2 : M resp)
           (name_data : entry) : M resp :=
  modify (emit (EvIsNameRegistered (fqu name_data))) ;;;
  if negb (is_name_registered E (fqu name_data)) then
    meanwhile o1 ;;;
    q <- gets queue ;;
    if in_queue Preorder (fqu name_data) q then
      meanwhile o2 ;;;
      q' <- gets queue ;;
      if negb (in_queue Register (fqu name_data) q') then
        async_register E name_data
      else raise (NameError "queuedb_find")
    else
      ret (mk_resp None None
             (Some ("Name " ++ dquote ++ fqu name_data ++ dquote ++ " is not preorded")%string)
             None None None None None None false true None)
  else
    ret (mk_resp None None
           (Some ("Name " ++ dquote ++ fqu name_data ++ dquote ++ " is already registered")%string)
           None None None None None None true false None).

(** The body of the loop of [register_preorders], with the call
    [others row 0] of another thread running between the test of the loop
    (line 352) and the call of [register_preordered_name], and the calls
    [others row 1] and [others row 2] inside that call. *)
Definition register_preorders_body_racing (E : Env) (others : entry -> nat -> M resp)
           (acc : resp) (preorder_row : entry) : M resp :=
  q <- gets queue ;;
  if in_queue Register (fqu preorder_row) q then
    remove_rows [preorder_row] ;;; ret acc
  else
    meanwhile (others preorder_row 0) ;;;
    res <- register_preordered_name_racing E (others preorder_row 1)
                                           (others preorder_row 2) preorder_row ;;
    if has_error res then
      if r_already_registered res then remove_rows [preorder_row] ;;; ret acc
      else ret (error_resp "Failed to preorder a name")
    else remove_rows [preorder_row] ;;; ret acc.

Definition register_preorders_racing (E : Env) (others : entry -> nat -> M resp)
           (wd : wallet_data) : M resp :=
  q <- gets queue ;;
  for_each (get_confirmed_preorders E q) (register_preorders_body_racing E others)
           status_ok.

(** The body of the loop of [set_zonefiles], with the call [others row 0] of
    another thread running between the test of the loop (line 274) and the
    call of [set_zonefile], whose own test is at line 229. *)
Definition set_zonefiles_body_racing (E : Env) (others : entry -> nat -> M resp)
           (acc : resp) (register : entry) : M resp :=
  q <- gets queue ;;
  if in_queue Update (fqu register) q then
    remove_rows [register] ;;; ret acc
  else
    meanwhile (others register 0) ;;;
    res <- set_zonefile E register ;;
    if has_error res then ret (error_resp "Failed to set up name token file")
    else remove_rows [register] ;;; ret acc.

Definition set_zonefiles_racing (E : Env) (others : entry -> nat -> M resp) : M resp :=
  q <- gets queue ;;
  for_each (get_confirmed_registers E q) (set_zonefiles_body_racing E others)
           status_ok.

(** No other thread does anything. *)
Definition nobody (row : entry) (k : nat) : M resp := ret status_ok.



(* ===================================================================== *)
(** * Properties *)
(* ===================================================================== *)

(** ** Basic facts *)

Lemma category_eqb_spec a b : reflect (a = b) (category_eqb a b).
Proof. destruct a, b; simpl; constructor; congruence. Qed.

Lemma category_eqb_refl a : category_eqb a a = true.
Proof. destruct a; reflexivity. Qed.

Lemma mem_string_In x l : mem_string x l = true <-> In x l.
Proof.
  unfold mem_string. rewrite existsb_exists. split.
  - intros [y [Hy He]]. apply String.eqb_eq in He. now subst.
  - intros H. exists x. split; [assumption | apply String.eqb_refl].
Qed.

Lemma mem_string_not_In x l : mem_string x l = false <-> ~ In x l.
Proof.
  rewrite <- mem_string_In. destruct (mem_string x l); split; congruence.
Qed.

Lemma same_key_iff c name e :
  same_key c name e = true <-> etype e = c /\ fqu e = name.
Proof.
  unfold same_key. rewrite andb_true_iff, String.eqb_eq.
  destruct (category_eqb_spec (etype e) c); intuition congruence.
Qed.

Lemma in_queue_iff c name q :
  in_queue c name q = true <-> exists e, In e q /\ etype e = c /\ fqu e = name.
Proof.
  unfold in_queue. rewrite existsb_exists.
  split; intros [e [Hin Hk]]; exists e; split; auto; now apply same_key_iff.
Qed.

Lemma in_queue_app c name q1 q2 :
  in_queue c name (q1 ++ q2) = in_queue c name q1 || in_queue c name q2.
Proof. unfold in_queue. apply existsb_app. Qed.

(** Unfolding the plumbing of a computation. *)
Ltac run_m :=
  unfold bind, ret, raise, gets, modify, remove_rows,
    get_wallet_payment_privkey_info, get_wallet_owner_privkey_info,
    get_wallet_data_privkey_info in *; simpl in *.

(* ===================================================================== *)
(** ** The replicator and an absent zone file *)
(* ===================================================================== *)

(** C6, as the code has it.  The test is [zonefile_data is None].  An entry
    whose zone file data is absent ([name_data['zonefile']] is [None]) is a
    pure-deletion update: [replicate_name_data] answers [{'status': True}]
    and leaves the world as it was, trace included, so that it has not
    consulted the blockchain, pushed to a peer, or put a token file.  An
    entry whose zone file data is present, be it of length zero, is
    replicated like any other: unless its hash is remembered as replicated
    already, the first thing that happens is the look-up of the name on the
    chain. *)
Theorem replicate_name_data_without_zonefile :
  forall (E : Env) (name_data : entry) (wd : wallet_data) (w : World),
    (zonefile name_data = None ->
     replicate_name_data E name_data wd w = (Ret status_ok, w)) /\
    (forall z,
       zonefile name_data = Some z ->
       mem_string (entry_zonefile_hash E name_data z) (replicated_zonefiles w)
       = false ->
       exists later,
         trace (snd (replicate_name_data E name_data wd w))
         = trace w ++ EvGetNameRecord (fqu name_data) :: later).
Proof.
  intros E name_data wd w. split.
  - intros Hz. unfold replicate_name_data. rewrite Hz. reflexivity.
  - intros z Hz Hmem. unfold replicate_name_data. rewrite Hz.
    unfold replicate_zonefile, replicate_token_file. run_m. rewrite Hmem. simpl.
    destruct (get_name_blockchain_record E (fqu name_data)) as [e | a vh];
      [exists []; reflexivity |].
    destruct (String.eqb (py_str vh) (entry_zonefile_hash E name_data z)); simpl;
      [| exists []; reflexivity].
    destruct (zonefile_data_replicate E (fqu name_data) z); simpl;
      [eexists; rewrite <- app_assoc; reflexivity |].
    destruct (token_file name_data) as [token |]; simpl;
      [| eexists; rewrite <- app_assoc; reflexivity].
    destruct (is_user_zonefile E z); simpl;
      [| eexists; rewrite <- app_assoc; reflexivity].
    destruct (get_signing_privkey E (wd_owner_privkey wd)); simpl;
      [| eexists; rewrite <- app_assoc; reflexivity].
    destruct (mem_string _ (replicated_token_file_hashes w)); simpl;
      [eexists; rewrite <- app_assoc; reflexivity |].
    destruct (token_file_put E (fqu name_data) token); simpl;
      eexists; rewrite <- !app_assoc; reflexivity.
Qed.

(** C6 as stated does not hold for a zone file that is present and empty.
    The row of carol.id carries a zone file of length zero; the chain record
    of carol.id has another hash.  [replicate_name_data] looks the name up on
    the chain and answers with an error, not with success. *)
Lemma replicate_name_data_empty_zonefile_counterexample :
  let row := mk_entry Update "carol.id" "tx-carol.id" (Some "") None None None [] in
  zonefile row = Some EmptyString /\
  fst (replicate_name_data Demo.env row Demo.wd Demo.empty_world)
  = Ret (error_resp "Zonefile hash not yet replicated") /\
  trace (snd (replicate_name_data Demo.env row Demo.wd Demo.empty_world))
  = [EvGetNameRecord "carol.id"].
Proof. repeat split. Qed.

Lemma replicate_name_data_without_zonefile_witness :
  zonefile (Demo.deletion_row "carol.id") = None /\
  replicate_name_data Demo.env (Demo.deletion_row "carol.id") Demo.wd
                      Demo.empty_world
  = (Ret status_ok, Demo.empty_world) /\
  exists later,
    trace (snd (replicate_name_data Demo.env (Demo.update_row "alice.id" None)
                                    Demo.wd Demo.empty_world))
    = trace Demo.empty_world ++ EvGetNameRecord "alice.id" :: later.
Proof.
  split; [reflexivity |]. split.
  - apply (proj1 (replicate_name_data_without_zonefile Demo.env
                    (Demo.deletion_row "carol.id") Demo.wd Demo.empty_world)).
    reflexivity.
  - apply (proj2 (replicate_name_data_without_zonefile Demo.env
                    (Demo.update_row "alice.id" None) Demo.wd Demo.empty_world)
                 "Z"%string); reflexivity.
Defined.

(* ===================================================================== *)
(** ** The issuers *)
(* ===================================================================== *)

(** A broadcast whose answer has no 'error' has appended its row. *)
Lemma async_op_ok (E : Env) (row : entry) (w : World) (r : resp) (w1 : World) :
  async_op E row w = (Ret r, w1) ->
  r_error r = None ->
  in_queue (etype row) (fqu row) (queue w1) = true /\ wallet w1 = wallet w.
Proof.
  unfold async_op. intros H Hr.
  destruct (b_error (chain_broadcast E (etype row) (fqu row))) as [e|].
  - inversion H; subst. discriminate.
  - simpl in H. unfold queue_append in H.
    destruct (in_queue (etype row) (fqu row) (queue w)).
    + inversion H; subst. discriminate.
    + inversion H; subst. simpl. split; [| reflexivity].
      rewrite in_queue_app. simpl. unfold same_key.
      rewrite category_eqb_refl, String.eqb_refl. simpl. apply orb_true_r.
Qed.


Lemma issuer_reply_success msg b1 b2 r :
  r_success (issuer_reply msg b1 b2 r) = Some true -> r_error r = None.
Proof.
  unfold issuer_reply. destruct (r_error r); simpl; congruence.
Qed.

(** With the wallet unlocked and a preorder row for the name in the queue,
    [preorder] answers "Already in queue." and touches nothing. *)
Lemma preorder_already_in_queue (E : Env) name zf tok xfer (w : World) :
  wallet_locked (wallet w) = false ->
  in_queue Preorder name (queue w) = true ->
  preorder E name zf tok xfer w = (Ret (failure_resp "Already in queue."), w).
Proof.
  intros Hw Hq. unfold preorder. run_m. rewrite Hw, Hq. reflexivity.
Qed.

(** A successful [preorder] was made with the wallet unlocked and has left a
    preorder row for the name. *)
Lemma preorder_success (E : Env) name zf tok xfer (w w1 : World) (r : resp) :
  preorder E name zf tok xfer w = (Ret r, w1) ->
  r_success r = Some true ->
  wallet_locked (wallet w1) = false /\ in_queue Preorder name (queue w1) = true.
Proof.
  unfold preorder. run_m. intros H Hs.
  destruct (wallet_locked (wallet w)) eqn:Hw.
  - inversion H; subst. discriminate.
  - destruct (in_queue Preorder name (queue w)) eqn:Hq.
    + inversion H; subst. discriminate.
    + unfold async_preorder in H.
      destruct (async_op E _ w) as [[r0|e] w0] eqn:Ha.
      * inversion H; subst.
        apply issuer_reply_success in Hs.
        destruct (async_op_ok E _ w r0 w1 Ha Hs) as [Hin Hwal].
        simpl in Hin. rewrite Hwal. auto.
      * discriminate.
Qed.

(** C7.  Once [preorder] has succeeded for a name, a second call for that
    name, made in any later world that has the same wallet and still holds a
    preorder row for the name, answers
    [{'success': False, 'error': 'Already in queue.'}] and leaves the world
    as it found it: the trace gets no second broadcast and the queue no
    second row. *)
Theorem preorder_twice_already_in_queue :
  forall (E : Env) (name : string) (zf1 tok1 xfer1 zf2 tok2 xfer2 : option string)
         (w w1 w2 : World) (r1 : resp),
    preorder E name zf1 tok1 xfer1 w = (Ret r1, w1) ->
    r_success r1 = Some true ->
    wallet w2 = wallet w1 ->
    in_queue Preorder name (queue w2) = true ->
    preorder E name zf2 tok2 xfer2 w2
    = (Ret (failure_resp "Already in queue."), w2).
Proof.
  intros E name zf1 tok1 xfer1 zf2 tok2 xfer2 w w1 w2 r1 H1 Hs Hwal Hq.
  destruct (preorder_success E name zf1 tok1 xfer1 w w1 r1 H1 Hs) as [Hw _].
  apply preorder_already_in_queue; [rewrite Hwal; exact Hw | exact Hq].
Qed.

(** The scenario of the specification: bob.id is preordered twice in a row.
    The first call broadcasts and queues, the second is rejected in the world
    the first one left. *)
Lemma preorder_twice_already_in_queue_witness :
  let first := preorder Demo.env "bob.id" (Some "Z") None None Demo.empty_world in
  r_success (match fst first with Ret r => r | Raise _ => empty_resp end) = Some true /\
  trace (snd first) = [EvBroadcast Preorder "bob.id"] /\
  preorder Demo.env "bob.id" (Some "Z") None None (snd first)
  = (Ret (failure_resp "Already in queue."), snd first).
Proof.
  split; [reflexivity |]. split; [reflexivity |].
  eapply (preorder_twice_already_in_queue Demo.env "bob.id"
            (Some "Z") None None (Some "Z") None None Demo.empty_world).
  - reflexivity.
  - reflexivity.
  - reflexivity.
  - reflexivity.
Defined.

(** The hash [update] works with: the one passed in, or the hash of the zone
    file text. *)
Lemma update_unlocked_unqueued (E : Env) name txt tok h xfer (w : World) hash :
  (txt <> None \/ h <> None) ->
  hash = match h, txt with
         | Some h', _ => h'
         | None, Some t => get_zonefile_data_hash E t
         | None, None => ""
         end ->
  wallet_locked (wallet w) = false ->
  in_queue Update name (queue w) = false ->
  update E name txt tok h xfer w
  = if negb (is_zonefile_hash_current E name hash)
    then bind (async_update E name txt tok hash xfer)
              (fun r => ret (issuer_reply update_message true true r))
              (emit (EvIsZonefileHashCurrent name hash) w)
    else (Ret unchanged_resp, emit (EvIsZonefileHashCurrent name hash) w).
Proof.
  intros Hsome -> Hw Hq. unfold update.
  destruct txt as [t|], h as [h'|]; try (destruct Hsome; congruence);
    run_m; rewrite Hw, Hq;
    destruct (is_zonefile_hash_current E name _); reflexivity.
Qed.

(** C8.  When the chain reports the new zone file hash as current
    ([is_zonefile_hash_current] is true), [update] neither broadcasts nor
    queues: the queue is unchanged and the trace grows by nothing but the
    look-up.  If the call gets as far as that look-up, that is if a zone file
    or a hash was given, the wallet is unlocked and the name has no update
    row, the answer is [{'success': True, 'warning': "The zonefile has not
    changed, so no update sent."}]. *)
Theorem update_with_current_hash :
  forall (E : Env) (name : string) (txt tok h xfer : option string) (w : World),
    let hash := match h, txt with
                | Some h', _ => h'
                | None, Some t => get_zonefile_data_hash E t
                | None, None => ""
                end in
    is_zonefile_hash_current E name hash = true ->
    (queue (snd (update E name txt tok h xfer w)) = queue w /\
     forall op n, In (EvBroadcast op n) (trace (snd (update E name txt tok h xfer w))) ->
                  In (EvBroadcast op n) (trace w)) /\
    ((txt <> None \/ h <> None) ->
     wallet_locked (wallet w) = false ->
     in_queue Update name (queue w) = false ->
     update E name txt tok h xfer w
     = (Ret unchanged_resp, emit (EvIsZonefileHashCurrent name hash) w)).
Proof.
  intros E name txt tok h xfer w hash Hcur.
  assert (Hgo : (txt <> None \/ h <> None) ->
                wallet_locked (wallet w) = false ->
                in_queue Update name (queue w) = false ->
                update E name txt tok h xfer w
                = (Ret unchanged_resp, emit (EvIsZonefileHashCurrent name hash) w)).
  { intros Hsome Hw Hq.
    rewrite (update_unlocked_unqueued E name txt tok h xfer w hash Hsome eq_refl Hw Hq).
    rewrite Hcur. reflexivity. }
  split; [| exact Hgo].
  destruct txt as [t|] eqn:Ht, h as [h'|] eqn:Hh.
  1-3: destruct (wallet_locked (wallet w)) eqn:Hw;
       [ unfold update; run_m; rewrite Hw; simpl; split; auto
       | destruct (in_queue Update name (queue w)) eqn:Hq;
         [ unfold update; run_m; rewrite Hw, Hq; simpl; split; auto
         | rewrite Hgo; auto; [| left + right; congruence];
           simpl; split; [reflexivity |];
           intros op n Hin; apply in_app_or in Hin;
           destruct Hin as [Hin | [Hin | []]]; [exact Hin | discriminate] ] ].
  unfold update, raise. simpl. split; auto.
Qed.

Lemma update_with_current_hash_witness :
  is_zonefile_hash_current Demo.current_env "carol.id" "hash(Z)" = true /\
  update Demo.current_env "carol.id" (Some "Z") None None None Demo.empty_world
  = (Ret unchanged_resp,
     emit (EvIsZonefileHashCurrent "carol.id" "hash(Z)") Demo.empty_world).
Proof.
  split; [reflexivity |].
  apply (update_with_current_hash Demo.current_env "carol.id" (Some "Z") None None
           None Demo.empty_world).
  - reflexivity.
  - left. discriminate.
  - reflexivity.
  - reflexivity.
Defined.

(* ===================================================================== *)
(** ** The wallet cache *)
(* ===================================================================== *)

Section WalletRoundTrip.

Variable E : Env.

(** What keylib promises: the hex form of the public key of a data private
    key is either uncompressed ('hex') or compressed ('hex_compressed'), and
    decompressing a compressed key gives an uncompressed one. *)
Hypothesis to_hex_format :
  forall k, is_singlesig_hex E k = true ->
    get_pubkey_format E (pubkey_hex_of_privkey E k) = "hex" \/
    get_pubkey_format E (pubkey_hex_of_privkey E k) = "hex_compressed".

Hypothesis decompress_format :
  forall pub, get_pubkey_format E pub = "hex_compressed" ->
    get_pubkey_format E (decompress E pub) = "hex".

(** What [set_wallet] stores when it accepts its arguments. *)
Lemma set_wallet_accepts payment owner data (w w' : World) (r : resp) :
  set_wallet E payment owner data w = (Ret r, w') ->
  r_success r = Some true ->
  exists pk ok dk,
    snd payment = Some pk /\ snd owner = Some ok /\ snd data = Some dk /\
    is_singlesig_hex E dk = true /\
    w' = set_wallet_state
           (mk_state (fst payment) (fst owner) (Some pk) (Some ok) (Some dk)
              (Some (if String.eqb (get_pubkey_format E (pubkey_hex_of_privkey E dk))
                                   "hex_compressed"
                     then decompress E (pubkey_hex_of_privkey E dk)
                     else pubkey_hex_of_privkey E dk))) w.
Proof.
  unfold set_wallet. intros H Hs.
  destruct (negb _) eqn:Hmissing in H.
  { inversion H; subst. discriminate. }
  destruct (snd payment) as [pk|], (snd owner) as [ok|], (snd data) as [dk|];
    try (inversion H; subst; discriminate).
  destruct (negb (is_singlesig E pk) && negb (is_multisig E pk)).
  { inversion H; subst. discriminate. }
  destruct (negb (is_singlesig E ok) && negb (is_multisig E ok)).
  { inversion H; subst. discriminate. }
  destruct (is_singlesig_hex E dk) eqn:Hdk; simpl in H.
  - inversion H; subst. exists pk, ok, dk. auto.
  - inversion H; subst. discriminate.
Qed.

(** C9.  When [set_wallet] accepts its three keypairs, the [get_wallet] that
    follows returns the payment and owner addresses that were passed in and
    the three private keys, without 'error'; its data public key is the one
    derived from the data private key, decompressed when the derivation gave
    the compressed form, and is in uncompressed hex form. *)
Theorem set_wallet_get_wallet_round_trip :
  forall (payment owner data : option string * option keyinfo)
         (w w' : World) (r : resp),
    set_wallet E payment owner data w = (Ret r, w') ->
    r_success r = Some true ->
    exists (wd : wallet_data) (dk : keyinfo) (pub : string),
      get_wallet w' = (Ret wd, w') /\
      wd_payment_address wd = fst payment /\
      wd_owner_address wd = fst owner /\
      wd_payment_privkey wd = snd payment /\
      wd_owner_privkey wd = snd owner /\
      wd_data_privkey wd = snd data /\
      wd_error wd = None /\
      snd data = Some dk /\
      wd_data_pubkey wd = Some pub /\
      get_pubkey_format E pub = "hex" /\
      (pub = pubkey_hex_of_privkey E dk \/
       (get_pubkey_format E (pubkey_hex_of_privkey E dk) = "hex_compressed" /\
        pub = decompress E (pubkey_hex_of_privkey E dk))).
Proof.
  intros payment owner data w w' r H Hs.
  destruct (set_wallet_accepts payment owner data w w' r H Hs)
    as (pk & ok & dk & Hp & Ho & Hd & Hhex & ->).
  destruct (String.eqb (get_pubkey_format E (pubkey_hex_of_privkey E dk))
                       "hex_compressed") eqn:Hfmt.
  - apply String.eqb_eq in Hfmt.
    exists (mk_wallet_data (fst payment) (fst owner)
              (Some (decompress E (pubkey_hex_of_privkey E dk)))
              (Some pk) (Some ok) (Some dk) None),
           dk, (decompress E (pubkey_hex_of_privkey E dk)).
    rewrite Hp, Ho, Hd. simpl.
    repeat split; auto.
  - apply String.eqb_neq in Hfmt.
    exists (mk_wallet_data (fst payment) (fst owner)
              (Some (pubkey_hex_of_privkey E dk))
              (Some pk) (Some ok) (Some dk) None),
           dk, (pubkey_hex_of_privkey E dk).
    rewrite Hp, Ho, Hd. simpl.
    repeat split; auto.
    destruct (to_hex_format dk Hhex) as [Hu | Hc]; [exact Hu | contradiction].
Qed.

End WalletRoundTrip.

Lemma demo_to_hex_format :
  forall k, is_singlesig_hex Demo.env k = true ->
    get_pubkey_format Demo.env (pubkey_hex_of_privkey Demo.env k) = "hex" \/
    get_pubkey_format Demo.env (pubkey_hex_of_privkey Demo.env k) = "hex_compressed".
Proof.
  intros [s | m pubs privs] H; simpl in *; [| discriminate].
  right. reflexivity.
Qed.

Lemma demo_decompress_format :
  forall pub, get_pubkey_format Demo.env pub = "hex_compressed" ->
    get_pubkey_format Demo.env (decompress Demo.env pub) = "hex".
Proof. intros pub _. simpl. destruct pub; reflexivity. Qed.

(** A locked wallet receives single-signature keys; the data key derives the
    compressed public key "02cc", and the wallet hands out "0402cc". *)
Lemma set_wallet_get_wallet_round_trip_witness :
  let call := set_wallet Demo.env
                (Some "payment-address", Some (Singlesig "aa"))
                (Some "owner-address", Some (Singlesig "bb"))
                (Some "ignored", Some (Singlesig "cc")) Demo.locked_world in
  exists wd dk pub,
    get_wallet (snd call) = (Ret wd, snd call) /\
    wd_payment_address wd = Some "payment-address" /\
    wd_owner_address wd = Some "owner-address" /\
    wd_payment_privkey wd = Some (Singlesig "aa") /\
    wd_owner_privkey wd = Some (Singlesig "bb") /\
    wd_data_privkey wd = Some (Singlesig "cc") /\
    wd_error wd = None /\
    Some (Singlesig "cc") = Some dk /\
    wd_data_pubkey wd = Some pub /\
    get_pubkey_format Demo.env pub = "hex" /\
    (pub = pubkey_hex_of_privkey Demo.env dk \/
     (get_pubkey_format Demo.env (pubkey_hex_of_privkey Demo.env dk) = "hex_compressed" /\
      pub = decompress Demo.env (pubkey_hex_of_privkey Demo.env dk))).
Proof.
  intro call.
  apply (set_wallet_get_wallet_round_trip Demo.env demo_to_hex_format
           demo_decompress_format
           (Some "payment-address", Some (Singlesig "aa"))
           (Some "owner-address", Some (Singlesig "bb"))
           (Some "ignored", Some (Singlesig "cc"))
           Demo.locked_world (snd call)
           (mk_resp (Some true) None None None None None None None None
                    false false None)).
  - reflexivity.
  - reflexivity.
Defined.

(* ===================================================================== *)
(** ** The replicator and the zone file hash on the chain *)
(* ===================================================================== *)

(** The token file half of [replicate_name_data] pushes nothing to atlas
    peers. *)
Lemma replicate_token_file_no_push (E : Env) nd z zh wd (w : World) n d :
  In (EvAtlasPush n d) (trace (snd (replicate_token_file E nd z zh wd w))) ->
  In (EvAtlasPush n d) (trace w).
Proof.
  unfold replicate_token_file.
  destruct (token_file nd) as [tok|]; [| simpl; auto].
  destruct (is_user_zonefile E z); simpl; [| auto].
  destruct (get_signing_privkey E (wd_owner_privkey wd)); [| simpl; auto].
  run_m.
  destruct (mem_string _ (replicated_token_file_hashes w)); simpl; [auto |].
  destruct (token_file_put E (fqu nd) tok); simpl; intros H;
    apply in_app_or in H; destruct H as [H | [H | []]]; auto; discriminate.
Qed.

(** With a hash that [replicated_zonefiles] already holds, the zone file half
    does nothing: it does not look at the chain. *)
Lemma replicate_zonefile_remembered (E : Env) nd z zh (w : World) :
  mem_string zh (replicated_zonefiles w) = true ->
  replicate_zonefile E nd z zh w = (Ret None, w).
Proof.
  intros H. unfold replicate_zonefile. run_m. rewrite H. reflexivity.
Qed.

(** C3, as the code has it.  Take an entry with zone file data, and a chain
    record for its name whose 'value_hash' differs from the entry's zone file
    hash.  Then [replicate_name_data] pushes no zone file to atlas peers.  If
    moreover the hash is not yet in [replicated_zonefiles], it puts no token
    file either: it looks the name up, answers
    [{'error': 'Zonefile hash not yet replicated'}] and does nothing else.
    (When the hash is already in [replicated_zonefiles], the chain is not
    consulted and the token file half runs.) *)
Theorem replicate_name_data_waits_for_hash :
  forall (E : Env) (name_data : entry) (wd : wallet_data) (w : World)
         (zonefile_data address : string) (value_hash : option string),
    zonefile name_data = Some zonefile_data ->
    get_name_blockchain_record E (fqu name_data) = NameRec address value_hash ->
    py_str value_hash <> entry_zonefile_hash E name_data zonefile_data ->
    (forall n d,
        In (EvAtlasPush n d) (trace (snd (replicate_name_data E name_data wd w))) ->
        In (EvAtlasPush n d) (trace w)) /\
    (mem_string (entry_zonefile_hash E name_data zonefile_data)
                (replicated_zonefiles w) = false ->
     replicate_name_data E name_data wd w
     = (Ret (error_resp "Zonefile hash not yet replicated"),
        emit (EvGetNameRecord (fqu name_data)) w)).
Proof.
  intros E nd wd w z a vh Hz Hrec Hneq.
  apply String.eqb_neq in Hneq.
  assert (Hfresh : mem_string (entry_zonefile_hash E nd z) (replicated_zonefiles w) = false ->
                   replicate_name_data E nd wd w
                   = (Ret (error_resp "Zonefile hash not yet replicated"),
                      emit (EvGetNameRecord (fqu nd)) w)).
  { intros Hmem. unfold replicate_name_data. rewrite Hz.
    unfold replicate_zonefile. run_m. rewrite Hmem, Hrec, Hneq. reflexivity. }
  split; [| exact Hfresh].
  intros n d.
  destruct (mem_string (entry_zonefile_hash E nd z) (replicated_zonefiles w)) eqn:Hmem.
  - unfold replicate_name_data. rewrite Hz. unfold bind.
    rewrite (replicate_zonefile_remembered E nd z _ w Hmem).
    apply replicate_token_file_no_push.
  - rewrite (Hfresh eq_refl). simpl. intros H.
    apply in_app_or in H. destruct H as [H | [H | []]]; [exact H | discriminate].
Qed.

Lemma replicate_name_data_waits_for_hash_witness :
  let bob := Demo.update_row "bob.id" None in
  zonefile bob = Some "Z" /\
  get_name_blockchain_record Demo.env (fqu bob)
  = NameRec "owner-of-others" (Some "older-hash") /\
  replicate_name_data Demo.env bob Demo.wd Demo.empty_world
  = (Ret (error_resp "Zonefile hash not yet replicated"),
     emit (EvGetNameRecord "bob.id") Demo.empty_world).
Proof.
  intro bob. split; [reflexivity |]. split; [reflexivity |].
  apply (replicate_name_data_waits_for_hash Demo.env bob Demo.wd Demo.empty_world
           "Z" "owner-of-others" (Some "older-hash")).
  - reflexivity.
  - reflexivity.
  - simpl. discriminate.
  - reflexivity.
Defined.

(** C3 as stated does not hold across the dedupe list.  The zone file "Z" of
    alice.id is replicated once its hash is on the chain, which records the
    hash in [replicated_zonefiles].  The update of bob.id carries the same
    zone file; the chain record of bob.id still has an older hash.
    [replicate_name_data] does not consult the chain for bob.id, puts bob's
    token file to the storage drivers and answers [{'status': True}]. *)
Lemma replicate_name_data_dedupe_counterexample :
  let alice := Demo.update_row "alice.id" None in
  let bob := Demo.update_row "bob.id" None in
  let w1 := snd (replicate_name_data Demo.env alice Demo.wd Demo.empty_world) in
  zonefile bob = Some "Z" /\
  zonefile_hash bob = Some "hash(Z)" /\
  get_name_blockchain_record Demo.env "bob.id"
  = NameRec "owner-of-others" (Some "older-hash") /\
  "older-hash" <> "hash(Z)" /\
  replicated_zonefiles w1 = ["hash(Z)"] /\
  fst (replicate_name_data Demo.env bob Demo.wd w1) = Ret status_ok /\
  trace (snd (replicate_name_data Demo.env bob Demo.wd w1))
  = trace w1 ++ [EvTokenFilePut "bob.id" "T"].
Proof.
  repeat split; try reflexivity. discriminate.
Qed.

(* ===================================================================== *)
(** ** The branches that call queuedb_find *)
(* ===================================================================== *)


(** Called on its own, [register_preordered_name] does reach the call of
    [queuedb_find]: a name that is not registered and sits in both the
    preorder and the register queue raises the [NameError]. *)
Lemma register_preordered_name_queuedb_find (E : Env) (name_data : entry) (w : World) :
  is_name_registered E (fqu name_data) = false ->
  in_queue Preorder (fqu name_data) (queue w) = true ->
  in_queue Register (fqu name_data) (queue w) = true ->
  fst (register_preordered_name E name_data w) = Raise (NameError "queuedb_find").
Proof.
  intros Hr Hp Hq. unfold register_preordered_name. run_m.
  rewrite Hr. simpl. rewrite Hp. simpl. rewrite Hq. reflexivity.
Qed.









(* ===================================================================== *)
(** ** The transfer step *)
(* ===================================================================== *)

Lemma same_key_annotate c name msg e :
  same_key c name (annotate msg e) = same_key c name e.
Proof. reflexivity. Qed.

Lemma queue_removeall_one u q :
  queue_removeall [u] q = filter (fun e => negb (same_key (etype u) (fqu u) e)) q.
Proof.
  unfold queue_removeall. apply filter_ext. intros e. simpl.
  rewrite orb_false_r. reflexivity.
Qed.

Lemma in_queue_removeall c name u q :
  in_queue c name (queue_removeall [u] q)
  = in_queue c name q && negb (category_eqb c (etype u) && String.eqb name (fqu u)).
Proof.
  rewrite queue_removeall_one. unfold in_queue.
  induction q as [| x q IH]; simpl; [reflexivity |].
  destruct (same_key (etype u) (fqu u) x) eqn:Hu; simpl.
  - rewrite IH. apply same_key_iff in Hu. destruct Hu as [Ht Hf].
    destruct (same_key c name x) eqn:Hx; simpl; [| reflexivity].
    apply same_key_iff in Hx. destruct Hx as [Ht' Hf'].
    assert (Hk : category_eqb c (etype u) && String.eqb name (fqu u) = true).
    { rewrite <- Ht, Ht', <- Hf, Hf', category_eqb_refl, String.eqb_refl.
      reflexivity. }
    rewrite Hk. simpl. rewrite andb_false_r. reflexivity.
  - rewrite IH.
    destruct (same_key c name x) eqn:Hx; simpl; [| reflexivity].
    apply same_key_iff in Hx. destruct Hx as [Ht' Hf'].
    assert (Hk : category_eqb c (etype u) && String.eqb name (fqu u) = false).
    { destruct (category_eqb_spec c (etype u)) as [Hc | Hc]; simpl; [| reflexivity].
      destruct (String.eqb_spec name (fqu u)) as [Hn | Hn]; [| reflexivity].
      exfalso. assert (Hs : same_key (etype u) (fqu u) x = true).
      { apply same_key_iff. split; congruence. }
      congruence. }
    rewrite Hk. simpl. reflexivity.
Qed.

Lemma in_queue_add_error_msg c name c' name' msg q :
  in_queue c name (queue_add_error_msg c' name' msg q) = in_queue c name q.
Proof.
  unfold in_queue, queue_add_error_msg.
  induction q as [| x q IH]; simpl; [reflexivity |].
  rewrite IH. destruct (same_key c' name' x); reflexivity.
Qed.

Lemma In_removeall x u q :
  In x q -> same_key (etype u) (fqu u) x = false -> In x (queue_removeall [u] q).
Proof.
  intros Hin Hk. rewrite queue_removeall_one. apply filter_In.
  split; [exact Hin |]. rewrite Hk. reflexivity.
Qed.

Lemma In_add_error_msg_other x c name msg q :
  In x q -> same_key c name x = false -> In x (queue_add_error_msg c name msg q).
Proof.
  intros Hin Hk. unfold queue_add_error_msg. apply in_map_iff.
  exists x. rewrite Hk. auto.
Qed.

Lemma In_add_error_msg_same x c name msg q :
  In x q -> same_key c name x = true ->
  In (annotate msg x) (queue_add_error_msg c name msg q).
Proof.
  intros Hin Hk. unfold queue_add_error_msg. apply in_map_iff.
  exists x. rewrite Hk. auto.
Qed.

(** What [transfer] answers and does. *)
Lemma transfer_spec (E : Env) name addr (w : World) :
  exists r tr,
    r_success r = Some (transfer_broadcast_succeeds E w name) /\
    if transfer_broadcast_succeeds E w name
    then transfer E name addr w
         = (Ret r,
            mk_world (queue w ++ [mk_entry Transfer name (txid_of E Transfer name)
                                           None None None (Some addr) []])
                     (wallet w) (replicated_zonefiles w)
                     (replicated_token_file_hashes w) (trace w ++ tr))
         /\ tr = [EvBroadcast Transfer name]
    else transfer E name addr w
         = (Ret r,
            mk_world (queue w) (wallet w) (replicated_zonefiles w)
                     (replicated_token_file_hashes w) (trace w ++ tr))
         /\ r_error r = transfer_failure E w name.
Proof.
  unfold transfer, transfer_broadcast_succeeds, transfer_failure. run_m.
  destruct (wallet_locked (wallet w)); simpl.
  { eexists; exists []. rewrite app_nil_r. destruct w; simpl.
    split; [| split; reflexivity]. reflexivity. }
  destruct (in_queue Transfer name (queue w)) eqn:Hq; simpl.
  { eexists; exists []. rewrite app_nil_r. destruct w; simpl.
    split; [| split; reflexivity]. reflexivity. }
  unfold async_transfer, async_op. simpl.
  destruct (b_error (chain_broadcast E Transfer name)) as [e|] eqn:Hb; simpl.
  { eexists; exists [EvBroadcast Transfer name].
    split; [| split; reflexivity]. reflexivity. }
  unfold queue_append. simpl. rewrite Hq. simpl.
  eexists; exists [EvBroadcast Transfer name].
  split; [| split; reflexivity]. reflexivity.
Qed.

Lemma touches_only_refl names w : touches_only names w w.
Proof. unfold touches_only. repeat split; auto. Qed.

Lemma touches_only_trans names1 names2 w w1 w2 :
  touches_only names1 w w1 -> touches_only names2 w1 w2 ->
  touches_only (names1 ++ names2) w w2.
Proof.
  intros (Hw1 & Hq1 & Hr1 & Ht1) (Hw2 & Hq2 & Hr2 & Ht2).
  unfold touches_only. split; [congruence |]. split; [| split].
  - intros name Hn.
    destruct (Hq1 name) as [Ha Hb]; [intro; apply Hn; apply in_or_app; auto |].
    destruct (Hq2 name) as [Ha' Hb']; [intro; apply Hn; apply in_or_app; auto |].
    split; congruence.
  - intros x Hin Hk. apply Hr2.
    + apply Hr1; [exact Hin |]. intros name Hn. apply Hk. apply in_or_app; auto.
    + intros name Hn. apply Hk. apply in_or_app; auto.
  - auto.
Qed.

Lemma touches_only_weaken names names' w w' :
  incl names names' -> touches_only names w w' -> touches_only names' w w'.
Proof.
  intros Hincl (Hw & Hq & Hr & Ht).
  unfold touches_only. split; [exact Hw |]. split; [| split].
  - intros name Hn. apply Hq. intro. apply Hn. apply Hincl. assumption.
  - intros x Hin Hk. apply Hr; [exact Hin |].
    intros name Hn. apply Hk. apply Hincl. exact Hn.
  - exact Ht.
Qed.

Lemma same_key_other c name x other :
  other <> name -> same_key c name x = true -> same_key c other x = false.
Proof.
  intros Hne Hk. apply same_key_iff in Hk. destruct Hk as [_ Hf].
  unfold same_key. destruct (String.eqb_spec (fqu x) other).
  - congruence.
  - apply andb_false_r.
Qed.

Lemma not_in_queue_extra c name (u : entry) (extra : list entry) :
  Forall (fun x => etype x = Transfer /\ fqu x = fqu u) extra ->
  (c <> Transfer \/ name <> fqu u) ->
  in_queue c name extra = false.
Proof.
  intros Hextra Hdiff. unfold in_queue. apply not_true_is_false. intros Hex.
  apply existsb_exists in Hex. destruct Hex as [x [Hin Hk]].
  rewrite Forall_forall in Hextra. destruct (Hextra x Hin) as [Ht Hf].
  apply same_key_iff in Hk. destruct Hk as [Hc Hn].
  destruct Hdiff; congruence.
Qed.

(** Removing the update row [u], after appending transfer rows of the same
    name, touches only that name. *)
Lemma touches_only_remove (u : entry) (extra : list entry) (w w' : World) tr :
  etype u = Update ->
  Forall (fun x => etype x = Transfer /\ fqu x = fqu u) extra ->
  w' = mk_world (queue_removeall [u] (queue w ++ extra)) (wallet w)
                (replicated_zonefiles w) (replicated_token_file_hashes w)
                (trace w ++ tr) ->
  touches_only [fqu u] w w'.
Proof.
  intros Hu Hextra ->. unfold touches_only. simpl.
  split; [reflexivity |]. split; [| split].
  - intros name Hn.
    assert (Hne : name <> fqu u) by (intro; apply Hn; left; congruence).
    rewrite !in_queue_removeall, !in_queue_app.
    rewrite (not_in_queue_extra Update name u extra Hextra) by (left; discriminate).
    rewrite (not_in_queue_extra Transfer name u extra Hextra) by (right; exact Hne).
    rewrite !orb_false_r.
    apply String.eqb_neq in Hne. rewrite Hne, !andb_false_r. simpl.
    rewrite !andb_true_r. split; reflexivity.
  - intros x Hin Hk. apply In_removeall.
    + apply in_or_app. left. exact Hin.
    + rewrite Hu. apply Hk. left. reflexivity.
  - intros ev Hin. apply in_or_app. left. exact Hin.
Qed.

(** Annotating the update rows of a name touches only that name. *)
Lemma touches_only_annotate name msg (w w' : World) tr :
  w' = mk_world (queue_add_error_msg Update name msg (queue w)) (wallet w)
                (replicated_zonefiles w) (replicated_token_file_hashes w)
                (trace w ++ tr) ->
  touches_only [name] w w'.
Proof.
  intros ->. unfold touches_only. simpl.
  split; [reflexivity |]. split; [| split].
  - intros n _. rewrite !in_queue_add_error_msg. split; reflexivity.
  - intros x Hin Hk. apply In_add_error_msg_other; [exact Hin |].
    apply Hk. left. reflexivity.
  - intros ev Hin. apply in_or_app. left. exact Hin.
Qed.

(** The three things the body of the loop of [transfer_names] can do with an
    update row: skip it; remove it (after queueing a transfer, if it
    broadcast one); annotate it. *)
Lemma transfer_names_body_shape (E : Env) skip acc (u : entry) (w : World) :
  exists acc' w',
    transfer_names_body E skip acc u w = (Ret acc', w') /\
    ((mem_string (fqu u) skip = true /\ w' = w) \/
     (mem_string (fqu u) skip = false /\ row_done E w u = true /\
      exists extra tr,
        Forall (fun x => etype x = Transfer /\ fqu x = fqu u) extra /\
        w' = mk_world (queue_removeall [u] (queue w ++ extra)) (wallet w)
                      (replicated_zonefiles w) (replicated_token_file_hashes w)
                      (trace w ++ tr) /\
        (forall addr, transfer_address u = Some addr ->
           chain_shows E (fqu u) addr = false ->
           In (EvBroadcast Transfer (fqu u)) tr /\
           in_queue Transfer (fqu u) extra = true)) \/
     (mem_string (fqu u) skip = false /\ row_done E w u = false /\
      exists tr,
        w' = mk_world (queue_add_error_msg Update (fqu u)
                         (transfer_failure E w (fqu u)) (queue w))
                      (wallet w) (replicated_zonefiles w)
                      (replicated_token_file_hashes w) (trace w ++ tr))).
Proof.
  unfold transfer_names_body.
  destruct (mem_string (fqu u) skip) eqn:Hskip.
  { exists acc, w. split; [reflexivity |]. left. auto. }
  unfold row_done.
  destruct (transfer_address u) as [addr|] eqn:Haddr.
  2:{ exists acc, (set_queue (queue_removeall [u] (queue w)) w).
      split; [reflexivity |]. right. left. repeat split.
      exists [], []. split; [constructor |]. split.
      - unfold set_queue. rewrite !app_nil_r. reflexivity.
      - intros a Ha. discriminate. }
  unfold bind at 1. unfold transfer_or_victory, bind at 1, modify at 1.
  destruct (chain_shows E (fqu u) addr) eqn:Hcs.
  - (* the name is already at the address *)
    assert (Hrec : exists vh, get_name_blockchain_record E (fqu u) = NameRec addr vh).
    { unfold chain_shows in Hcs.
      destruct (get_name_blockchain_record E (fqu u)) as [err | a vh];
        [discriminate |].
      apply String.eqb_eq in Hcs. subst a. exists vh. reflexivity. }
    destruct Hrec as [vh Hrec]. rewrite Hrec, String.eqb_refl.
    eexists; eexists. split; [run_m; reflexivity |].
    right. left. split; [reflexivity |]. split; [reflexivity |].
    exists [], [EvGetNameRecord (fqu u)].
    split; [constructor |]. split.
    + unfold set_queue, emit. simpl. rewrite app_nil_r. reflexivity.
    + intros a0 Ha0 Hf. injection Ha0 as <-. congruence.
  - (* a transfer is attempted *)
    assert (Hcall :
      (match get_name_blockchain_record E (fqu u) with
       | NameError_rec _ => transfer E (fqu u) addr
       | NameRec a _ =>
           if String.eqb a addr
           then ret (mk_resp (Some true) None None None None None None None None
                             false false None)
           else transfer E (fqu u) addr
       end) = transfer E (fqu u) addr).
    { unfold chain_shows in Hcs.
      destruct (get_name_blockchain_record E (fqu u)) as [err | a vh];
        [reflexivity | rewrite Hcs; reflexivity]. }
    rewrite Hcall. clear Hcall. simpl.
    destruct (transfer_spec E (fqu u) addr (emit (EvGetNameRecord (fqu u)) w))
      as (r & tr & Hsucc & Hcases).
    change (transfer_broadcast_succeeds E (emit (EvGetNameRecord (fqu u)) w) (fqu u))
      with (transfer_broadcast_succeeds E w (fqu u)) in *.
    change (transfer_failure E (emit (EvGetNameRecord (fqu u)) w) (fqu u))
      with (transfer_failure E w (fqu u)) in *.
    destruct (transfer_broadcast_succeeds E w (fqu u)) eqn:Hok.
    + destruct Hcases as [Hcall ->]. rewrite Hcall, Hsucc.
      eexists; eexists. split; [run_m; reflexivity |].
      right. left. split; [reflexivity |]. split; [reflexivity |].
      exists [mk_entry Transfer (fqu u) (txid_of E Transfer (fqu u)) None None
                       None (Some addr) []],
             [EvGetNameRecord (fqu u); EvBroadcast Transfer (fqu u)].
      split; [constructor; [simpl; auto | constructor] |].
      split.
      * unfold set_queue. simpl. rewrite <- app_assoc. reflexivity.
      * intros _ _ _. split; [simpl; auto |].
        simpl. unfold same_key. simpl. rewrite String.eqb_refl. reflexivity.
    + destruct Hcases as [Hcall He]. rewrite Hcall, Hsucc.
      eexists; eexists. split; [run_m; reflexivity |].
      right. right. split; [reflexivity |]. split; [reflexivity |].
      exists (EvGetNameRecord (fqu u) :: tr).
      unfold set_queue. simpl. rewrite He, <- app_assoc. reflexivity.
Qed.

Lemma body_touches_only (E : Env) skip acc (u : entry) (w : World) acc' w' :
  etype u = Update ->
  transfer_names_body E skip acc u w = (Ret acc', w') ->
  touches_only [fqu u] w w'.
Proof.
  intros Hu Hrun.
  destruct (transfer_names_body_shape E skip acc u w)
    as (acc1 & w1 & Hrun1 & Hcases).
  rewrite Hrun in Hrun1. inversion Hrun1; subst acc1 w1. clear Hrun1.
  destruct Hcases as [[_ ->] | [(_ & _ & extra & tr & Hextra & Hw & _)
                               | (_ & _ & tr & Hw)]].
  - apply touches_only_refl.
  - eapply touches_only_remove; eassumption.
  - eapply touches_only_annotate; eassumption.
Qed.

Lemma row_done_frame (E : Env) (u : entry) (w w1 : World) :
  wallet w1 = wallet w ->
  in_queue Transfer (fqu u) (queue w1) = in_queue Transfer (fqu u) (queue w) ->
  row_done E w1 u = row_done E w u /\
  transfer_failure E w1 (fqu u) = transfer_failure E w (fqu u).
Proof.
  intros Hw Hq.
  unfold row_done, transfer_broadcast_succeeds, transfer_failure.
  rewrite Hw, Hq. split; reflexivity.
Qed.

(** The loop of [transfer_names] over rows with distinct names: it returns,
    it touches nothing but the rows of those names, and every row it does
    not skip ends as [row_outcome] says. *)
Lemma transfer_loop_spec (E : Env) skip :
  forall (l : list entry) acc (w : World),
    NoDup (map fqu l) ->
    (forall x, In x l -> etype x = Update) ->
    exists acc' w',
      for_each l (transfer_names_body E skip) acc w = (Ret acc', w') /\
      touches_only (map fqu l) w w' /\
      forall u, In u l -> mem_string (fqu u) skip = false -> In u (queue w) ->
                row_outcome E u w w'.
Proof.
  induction l as [| v rest IH]; intros acc w Hnodup Htype.
  - exists acc, w. split; [reflexivity |]. split; [apply touches_only_refl |].
    intros u [].
  - simpl in Hnodup. inversion Hnodup as [| ? ? Hfresh Hnodup']; subst.
    assert (Hv : etype v = Update) by (apply Htype; left; reflexivity).
    destruct (transfer_names_body_shape E skip acc v w)
      as (acc1 & w1 & Hrun1 & Hcases).
    pose proof (body_touches_only E skip acc v w acc1 w1 Hv Hrun1) as Hframe1.
    destruct (IH acc1 w1 Hnodup') as (acc' & w' & Hrun & Hframe & Hrows).
    { intros x Hx. apply Htype. right. exact Hx. }
    exists acc', w'. split.
    { simpl. unfold bind. rewrite Hrun1. exact Hrun. }
    split.
    { exact (touches_only_trans [fqu v] (map fqu rest) w w1 w' Hframe1 Hframe). }
    intros u Hin Hskip Hinq.
    destruct Hframe as (Hwal & Hq & Hkeep & Htrace).
    destruct Hin as [<- | Hin].
    + (* the row processed first *)
      destruct (Hq (fqu v) Hfresh) as [Hqu Hqt].
      destruct Hcases as [[Hs _] | [(_ & Hdone & extra & tr & Hextra & Hw1 & Hev)
                                    | (_ & Hdone & tr & Hw1)]].
      * congruence.
      * unfold row_outcome. rewrite Hdone. simpl. split; [| split].
        -- rewrite Hqu, Hw1. simpl. rewrite in_queue_removeall.
           rewrite Hv, String.eqb_refl. simpl. apply andb_false_r.
        -- discriminate.
        -- intros _ addr Haddr Hcs. destruct (Hev addr Haddr Hcs) as [Hb Hx].
           split.
           ++ apply Htrace. rewrite Hw1. simpl. apply in_or_app. right. exact Hb.
           ++ rewrite Hqt, Hw1. simpl. rewrite in_queue_removeall, in_queue_app.
              rewrite Hx, Hv. simpl. rewrite orb_true_r. reflexivity.
      * unfold row_outcome. rewrite Hdone. simpl. split; [| split].
        -- rewrite Hqu, Hw1. simpl. rewrite in_queue_add_error_msg.
           apply in_queue_iff. exists v. auto.
        -- intros _. apply Hkeep.
           ++ rewrite Hw1. simpl. apply In_add_error_msg_same; [exact Hinq |].
              apply same_key_iff. auto.
           ++ intros name Hname. rewrite same_key_annotate.
              apply (same_key_other Update (fqu v) v name).
              ** intros ->. contradiction.
              ** apply same_key_iff. auto.
        -- discriminate.
    + (* a row processed later *)
      assert (Hne : fqu u <> fqu v).
      { intros Heq. apply Hfresh. rewrite <- Heq. apply in_map. exact Hin. }
      destruct Hframe1 as (Hwal1 & Hq1 & Hkeep1 & Htrace1).
      assert (Hinq1 : In u (queue w1)).
      { apply Hkeep1; [exact Hinq |]. intros name [<- | []].
        unfold same_key. apply String.eqb_neq in Hne. rewrite Hne.
        apply andb_false_r. }
      destruct (Hq1 (fqu u)) as [_ Hqt1].
      { intros [Heq | []]. congruence. }
      destruct (row_done_frame E u w w1 Hwal1 Hqt1) as [Hd Hf].
      specialize (Hrows u Hin Hskip Hinq1).
      unfold row_outcome in *. rewrite Hd, Hf in Hrows. exact Hrows.
Qed.

Lemma unique_keys_confirmed_updates (E : Env) (q : list entry) :
  unique_keys q -> NoDup (map fqu (get_confirmed_updates E q)).
Proof.
  unfold unique_keys, get_confirmed_updates, queue_find_accepted.
  induction q as [| x q IH]; intros Hq; simpl; [constructor |].
  simpl in Hq. inversion Hq as [| ? ? Hfresh Hq']; subst.
  destruct (category_eqb (etype x) Update && tx_accepted E (tx_hash x)) eqn:Hx.
  - simpl. constructor; [| apply IH; exact Hq'].
    intros Hin. apply in_map_iff in Hin. destruct Hin as [y [Hy Hin]].
    apply filter_In in Hin. destruct Hin as [Hin Hfy].
    apply andb_true_iff in Hx. destruct Hx as [Hx _].
    apply andb_true_iff in Hfy. destruct Hfy as [Hfy _].
    destruct (category_eqb_spec (etype x) Update); [| discriminate].
    destruct (category_eqb_spec (etype y) Update); [| discriminate].
    apply Hfresh. apply in_map_iff. exists y. split; [| exact Hin].
    congruence.
  - apply IH. exact Hq'.
Qed.

(** C2.  Let the queue hold at most one row per category and name, and let
    [u] be a confirmed update row whose name is not in the skip list.  Then
    [transfer_names] returns, and afterwards:
    - no update row for the name is left exactly when [u] has no transfer
      address, or the chain record shows the name at the transfer address, or
      a transfer was broadcast for it with success;
    - otherwise (the transfer failed) the row is still in the queue, the same
      in every field but 'errors', which has the error message of the
      transfer appended;
    - if [u] has a transfer address and is gone, the chain shows the name at
      that address or a transfer of the name is in the trace and in the
      transfer queue. *)
Theorem transfer_names_drops_row_iff :
  forall (E : Env) (skip : list string) (w : World) (u : entry),
    unique_keys (queue w) ->
    In u (get_confirmed_updates E (queue w)) ->
    ~ In (fqu u) skip ->
    exists (r : resp) (w' : World),
      transfer_names E skip w = (Ret r, w') /\
      (in_queue Update (fqu u) (queue w') = false <->
       (transfer_address u = None \/
        exists addr, transfer_address u = Some addr /\
                     (chain_shows E (fqu u) addr = true \/
                      transfer_broadcast_succeeds E w (fqu u) = true))) /\
      (forall addr, transfer_address u = Some addr ->
         chain_shows E (fqu u) addr = false ->
         transfer_broadcast_succeeds E w (fqu u) = false ->
         exists msg,
           transfer_failure E w (fqu u) = Some msg /\
           In (mk_entry Update (fqu u) (tx_hash u) (zonefile u) (zonefile_hash u)
                        (token_file u) (Some addr) (errors u ++ [msg]))
              (queue w')) /\
      (forall addr, transfer_address u = Some addr ->
         in_queue Update (fqu u) (queue w') = false ->
         chain_shows E (fqu u) addr = true \/
         (In (EvBroadcast Transfer (fqu u)) (trace w') /\
          in_queue Transfer (fqu u) (queue w') = true)).
Proof.
  intros E skip w u Huniq Hin Hskip.
  apply mem_string_not_In in Hskip.
  assert (Htype : forall x, In x (get_confirmed_updates E (queue w)) -> etype x = Update).
  { intros x Hx. apply filter_In in Hx. destruct Hx as [_ Hx].
    apply andb_true_iff in Hx. destruct Hx as [Hx _].
    destruct (category_eqb_spec (etype x) Update); [assumption | discriminate]. }
  assert (Hinq : In u (queue w)).
  { apply filter_In in Hin. tauto. }
  destruct (transfer_loop_spec E skip (get_confirmed_updates E (queue w))
              (status_ok, []) w (unique_keys_confirmed_updates E (queue w) Huniq)
              Htype)
    as (acc' & w' & Hrun & _ & Hrows).
  destruct (Hrows u Hin Hskip Hinq) as (Hgone & Hleft & Hsent).
  exists (with_names acc'), w'. split.
  { unfold transfer_names. run_m. rewrite Hrun. reflexivity. }
  unfold row_done in *.
  destruct (transfer_address u) as [addr|] eqn:Haddr.
  - split; [| split].
    + rewrite Hgone. split.
      * intros H. right. exists addr. split; [reflexivity |].
        apply negb_false_iff in H. apply orb_true_iff in H. exact H.
      * intros [H | (a & Ha & H)]; [discriminate |].
        injection Ha as <-. apply negb_false_iff. apply orb_true_iff. exact H.
    + intros a Ha Hcs Hbs. injection Ha as <-.
      assert (Hann : In (annotate (transfer_failure E w (fqu u)) u) (queue w')).
      { apply Hleft. rewrite Hcs, Hbs. reflexivity. }
      assert (Hmsg : exists msg, transfer_failure E w (fqu u) = Some msg).
      { unfold transfer_failure. unfold transfer_broadcast_succeeds in Hbs.
        destruct (wallet_locked (wallet w)); [eexists; reflexivity |].
        destruct (in_queue Transfer (fqu u) (queue w)); [eexists; reflexivity |].
        destruct (b_error (chain_broadcast E Transfer (fqu u))) as [e |];
          [eexists; reflexivity | discriminate]. }
      destruct Hmsg as [msg Hmsg]. exists msg. split; [exact Hmsg |].
      rewrite Hmsg in Hann. unfold annotate in Hann.
      rewrite (Htype u Hin), Haddr in Hann. exact Hann.
    + intros a Ha Hg. injection Ha as <-.
      rewrite Hgone in Hg. apply negb_false_iff in Hg.
      destruct (chain_shows E (fqu u) addr) eqn:Hcs; [left; reflexivity |].
      right. apply (Hsent Hg addr eq_refl). exact Hcs.
  - split; [| split].
    + rewrite Hgone. simpl. split; auto.
    + intros a Ha. discriminate.
    + intros a Ha. discriminate.
Qed.

Lemma transfer_names_drops_row_iff_witness :
  let w := Demo.world_of [Demo.update_row "alice.id" (Some "new-owner");
                          Demo.update_row "bob.id" None;
                          Demo.preorder_row "carol.id"] in
  let u := Demo.update_row "alice.id" (Some "new-owner") in
  unique_keys (queue w) /\
  In u (get_confirmed_updates Demo.env (queue w)) /\
  ~ In (fqu u) [] /\
  exists (r : resp) (w' : World),
    transfer_names Demo.env [] w = (Ret r, w') /\
    (in_queue Update (fqu u) (queue w') = false <->
     (transfer_address u = None \/
      exists addr, transfer_address u = Some addr /\
                   (chain_shows Demo.env (fqu u) addr = true \/
                    transfer_broadcast_succeeds Demo.env w (fqu u) = true))) /\
    (forall addr, transfer_address u = Some addr ->
       chain_shows Demo.env (fqu u) addr = false ->
       transfer_broadcast_succeeds Demo.env w (fqu u) = false ->
       exists msg,
         transfer_failure Demo.env w (fqu u) = Some msg /\
         In (mk_entry Update (fqu u) (tx_hash u) (zonefile u) (zonefile_hash u)
                      (token_file u) (Some addr) (errors u ++ [msg]))
            (queue w')) /\
    (forall addr, transfer_address u = Some addr ->
       in_queue Update (fqu u) (queue w') = false ->
       chain_shows Demo.env (fqu u) addr = true \/
       (In (EvBroadcast Transfer (fqu u)) (trace w') /\
        in_queue Transfer (fqu u) (queue w') = true)).
Proof.
  intros w u.
  assert (Huniq : unique_keys (queue w)).
  { unfold unique_keys. simpl.
    repeat constructor; simpl; intuition discriminate. }
  assert (Hin : In u (get_confirmed_updates Demo.env (queue w))).
  { simpl. left. reflexivity. }
  assert (Hskip : ~ In (fqu u) []).
  { simpl. tauto. }
  split; [exact Huniq |]. split; [exact Hin |]. split; [exact Hskip |].
  exact (transfer_names_drops_row_iff Demo.env [] w u Huniq Hin Hskip).
Defined.

(** The same rows on a chain that refuses every broadcast: the update of
    alice.id stays queued, annotated, and is reported as failed. *)
Example transfer_names_failed_broadcast :
  let w := Demo.world_of [Demo.update_row "alice.id" (Some "new-owner");
                          Demo.update_row "bob.id" None] in
  let result := transfer_names Demo.failing_env [] w in
  match fst result with
  | Ret r => r_error r = Some "Not all names transferred"
             /\ r_names r = Some ["alice.id"]
  | Raise _ => False
  end /\
  queue (snd result)
  = [mk_entry Update "alice.id" "tx-alice.id" (Some "Z") (Some "hash(Z)")
              (Some "T") (Some "new-owner") ["broadcast failed"]].
Proof. simpl. repeat split. Qed.

(* ===================================================================== *)
(** ** The lockfile *)
(* ===================================================================== *)

Lemma string_length_append (a b : string) :
  String.length (a ++ b) = String.length a + String.length b.
Proof. induction a as [| c a IH]; simpl; [reflexivity | now rewrite IH]. Qed.

Lemma string_append_cancel (p x y : string) :
  (p ++ x)%string = (p ++ y)%string -> x = y.
Proof.
  induction p as [| c p IH]; simpl; intros H; [exact H |].
  injection H as H. apply IH. exact H.
Qed.

(** [os.path.join(a, b)] is [b] behind something that depends on [a] only. *)
Lemma path_join_prefix (a : string) :
  exists p, forall b, path_join a b = (p ++ b)%string.
Proof.
  unfold path_join. destruct a as [| c a].
  - exists "". reflexivity.
  - destruct (String.eqb (substring (String.length (String c a) - 1) 1 (String c a)) "/").
    + exists (String c a). reflexivity.
    + exists (String c a ++ "/")%string. intros b.
      simpl. f_equal. induction a as [| d a IH]; simpl; [reflexivity |].
      f_equal. exact IH.
Qed.

Lemma tmp_suffix_length n : String.length (tmp_suffix n) = n.
Proof. induction n; simpl; congruence. Qed.

Lemma candidate_injective (dir prefix : string) n m :
  path_join dir (prefix ++ tmp_suffix n) = path_join dir (prefix ++ tmp_suffix m) ->
  n = m.
Proof.
  destruct (path_join_prefix dir) as [p Hp]. rewrite !Hp. intros H.
  apply string_append_cancel in H. apply string_append_cancel in H.
  rewrite <- (tmp_suffix_length n), <- (tmp_suffix_length m). congruence.
Qed.

(** A temporary file never gets the name of the lockfile. *)
Lemma candidate_not_lockfile (dir : string) n :
  path_join dir (".registrar.lock." ++ tmp_suffix n) <> get_lockfile_path dir.
Proof.
  unfold get_lockfile_path.
  destruct (path_join_prefix dir) as [p Hp]. rewrite !Hp. intros H.
  apply string_append_cancel in H. discriminate.
Qed.

Lemma assoc_string_In k l v : assoc_string k l = Some v -> In k (map fst l).
Proof.
  induction l as [| [k' v'] l IH]; simpl; [discriminate |].
  destruct (String.eqb_spec k k').
  - intros _. left. congruence.
  - intros H. right. apply IH. exact H.
Qed.

Lemma fs_exists_In path fs : fs_exists path fs = true -> In path (map fst (links fs)).
Proof.
  unfold fs_exists. destruct (assoc_string path (links fs)) eqn:H; [| discriminate].
  intros _. eapply assoc_string_In. eassumption.
Qed.

Lemma first_fresh_none fuel : forall n candidate fs,
  first_fresh fuel n candidate fs = None ->
  forall k, n <= k < n + fuel -> fs_exists (candidate k) fs = true.
Proof.
  induction fuel as [| f IH]; intros n candidate fs H k Hk; [lia |].
  simpl in H. destruct (fs_exists (candidate n) fs) eqn:Hn; [| discriminate].
  destruct (Nat.eq_dec k n) as [-> | Hne]; [exact Hn |].
  apply (IH (S n) candidate fs H). lia.
Qed.

Lemma first_fresh_some fuel : forall n candidate fs path,
  first_fresh fuel n candidate fs = Some path ->
  fs_exists path fs = false /\ exists k, path = candidate k.
Proof.
  induction fuel as [| f IH]; intros n candidate fs path H; [discriminate |].
  simpl in H. destruct (fs_exists (candidate n) fs) eqn:Hn.
  - eapply IH. eassumption.
  - inversion H; subst. split; [exact Hn | exists n; reflexivity].
Qed.

Lemma NoDup_map_injective {A B : Type} (f : A -> B) (l : list A) :
  (forall x y, f x = f y -> x = y) -> NoDup l -> NoDup (map f l).
Proof.
  intros Hinj. induction 1 as [| x l Hx Hl IH]; simpl; constructor; [| exact IH].
  intros Hin. apply in_map_iff in Hin. destruct Hin as [y [Hy Hin]].
  apply Hinj in Hy. subst. contradiction.
Qed.

(** [mkstemp] always finds a name: among one more candidates than there are
    directory entries, one is free. *)
Lemma mkstemp_succeeds (prefix dir : string) (fs : FS) :
  exists path k,
    path = path_join dir (prefix ++ tmp_suffix k) /\
    fs_exists path fs = false /\
    mkstemp prefix dir fs
    = Some (fresh_inode fs, path,
            mk_fs ((path, fresh_inode fs) :: links fs)
                  ((fresh_inode fs, "") :: inodes fs)).
Proof.
  unfold mkstemp.
  destruct (first_fresh (S (length (links fs))) 0
              (fun n => path_join dir (prefix ++ tmp_suffix n)) fs)
    as [path |] eqn:Hf.
  - destruct (first_fresh_some _ _ _ _ _ Hf) as [Hfree [k Hk]].
    exists path, k. auto.
  - exfalso.
    pose proof (first_fresh_none _ _ _ _ Hf) as Hall.
    set (candidate := fun n => path_join dir (prefix ++ tmp_suffix n)) in *.
    assert (Hincl : incl (map candidate (seq 0 (S (length (links fs)))))
                         (map fst (links fs))).
    { intros p Hp. apply in_map_iff in Hp. destruct Hp as [k [<- Hk]].
      apply in_seq in Hk. apply fs_exists_In. apply Hall. lia. }
    assert (Hnodup : NoDup (map candidate (seq 0 (S (length (links fs)))))).
    { apply NoDup_map_injective; [| apply seq_NoDup].
      intros x y. apply candidate_injective. }
    pose proof (NoDup_incl_length Hnodup Hincl) as Hlen.
    rewrite !length_map, length_seq in Hlen. lia.
Qed.

Lemma assoc_string_filter k p l :
  assoc_string k (filter (fun e => negb (String.eqb (fst e) p)) l)
  = if String.eqb k p then None else assoc_string k l.
Proof.
  induction l as [| [k' v] l IH]; simpl.
  - destruct (String.eqb k p); reflexivity.
  - destruct (String.eqb_spec k' p) as [-> | Hne]; simpl.
    + rewrite IH. destruct (String.eqb k p); reflexivity.
    + rewrite IH. destruct (String.eqb_spec k k') as [-> | Hkk].
      * apply String.eqb_neq in Hne. rewrite Hne. reflexivity.
      * reflexivity.
Qed.

Lemma fs_exists_after_unlink path fs fs' :
  fs_unlink path fs = Some fs' -> fs_exists path fs' = false.
Proof.
  unfold fs_unlink. destruct (fs_exists path fs); [| discriminate].
  intros H. inversion H; subst. unfold fs_exists. simpl.
  rewrite assoc_string_filter, String.eqb_refl. reflexivity.
Qed.

(** The temp-file-plus-hard-link sequence, on a directory without lockfile:
    it succeeds, the lockfile then holds the PID and a newline, and the
    temporary name is gone. *)
Lemma lock_sequence (getpid : Z) (dir : string) (fs1 : FS) :
  fs_exists (get_lockfile_path dir) fs1 = false ->
  exists tmp fs2 fs3 fs4 fs5,
    mkstemp ".registrar.lock." dir fs1 = Some (fresh_inode fs1, tmp, fs2) /\
    fs_link tmp (get_lockfile_path dir) fs2 = Some fs3 /\
    fs_unlink tmp fs3 = Some fs4 /\
    lockfile_write getpid (fresh_inode fs1) fs4 = (fs5, true) /\
    fs_read (get_lockfile_path dir) fs5
    = Some (py_str_of_int getpid ++ String (ascii_of_nat 10) "")%string /\
    fs_exists tmp fs5 = false.
Proof.
  intros Hno.
  destruct (mkstemp_succeeds ".registrar.lock." dir fs1)
    as (tmp & k & Htmp & Hfree & Hmk).
  assert (Hne : tmp <> get_lockfile_path dir).
  { rewrite Htmp. apply candidate_not_lockfile. }
  set (lock := get_lockfile_path dir) in *.
  remember (fresh_inode fs1) as i eqn:Hi. clear Hi.
  assert (Hlt : String.eqb lock tmp = false) by (apply String.eqb_neq; congruence).
  assert (Htl : String.eqb tmp lock = false) by (apply String.eqb_neq; congruence).
  assert (Hlock1 : assoc_string lock (links fs1) = None).
  { unfold fs_exists in Hno. destruct (assoc_string lock (links fs1)); congruence. }
  exists tmp.
  exists (mk_fs ((tmp, i) :: links fs1) ((i, "") :: inodes fs1)).
  exists (mk_fs ((lock, i) :: (tmp, i) :: links fs1) ((i, "") :: inodes fs1)).
  exists (mk_fs ((lock, i) :: filter (fun l => negb (String.eqb (fst l) tmp)) (links fs1))
                ((i, "") :: inodes fs1)).
  eexists.
  split; [exact Hmk |]. split.
  { unfold fs_link, fs_exists. simpl.
    rewrite String.eqb_refl, Hlt, Hlock1. reflexivity. }
  split.
  { unfold fs_unlink, fs_exists. simpl.
    rewrite Htl, !String.eqb_refl. simpl. rewrite Hlt. simpl. reflexivity. }
  split.
  { unfold lockfile_write, fs_write. simpl. rewrite Nat.eqb_refl. simpl.
    reflexivity. }
  split.
  { unfold fs_read. simpl. rewrite String.eqb_refl. simpl.
    rewrite Nat.eqb_refl. reflexivity. }
  unfold fs_exists. simpl. rewrite Htl.
  rewrite assoc_string_filter, String.eqb_refl. reflexivity.
Qed.

(** What [acquire_lockfile] does when there is no valid lockfile. *)
Lemma acquire_lockfile_invalid (getpid : Z) (dir : string) (fs : FS) :
  is_lockfile_valid getpid dir fs = false ->
  exists fs1 tmp fs2 fs3 fs4 fs5,
    fs1 = (if fs_exists (get_lockfile_path dir) fs
           then try_unlink (get_lockfile_path dir) fs else fs) /\
    fs_exists (get_lockfile_path dir) fs1 = false /\
    mkstemp ".registrar.lock." dir fs1 = Some (fresh_inode fs1, tmp, fs2) /\
    fs_link tmp (get_lockfile_path dir) fs2 = Some fs3 /\
    fs_unlink tmp fs3 = Some fs4 /\
    lockfile_write getpid (fresh_inode fs1) fs4 = (fs5, true) /\
    acquire_lockfile getpid dir fs = (fs5, true) /\
    fs_read (get_lockfile_path dir) fs5
    = Some (py_str_of_int getpid ++ String (ascii_of_nat 10) "")%string /\
    fs_exists tmp fs5 = false.
Proof.
  intros Hinvalid.
  set (fs1 := if fs_exists (get_lockfile_path dir) fs
              then try_unlink (get_lockfile_path dir) fs else fs).
  assert (Hno : fs_exists (get_lockfile_path dir) fs1 = false).
  { unfold fs1. destruct (fs_exists (get_lockfile_path dir) fs) eqn:Hex; [| exact Hex].
    unfold try_unlink.
    destruct (fs_unlink (get_lockfile_path dir) fs) as [fs' |] eqn:Hu.
    - eapply fs_exists_after_unlink. eassumption.
    - unfold fs_unlink in Hu. rewrite Hex in Hu. discriminate. }
  destruct (lock_sequence getpid dir fs1 Hno)
    as (tmp & fs2 & fs3 & fs4 & fs5 & Hmk & Hlink & Hunlink & Hwrite & Hread & Hgone).
  exists fs1, tmp, fs2, fs3, fs4, fs5.
  repeat (split; [assumption || reflexivity |]).
  split; [| split; assumption].
  unfold acquire_lockfile. rewrite Hinvalid. simpl. fold fs1.
  rewrite Hmk, Hlink. unfold try_unlink. rewrite Hunlink, Hwrite. reflexivity.
Qed.

(** A valid lockfile makes [acquire_lockfile] give up at once. *)
Lemma acquire_lockfile_valid (getpid : Z) (dir : string) (fs : FS) :
  is_lockfile_valid getpid dir fs = true ->
  acquire_lockfile getpid dir fs = (fs, false).
Proof. intros H. unfold acquire_lockfile. rewrite H. reflexivity. Qed.

(** *** Reading back the PID that [lockfile_write] wrote *)

Lemma string_append_nil_r (s : string) : (s ++ "")%string = s.
Proof. induction s as [| c s IH]; simpl; congruence. Qed.

Lemma rev_string_rev_string (s a b : string) :
  rev_string (rev_string s a) b = rev_string a (s ++ b)%string.
Proof.
  revert a b. induction s as [| c s IH]; intros a b; simpl; [reflexivity |].
  rewrite IH. reflexivity.
Qed.

Lemma rev_string_append (s t acc : string) :
  rev_string (s ++ t)%string acc = rev_string t (rev_string s acc).
Proof.
  revert acc. induction s as [| c s IH]; intros acc; simpl; [reflexivity |].
  apply IH.
Qed.

Lemma no_space_rev_string (s acc : string) :
  no_space (rev_string s acc) = no_space s && no_space acc.
Proof.
  revert acc. induction s as [| c s IH]; intros acc; simpl; [reflexivity |].
  rewrite IH. simpl.
  destruct (is_space c), (no_space s), (no_space acc); reflexivity.
Qed.

Lemma lstrip_no_space (s : string) : no_space s = true -> lstrip s = s.
Proof.
  destruct s as [| c s]; simpl; [reflexivity |].
  destruct (is_space c); [discriminate | reflexivity].
Qed.

(** [strip] removes the newline that ends the lockfile. *)
Lemma strip_line (s : string) :
  no_space s = true ->
  strip (s ++ String (ascii_of_nat 10) "")%string = s.
Proof.
  intros Hs. destruct s as [| c0 s0] eqn:Hshape; [reflexivity |].
  rewrite <- Hshape in *. unfold strip.
  assert (Hfirst : lstrip (s ++ String (ascii_of_nat 10) "")%string
                   = (s ++ String (ascii_of_nat 10) "")%string).
  { rewrite Hshape in *. simpl in *.
    destruct (is_space c0); [discriminate | reflexivity]. }
  clear Hshape.
  rewrite Hfirst, rev_string_append.
  change (rev_string (String (ascii_of_nat 10) "") (rev_string s ""))
    with (String (ascii_of_nat 10) (rev_string s "")).
  change (lstrip (String (ascii_of_nat 10) (rev_string s "")))
    with (lstrip (rev_string s "")).
  rewrite lstrip_no_space.
  - rewrite rev_string_rev_string. simpl. apply string_append_nil_r.
  - rewrite no_space_rev_string, Hs. reflexivity.
Qed.

Lemma no_space_digits (d : Decimal.uint) :
  no_space (NilEmpty.string_of_uint d) = true.
Proof. induction d; simpl; auto. Qed.

Lemma py_int_digits (d : Decimal.uint) :
  d <> Decimal.Nil ->
  py_int (NilEmpty.string_of_uint d) = Some (Z.of_uint d).
Proof.
  intros Hd.
  destruct d as [| d | d | d | d | d | d | d | d | d | d]; [congruence | ..];
    match goal with
    | |- py_int (NilEmpty.string_of_uint ?x) = _ =>
        change (py_int (NilEmpty.string_of_uint x))
          with (option_map Z.of_uint
                  (NilEmpty.uint_of_string (NilEmpty.string_of_uint x)));
        rewrite NilEmpty.usu; reflexivity
    end.
Qed.

Lemma py_str_of_int_positive (p : positive) :
  py_str_of_int (Zpos p) = NilEmpty.string_of_uint (Pos.to_uint p).
Proof.
  unfold py_str_of_int. simpl. unfold NilZero.string_of_uint.
  pose proof (DecimalPos.Unsigned.to_uint_nonnil p) as Hnn.
  destruct (Pos.to_uint p); [congruence | reflexivity ..].
Qed.

(** The contents written by [lockfile_write] read back as the PID. *)
Lemma lockfile_pid_round_trip (pid : Z) :
  (0 < pid)%Z ->
  lockfile_pid (py_str_of_int pid ++ String (ascii_of_nat 10) "")%string = pid.
Proof.
  intros Hpos. destruct pid as [| p | p]; try lia.
  rewrite py_str_of_int_positive. unfold lockfile_pid.
  rewrite strip_line by apply no_space_digits.
  rewrite py_int_digits by apply DecimalPos.Unsigned.to_uint_nonnil.
  unfold Z.of_uint. rewrite DecimalPos.Unsigned.of_to. reflexivity.
Qed.

Lemma is_lockfile_stale_contents_iff (getpid : Z) (dat : string) :
  is_lockfile_stale_contents getpid dat = true <-> lockfile_pid dat <> getpid.
Proof.
  unfold is_lockfile_stale_contents. rewrite negb_true_iff. apply Z.eqb_neq.
Qed.

(** C4.  A worker of process [getpid] (a positive number) starts in a
    directory that has a lockfile.
    - The lockfile's contents are stale exactly when the PID read from them
      differs from [getpid]; contents that do not parse read as -1 and are
      stale.
    - If the lockfile is stale, the first move of [run] unlinks it, makes a
      temporary file, hard-links it to the lockfile path, unlinks the
      temporary name and writes the PID through the descriptor; the worker
      then is at the head of its loop, and the lockfile holds its PID and is
      valid for it.
    - If the lockfile is not stale, [run] returns at once and leaves the file
      system as it is. *)
Theorem stale_lockfile_recovery :
  forall (E : Env) (getpid : Z) (dir : string) (poll : Z) (w : Worker),
    (0 < getpid)%Z ->
    at_pc w = Startup ->
    fs_exists (get_lockfile_path dir) (fs w) = true ->
    let lock := get_lockfile_path dir in
    let w' := tick E getpid dir poll w in
    (forall dat, is_lockfile_stale_contents getpid dat = true
                 <-> lockfile_pid dat <> getpid) /\
    (forall dat, py_int (strip dat) = None ->
                 is_lockfile_stale_contents getpid dat = true) /\
    (is_lockfile_stale getpid lock (fs w) = true ->
     exists fs1 tmp fs2 fs3 fs4,
       fs_unlink lock (fs w) = Some fs1 /\
       mkstemp ".registrar.lock." dir fs1 = Some (fresh_inode fs1, tmp, fs2) /\
       fs_link tmp lock fs2 = Some fs3 /\
       fs_unlink tmp fs3 = Some fs4 /\
       lockfile_write getpid (fresh_inode fs1) fs4 = (fs w', true) /\
       at_pc w' = LoopHead /\
       lockfile_path w' = Some lock /\
       fs_read lock (fs w')
       = Some (py_str_of_int getpid ++ String (ascii_of_nat 10) "")%string /\
       fs_exists tmp (fs w') = false /\
       is_lockfile_valid getpid dir (fs w') = true) /\
    (is_lockfile_stale getpid lock (fs w) = false ->
     at_pc w' = Exited /\ fs w' = fs w).
Proof.
  intros E getpid dir poll w Hpid Hpc Hexists lock w'. subst lock.
  split; [intros dat; apply is_lockfile_stale_contents_iff |].
  split.
  { intros dat Hparse. apply is_lockfile_stale_contents_iff.
    unfold lockfile_pid. rewrite Hparse. lia. }
  split.
  - intros Hstale.
    assert (Hinvalid : is_lockfile_valid getpid dir (fs w) = false).
    { unfold is_lockfile_valid. rewrite Hexists, Hstale. reflexivity. }
    destruct (acquire_lockfile_invalid getpid dir (fs w) Hinvalid)
      as (fs1 & tmp & fs2 & fs3 & fs4 & fs5 & Hfs1 & Hno & Hmk & Hlink & Hunlink
          & Hwrite & Hacq & Hread & Hgone).
    rewrite Hexists in Hfs1.
    assert (Hu : fs_unlink (get_lockfile_path dir) (fs w) = Some fs1).
    { unfold try_unlink in Hfs1.
      destruct (fs_unlink (get_lockfile_path dir) (fs w)) as [fs' |] eqn:Hun;
        [congruence |].
      unfold fs_unlink in Hun. rewrite Hexists in Hun. discriminate. }
    assert (Hw' : fs w' = fs5 /\ at_pc w' = LoopHead
                  /\ lockfile_path w' = Some (get_lockfile_path dir)).
    { unfold w', tick. rewrite Hpc, Hacq. simpl. auto. }
    destruct Hw' as (Hfs & Hat & Hpath).
    exists fs1, tmp, fs2, fs3, fs4. rewrite Hfs.
    repeat (split; [assumption |]).
    unfold is_lockfile_valid, is_lockfile_stale.
    assert (Hex5 : fs_exists (get_lockfile_path dir) fs5 = true).
    { unfold fs_exists. unfold fs_read in Hread.
      destruct (assoc_string (get_lockfile_path dir) (links fs5));
        [reflexivity | discriminate]. }
    rewrite Hex5, Hread. unfold is_lockfile_stale_contents.
    rewrite lockfile_pid_round_trip by exact Hpid.
    rewrite Z.eqb_refl. reflexivity.
  - intros Hfresh.
    assert (Hvalid : is_lockfile_valid getpid dir (fs w) = true).
    { unfold is_lockfile_valid. rewrite Hexists, Hfresh. reflexivity. }
    unfold w', tick. rewrite Hpc, (acquire_lockfile_valid getpid dir (fs w) Hvalid).
    simpl. auto.
Qed.

(** Process 1 starts in a directory whose lockfile was left by process
    4242. *)
Lemma stale_lockfile_recovery_witness :
  let w := new_worker 300 Demo.empty_world Demo.stale_fs in
  let w' := tick Demo.env 1 Demo.config_dir 300 w in
  (0 < 1)%Z /\ at_pc w = Startup /\
  fs_exists (get_lockfile_path Demo.config_dir) (fs w) = true /\
  is_lockfile_stale 1 (get_lockfile_path Demo.config_dir) (fs w) = true /\
  at_pc w' = LoopHead /\
  fs_read Demo.lock_path (fs w')
  = Some (py_str_of_int 1 ++ String (ascii_of_nat 10) "")%string.
Proof.
  intros w w'.
  assert (Hpid : (0 < 1)%Z) by lia.
  assert (Hpc : at_pc w = Startup) by reflexivity.
  assert (Hex : fs_exists (get_lockfile_path Demo.config_dir) (fs w) = true)
    by reflexivity.
  assert (Hstale : is_lockfile_stale 1 (get_lockfile_path Demo.config_dir) (fs w) = true)
    by reflexivity.
  destruct (stale_lockfile_recovery Demo.env 1 Demo.config_dir 300 w Hpid Hpc Hex)
    as (_ & _ & Hrecover & _).
  destruct (Hrecover Hstale)
    as (fs1 & tmp & fs2 & fs3 & fs4 & _ & _ & _ & _ & _ & Hat & _ & Hread & _).
  repeat (split; [assumption |]). exact Hread.
Defined.

(** A lockfile whose contents are no number is stale for every process, and
    one that holds the PID of the starting process stops it. *)
Example corrupt_lockfile_is_stale :
  is_lockfile_stale 1 Demo.lock_path Demo.corrupt_fs = true /\
  acquire_lockfile 4242 Demo.config_dir Demo.stale_fs = (Demo.stale_fs, false) /\
  fst (acquire_lockfile 1 Demo.config_dir Demo.empty_fs)
  = mk_fs [(Demo.lock_path, 1%nat)] [(1%nat, ("1" ++ Demo.newline)%string)].
Proof. repeat split. Qed.

(* ===================================================================== *)
(** ** The worker loop: backoff *)
(* ===================================================================== *)

Lemma run_step_at_pc (E : Env) s w : at_pc (run_step E s w) = next_pc s.
Proof.
  unfold run_step. destruct (step_call E s w (world w)) as [[res | e] world'].
  - destruct (has_error res); reflexivity.
  - reflexivity.
Qed.

Lemma run_step_history (E : Env) s w :
  history (run_step E s w) = history w ++ [RunBeginStep s].
Proof.
  unfold run_step. destruct (step_call E s w (world w)) as [[res | e] world'].
  - destruct (has_error res); reflexivity.
  - reflexivity.
Qed.

Lemma run_step_running (E : Env) s w : running (run_step E s w) = running w.
Proof.
  unfold run_step. destruct (step_call E s w (world w)) as [[res | e] world'].
  - destruct (has_error res); reflexivity.
  - reflexivity.
Qed.

Lemma run_step_draws (E : Env) s w : draws (run_step E s w) = draws w.
Proof.
  unfold run_step. destruct (step_call E s w (world w)) as [[res | e] world'].
  - destruct (has_error res); reflexivity.
  - reflexivity.
Qed.

(** A [try] block that fails leaves [poll_interval] at [1.0]; one that does
    not fail leaves [failed] and [poll_interval] alone. *)
Lemma run_step_failed (E : Env) s w :
  (failed (run_step E s w) = true /\ poll_interval (run_step E s w) = 1%Q) \/
  (failed (run_step E s w) = failed w /\
   poll_interval (run_step E s w) = poll_interval w).
Proof.
  unfold run_step. destruct (step_call E s w (world w)) as [[res | e] world'].
  - destruct (has_error res); simpl; auto.
  - simpl. auto.
Qed.

(** At the end of the six steps, [failed] means [poll_interval] is [1.0],
    whatever it was when the cycle began. *)
Lemma run_steps_failed (E : Env) w :
  failed w = false ->
  (failed (run_steps E w) = true /\ poll_interval (run_steps E w) = 1%Q) \/
  (failed (run_steps E w) = false /\
   poll_interval (run_steps E w) = poll_interval w).
Proof.
  intros Hw. unfold run_steps.
  assert (Hstep : forall s v,
            (failed v = true /\ poll_interval v = 1%Q) \/
            (failed v = false /\ poll_interval v = poll_interval w) ->
            (failed (run_step E s v) = true /\ poll_interval (run_step E s v) = 1%Q) \/
            (failed (run_step E s v) = false /\
             poll_interval (run_step E s v) = poll_interval w)).
  { intros s v Hv.
    destruct (run_step_failed E s v) as [Hf | [Hf Hp]]; [left; exact Hf |].
    rewrite Hf, Hp. exact Hv. }
  repeat apply Hstep. right. auto.
Qed.

Lemma run_steps_at_pc (E : Env) w : at_pc (run_steps E w) = Backoff.
Proof. unfold run_steps. rewrite run_step_at_pc. reflexivity. Qed.

Lemma run_steps_draws (E : Env) w : draws (run_steps E w) = draws w.
Proof. unfold run_steps. rewrite !run_step_draws. reflexivity. Qed.

Lemma tick_backoff (E : Env) (getpid : Z) (dir : string) (poll : Z) (w : Worker) :
  at_pc w = Backoff ->
  poll_interval (tick E getpid dir poll w) = next_poll_interval E poll w /\
  history (tick E getpid dir poll w)
  = history w ++ [RunSleepFor (next_poll_interval E poll w)] /\
  running (tick E getpid dir poll w) = running w /\
  at_pc (tick E getpid dir poll w)
  = Sleeping 0 (Z.to_nat (py_int_of_float (next_poll_interval E poll w))).
Proof. intros H. unfold tick. rewrite H. simpl. auto. Qed.

Lemma sleep_intervals_snoc (h : list run_event) (q : Q) :
  sleep_intervals (h ++ [RunSleepFor q]) = sleep_intervals h ++ [q].
Proof.
  induction h as [| ev h IH]; simpl; [reflexivity |].
  destruct ev; simpl; rewrite IH; reflexivity.
Qed.

(** What the code does where C1 speaks of [2*prev + rand()*prev]: after a
    cycle in which a step failed the next sleep is [2 + rand()], whatever the
    previous interval was; after a cycle without failure it is the configured
    interval. *)
Lemma next_sleep_after_cycle (E : Env) (getpid : Z) (dir : string) (poll : Z)
      (w : Worker) :
  failed w = false ->
  let w6 := run_steps E w in
  let w7 := tick E getpid dir poll w6 in
  (failed w6 = true ->
   (poll_interval w7 == 2 + random E (draws w))%Q /\
   sleep_intervals (history w7)
   = sleep_intervals (history w6) ++ [poll_interval w7]) /\
  (failed w6 = false -> poll_interval w7 = inject_Z poll).
Proof.
  intros Hw w6 w7.
  pose proof (run_steps_at_pc E w) as Hpc.
  pose proof (run_steps_draws E w) as Hdraws.
  pose proof (run_steps_failed E w Hw) as Hfailed.
  fold w6 in Hpc, Hdraws, Hfailed.
  destruct (tick_backoff E getpid dir poll w6 Hpc) as (Hp7 & Hh7 & _).
  fold w7 in Hp7, Hh7.
  clearbody w6 w7.
  rewrite Hh7, Hp7, sleep_intervals_snoc.
  unfold next_poll_interval. split; intros Hf; rewrite Hf.
  - destruct Hfailed as [[_ Hp] | [Hf' _]]; [| congruence].
    rewrite Hp, Hdraws. split; [| reflexivity].
    rewrite Qred_correct. ring.
  - reflexivity.
Qed.

(** C1, on the code.  The configured interval is 300 seconds and every
    random draw is 1/2.  The register of alice.id fails to broadcast in three
    cycles in a row, then the chain recovers.  The sleeps the worker chooses
    are 5/2, 5/2, 5/2 and then 300: every failing step has put
    [poll_interval] back to [1.0] before [2 * poll_interval +
    random.random() * poll_interval] is computed, so that nothing doubles
    from one failing cycle to the next ([2*prev + rand()*prev] with the
    previous sleep for [prev] would give 750, 1875 and 9375/2). *)
Theorem backoff_restarts_from_one_second :
  let w0 := new_worker 300 (Demo.world_of [Demo.preorder_row "alice.id"])
                       Demo.stale_fs in
  let failing := exec Demo.failing_env 1 Demo.config_dir 300 (repeat Tick 40) w0 in
  let recovered := exec Demo.env 1 Demo.config_dir 300 (repeat Tick 10) failing in
  sleep_intervals (history failing) = [5 # 2; 5 # 2; 5 # 2]%Q /\
  at_pc failing = LoopHead /\
  sleep_intervals (history recovered) = [5 # 2; 5 # 2; 5 # 2; 300 # 1]%Q.
Proof. vm_compute. repeat split. Qed.

(* ===================================================================== *)
(** ** The worker loop: stopping *)
(* ===================================================================== *)

Lemma begun_app (h1 h2 : list run_event) : begun (h1 ++ h2) = begun h1 ++ begun h2.
Proof.
  induction h1 as [| ev h1 IH]; simpl; [reflexivity |].
  destruct ev; simpl; rewrite IH; reflexivity.
Qed.

Lemma finish_spec (w : Worker) hist :
  at_pc (finish w hist) = Exited /\ history (finish w hist) = hist /\
  running (finish w hist) = running w.
Proof.
  unfold finish. destruct (lockfile_path w) as [path |]; [| auto].
  destruct (fs_unlink path (fs w)); auto.
Qed.

(** One move of a thread whose [running] flag is down: the flag stays down,
    the thread gets closer to its exit, and the only steps that begin are
    those that remained of the cycle it is in. *)
Lemma tick_when_stopped (E : Env) (getpid : Z) (dir : string) (poll : Z)
      (w : Worker) :
  running w = false ->
  let w' := tick E getpid dir poll w in
  running w' = false /\
  ticks_to_exit (at_pc w') <= Nat.pred (ticks_to_exit (at_pc w)) /\
  begun (history w') ++ remaining_steps (at_pc w')
  = begun (history w) ++ remaining_steps (at_pc w).
Proof.
  intros Hr w'. unfold w', tick.
  destruct (at_pc w) as [| | | | s | | i n |] eqn:Hpc.
  - (* Startup *)
    destruct (acquire_lockfile getpid dir (fs w)) as [fs' locked].
    simpl. rewrite app_nil_r.
    destruct locked; simpl; rewrite ?app_nil_r; auto.
  - (* LoopHead *)
    rewrite Hr.
    destruct (finish_spec w (history w ++ [RunFlagRead false])) as (Ha & Hh & Hrun).
    rewrite Ha, Hh, Hrun, begun_app. simpl. rewrite !app_nil_r. auto.
  - (* WalletGate *)
    destruct (owner_address_unset _); rewrite ?Hr; simpl;
      rewrite ?begun_app; simpl; rewrite ?app_nil_r; auto.
  - (* Preemption *)
    rewrite Hr.
    destruct (finish_spec w (history w ++ [RunFlagRead false])) as (Ha & Hh & Hrun).
    rewrite Ha, Hh, Hrun, begun_app. simpl. rewrite !app_nil_r. auto.
  - (* AtStep *)
    rewrite run_step_at_pc, run_step_history, run_step_running, begun_app.
    simpl. rewrite <- app_assoc.
    split; [exact Hr |]. destruct s; simpl; split; auto.
  - (* Backoff *)
    simpl. rewrite begun_app. simpl. rewrite !app_nil_r. auto.
  - (* Sleeping *)
    destruct (Nat.ltb i n); rewrite ?Hr; simpl;
      rewrite ?begun_app; simpl; rewrite ?app_nil_r; auto.
  - (* Exited *)
    rewrite Hpc. simpl. auto.
Qed.

Lemma act_when_stopped (E : Env) (getpid : Z) (dir : string) (poll : Z)
      (a : action) (w : Worker) :
  running w = false ->
  let w' := act E getpid dir poll a w in
  running w' = false /\
  ticks_to_exit (at_pc w')
  <= match a with
     | Tick => Nat.pred (ticks_to_exit (at_pc w))
     | _ => ticks_to_exit (at_pc w)
     end /\
  begun (history w') ++ remaining_steps (at_pc w')
  = begun (history w) ++ remaining_steps (at_pc w).
Proof.
  intros Hr. destruct a as [| | call]; simpl.
  - apply tick_when_stopped. exact Hr.
  - rewrite begun_app. simpl. rewrite app_nil_r. auto.
  - auto.
Qed.

(** Once the flag is down, any run of the thread that gives it enough moves
    ends with the thread out of [run]; the steps that have begun meanwhile
    are the remaining steps of the cycle it was in, and no others. *)
Lemma exec_when_stopped (E : Env) (getpid : Z) (dir : string) (poll : Z) :
  forall (acts : list action) (w : Worker),
    running w = false ->
    ticks_to_exit (at_pc w) <= count_ticks acts ->
    at_pc (exec E getpid dir poll acts w) = Exited /\
    begun (history (exec E getpid dir poll acts w))
    = begun (history w) ++ remaining_steps (at_pc w).
Proof.
  induction acts as [| a acts IH]; intros w Hr Hn.
  - simpl in *. assert (Hz : ticks_to_exit (at_pc w) = 0) by lia.
    destruct (at_pc w) as [| | | | s | | i n |]; simpl in Hz; try discriminate.
    simpl. rewrite app_nil_r. auto.
  - simpl. destruct (act_when_stopped E getpid dir poll a w Hr) as (Hr' & Hrank & Hb).
    destruct (IH (act E getpid dir poll a w) Hr') as [Hexit Hbegun].
    + destruct a; simpl in *; lia.
    + split; [exact Hexit |]. rewrite Hbegun. exact Hb.
Qed.

(** C5, as the code has it.  The worker reads [self.running] at the head of
    the loop, in every round of the wait for the owner address and at the
    preemption point behind it, and after every second of the sleep between
    two cycles; it does not read it between the steps of a cycle.  Hence,
    once [request_stop] has lowered the flag:
    - a thread at the head of the loop returns from [run];
    - a thread waiting for the owner address reads the flag, leaves the wait
      and returns at the preemption point;
    - a thread in the sleep reads the flag after the second it is in, and
      goes to the head of the loop;
    - whatever else happens, a thread that gets as many moves as
      [ticks_to_exit] counts has returned from [run], and the steps that
      began after the flag went down are exactly the steps that remained of
      the cycle it was in: none if it was not in the middle of a cycle, and
      no step of a later cycle. *)
Theorem stop_observed_at_loop_head_gate_and_sleep :
  forall (E : Env) (getpid : Z) (dir : string) (poll : Z),
    (forall w, at_pc w = LoopHead -> running w = false ->
       at_pc (tick E getpid dir poll w) = Exited /\
       history (tick E getpid dir poll w) = history w ++ [RunFlagRead false]) /\
    (forall w wd, at_pc w = WalletGate -> cur_wallet_data w = Some wd ->
       owner_address_unset wd = true -> running w = false ->
       history (tick E getpid dir poll w) = history w ++ [RunFlagRead false] /\
       at_pc (tick E getpid dir poll w) = Preemption /\
       at_pc (tick E getpid dir poll (tick E getpid dir poll w)) = Exited) /\
    (forall w i n, at_pc w = Sleeping i n -> i < n ->
       history (tick E getpid dir poll w)
       = history w ++ [RunSleep1; RunFlagRead (running w)] /\
       (running w = false -> at_pc (tick E getpid dir poll w) = LoopHead)) /\
    (forall acts w, running w = false ->
       ticks_to_exit (at_pc w) <= count_ticks acts ->
       at_pc (exec E getpid dir poll acts w) = Exited /\
       begun (history (exec E getpid dir poll acts w))
       = begun (history w) ++ remaining_steps (at_pc w)).
Proof.
  intros E getpid dir poll. split; [| split; [| split]].
  - intros w Hpc Hr. unfold tick. rewrite Hpc, Hr.
    destruct (finish_spec w (history w ++ [RunFlagRead false])) as (Ha & Hh & _).
    auto.
  - intros w wd Hpc Hwd Hunset Hr.
    assert (Hfirst : tick E getpid dir poll w
                     = goto Preemption w (history w ++ [RunFlagRead false])).
    { unfold tick. rewrite Hpc, Hwd, Hunset, Hr. reflexivity. }
    rewrite Hfirst. split; [reflexivity |]. split; [reflexivity |].
    unfold tick. simpl. rewrite Hr.
    apply finish_spec.
  - intros w i n Hpc Hlt. unfold tick. rewrite Hpc.
    apply Nat.ltb_lt in Hlt. rewrite Hlt.
    destruct (running w); simpl; split; auto; discriminate.
  - apply exec_when_stopped.
Qed.

(** The stop arrives while the first step of a cycle is running: the other
    five steps of the cycle still begin, then the thread returns without
    sleeping a second and without a step of another cycle. *)
Lemma stop_observed_at_loop_head_gate_and_sleep_witness :
  let w0 := new_worker 300 (Demo.world_of [Demo.preorder_row "alice.id"])
                       Demo.stale_fs in
  let w := exec Demo.env 1 Demo.config_dir 300 [Tick; Tick; Tick; Tick; Tick; Stop] w0 in
  running w = false /\
  at_pc w = AtStep SetZonefiles /\
  ticks_to_exit (at_pc w) <= count_ticks (repeat Tick 8) /\
  at_pc (exec Demo.env 1 Demo.config_dir 300 (repeat Tick 8) w) = Exited /\
  begun (history (exec Demo.env 1 Demo.config_dir 300 (repeat Tick 8) w))
  = [RegisterPreorders; SetZonefiles; ReplicateUpdates; TransferNames;
     ReplicateNameImports; ClearConfirmed].
Proof.
  intros w0 w.
  assert (Hr : running w = false) by reflexivity.
  assert (Hpc : at_pc w = AtStep SetZonefiles) by reflexivity.
  assert (Hn : ticks_to_exit (at_pc w) <= count_ticks (repeat Tick 8)).
  { rewrite Hpc. simpl. lia. }
  destruct (stop_observed_at_loop_head_gate_and_sleep Demo.env 1 Demo.config_dir 300)
    as (_ & _ & _ & Hexit).
  destruct (Hexit (repeat Tick 8) w Hr Hn) as [Hexited Hbegun].
  repeat (split; [assumption |]).
  rewrite Hbegun. reflexivity.
Defined.

(** C5 as stated does not hold between the steps of a cycle.  The thread
    starts, passes the head of the loop, the wallet gate and the preemption
    point, and runs its first step; [request_stop] lowers the flag; the next
    thing the thread does is to begin its second step, without reading the
    flag. *)
Lemma step_begins_after_stop_counterexample :
  let w0 := new_worker 300 (Demo.world_of [Demo.preorder_row "alice.id"])
                       Demo.stale_fs in
  let w := exec Demo.env 1 Demo.config_dir 300
                [Tick; Tick; Tick; Tick; Tick; Stop; Tick] w0 in
  running w = false /\
  history w = [RunFlagRead true; RunFlagRead true;
               RunBeginStep RegisterPreorders;
               RunStopRequested;
               RunBeginStep SetZonefiles].
Proof. vm_compute. split; reflexivity. Qed.

(* ===================================================================== *)
(** * Further properties of the registrar *)
(* ===================================================================== *)

(** ** The issuers: wallet gate, duplicate check, broadcast *)

(** What [async_op] does for a row whose key is not queued yet. *)
Lemma async_op_spec (E : Env) (row : entry) (w : World) :
  in_queue (etype row) (fqu row) (queue w) = false ->
  async_op E row w
  = match b_error (chain_broadcast E (etype row) (fqu row)) with
    | Some e =>
        (Ret (mk_resp None None (Some e) None None None None None
                      (b_tx (chain_broadcast E (etype row) (fqu row)))
                      false false None),
         emit (EvBroadcast (etype row) (fqu row)) w)
    | None =>
        (Ret (mk_resp None (Some true) None None None
                      (Some (b_txid (chain_broadcast E (etype row) (fqu row))))
                      None (zonefile_hash row)
                      (b_tx (chain_broadcast E (etype row) (fqu row)))
                      false false None),
         set_queue (queue w ++ [row]) (emit (EvBroadcast (etype row) (fqu row)) w))
    end.
Proof.
  intros Hq. unfold async_op, queue_append. simpl. rewrite Hq. reflexivity.
Qed.

(** X1.  With the wallet locked (no payment address or no owner address),
    [preorder], [transfer], [renew] and [revoke] answer
    [{'success': False, 'error': 'Wallet is not unlocked.'}] and leave the
    world as it is: nothing is broadcast and nothing is queued.  So does
    [update] when it is given a zone file or a zone file hash; given neither,
    it does not get as far as the wallet: its [assert] (line 1206) comes
    first and raises [AssertionError]. *)
Theorem issuers_refuse_locked_wallet :
  forall (E : Env) (w : World) (name addr : string)
         (zf tok zh xfer : option string),
    wallet_locked (wallet w) = true ->
    preorder E name zf tok xfer w
    = (Ret (failure_resp "Wallet is not unlocked."), w) /\
    transfer E name addr w = (Ret (failure_resp "Wallet is not unlocked."), w) /\
    renew E name w = (Ret (failure_resp "Wallet is not unlocked."), w) /\
    revoke E name w = (Ret (failure_resp "Wallet is not unlocked."), w) /\
    ((zf <> None \/ zh <> None) ->
     update E name zf tok zh xfer w
     = (Ret (failure_resp "Wallet is not unlocked."), w)) /\
    update E name None tok None xfer w
    = (Raise (AssertionError "need zonefile or zonefile hash"), w).
Proof.
  intros E w name addr zf tok zh xfer Hw.
  unfold preorder, transfer, renew, revoke. run_m. rewrite Hw.
  repeat (split; [reflexivity |]).
  split; [| reflexivity].
  intros Hsome. unfold update.
  destruct zf, zh; try (destruct Hsome; congruence); run_m; rewrite Hw; reflexivity.
Qed.

Lemma issuers_refuse_locked_wallet_witness :
  wallet_locked (wallet Demo.locked_world) = true /\
  preorder Demo.env "bob.id" (Some "Z") None None Demo.locked_world
  = (Ret (failure_resp "Wallet is not unlocked."), Demo.locked_world) /\
  update Demo.env "bob.id" (Some "Z") None None None Demo.locked_world
  = (Ret (failure_resp "Wallet is not unlocked."), Demo.locked_world) /\
  update Demo.env "bob.id" None None None None Demo.locked_world
  = (Raise (AssertionError "need zonefile or zonefile hash"), Demo.locked_world).
Proof.
  assert (Hlocked : wallet_locked (wallet Demo.locked_world) = true) by reflexivity.
  split; [exact Hlocked |].
  destruct (issuers_refuse_locked_wallet Demo.env Demo.locked_world "bob.id"
              "addr" (Some "Z") None None None Hlocked)
    as (Hpre & _ & _ & _ & Hupd & Hassert).
  split; [exact Hpre |]. split; [| exact Hassert].
  apply Hupd. left. discriminate.
Defined.

Lemma queued_name_refused :
  forall (E : Env) (w : World) (name addr : string)
         (zf tok zh xfer : option string),
    wallet_locked (wallet w) = false ->
    (in_queue Transfer name (queue w) = true ->
     transfer E name addr w = (Ret (failure_resp "Already in queue."), w)) /\
    (in_queue Renew name (queue w) = true ->
     renew E name w = (Ret (failure_resp "Already in queue."), w)) /\
    (in_queue Revoke name (queue w) = true ->
     revoke E name w = (Ret (failure_resp "Already in queue."), w)) /\
    (in_queue Update name (queue w) = true ->
     (zf <> None \/ zh <> None) ->
     update E name zf tok zh xfer w
     = (Ret (failure_resp "Already in queue."), w)).
Proof.
  intros E w name addr zf tok zh xfer Hw.
  unfold transfer, renew, revoke. run_m. rewrite Hw.
  repeat (split; [intros Hq; rewrite Hq; reflexivity |]).
  intros Hq Hsome. unfold update.
  destruct zf, zh; try (destruct Hsome; congruence); run_m; rewrite Hw, Hq;
    reflexivity.
Qed.

(** X2.  With the wallet unlocked, [preorder], [transfer], [renew] and
    [revoke] called for a name that already has a row of their category in
    the queue answer [{'success': False, 'error': 'Already in queue.'}] and
    leave the world as it is.  So does [update] when it is given a zone file
    or a zone file hash; given neither, it does not get as far as the queue:
    its [assert] (line 1206) comes first and raises [AssertionError]. *)
Theorem issuers_refuse_queued_name :
  forall (E : Env) (w : World) (name addr : string)
         (zf tok zh xfer : option string),
    wallet_locked (wallet w) = false ->
    (in_queue Preorder name (queue w) = true ->
     preorder E name zf tok xfer w = (Ret (failure_resp "Already in queue."), w)) /\
    (in_queue Transfer name (queue w) = true ->
     transfer E name addr w = (Ret (failure_resp "Already in queue."), w)) /\
    (in_queue Renew name (queue w) = true ->
     renew E name w = (Ret (failure_resp "Already in queue."), w)) /\
    (in_queue Revoke name (queue w) = true ->
     revoke E name w = (Ret (failure_resp "Already in queue."), w)) /\
    (in_queue Update name (queue w) = true ->
     (zf <> None \/ zh <> None) ->
     update E name zf tok zh xfer w
     = (Ret (failure_resp "Already in queue."), w)) /\
    update E name None tok None xfer w
    = (Raise (AssertionError "need zonefile or zonefile hash"), w).
Proof.
  intros E w name addr zf tok zh xfer Hw.
  destruct (queued_name_refused E w name addr zf tok zh xfer Hw)
    as (Ht & Hn & Hv & Hu).
  split.
  { intros Hq. unfold preorder. run_m. rewrite Hw, Hq. reflexivity. }
  repeat (split; [assumption |]). reflexivity.
Qed.

Lemma issuers_refuse_queued_name_witness :
  let w := Demo.world_of [Demo.update_row "alice.id" None] in
  wallet_locked (wallet w) = false /\
  in_queue Update "alice.id" (queue w) = true /\
  update Demo.env "alice.id" (Some "Z2") None None None w
  = (Ret (failure_resp "Already in queue."), w).
Proof.
  intros w.
  assert (Hw : wallet_locked (wallet w) = false) by reflexivity.
  assert (Hq : in_queue Update "alice.id" (queue w) = true) by reflexivity.
  split; [exact Hw |]. split; [exact Hq |].
  destruct (issuers_refuse_queued_name Demo.env w "alice.id" "addr"
              (Some "Z2") None None None Hw) as (_ & _ & _ & _ & Hupdate & _).
  apply Hupdate; [exact Hq |]. left. discriminate.
Defined.

(** What an issuer does once the wallet gate and the duplicate check let it
    through, in terms of the reply of the broadcast. *)
Lemma issuer_passes (E : Env) (row : entry) (msg : string) (b1 b2 : bool)
      (w : World) :
  in_queue (etype row) (fqu row) (queue w) = false ->
  bind (async_op E row) (fun r => ret (issuer_reply msg b1 b2 r)) w
  = match b_error (chain_broadcast E (etype row) (fqu row)) with
    | Some e =>
        (Ret (mk_resp (Some false) None (Some e) None
                      (if b1
                       then Some "Couldn't broadcast transaction. You can try again."
                       else None)
                      None None None
                      (b_tx (chain_broadcast E (etype row) (fqu row)))
                      false false None),
         emit (EvBroadcast (etype row) (fqu row)) w)
    | None =>
        (Ret (mk_resp (Some true) None None None (Some msg)
                      (Some (b_txid (chain_broadcast E (etype row) (fqu row))))
                      (if b2 then zonefile_hash row else None) None
                      (b_tx (chain_broadcast E (etype row) (fqu row)))
                      false false None),
         set_queue (queue w ++ [row]) (emit (EvBroadcast (etype row) (fqu row)) w))
    end.
Proof.
  intros Hq. unfold bind. rewrite (async_op_spec E row w Hq).
  destruct (b_error (chain_broadcast E (etype row) (fqu row))); reflexivity.
Qed.

Lemma preorder_passes (E : Env) name zf tok xfer (w : World) :
  wallet_locked (wallet w) = false ->
  in_queue Preorder name (queue w) = false ->
  preorder E name zf tok xfer w
  = bind (async_op E (queued_row E Preorder name zf None tok xfer))
         (fun r => ret (issuer_reply preorder_message true false r)) w.
Proof.
  intros Hw Hq. unfold preorder. run_m. rewrite Hw, Hq. reflexivity.
Qed.

Lemma transfer_passes (E : Env) name addr (w : World) :
  wallet_locked (wallet w) = false ->
  in_queue Transfer name (queue w) = false ->
  transfer E name addr w
  = bind (async_op E (queued_row E Transfer name None None None (Some addr)))
         (fun r => ret (issuer_reply transfer_message false false r)) w.
Proof.
  intros Hw Hq. unfold transfer. run_m. rewrite Hw, Hq. reflexivity.
Qed.

Lemma renew_passes (E : Env) name (w : World) :
  wallet_locked (wallet w) = false ->
  in_queue Renew name (queue w) = false ->
  renew E name w
  = bind (async_op E (queued_row E Renew name None None None None))
         (fun r => ret (issuer_reply renew_message true false r)) w.
Proof.
  intros Hw Hq. unfold renew. run_m. rewrite Hw, Hq. reflexivity.
Qed.

Lemma revoke_passes (E : Env) name (w : World) :
  wallet_locked (wallet w) = false ->
  in_queue Revoke name (queue w) = false ->
  revoke E name w
  = bind (async_op E (queued_row E Revoke name None None None None))
         (fun r => ret (issuer_reply revoke_message true false r)) w.
Proof.
  intros Hw Hq. unfold revoke. run_m. rewrite Hw, Hq. reflexivity.
Qed.

(** X3.  With the wallet unlocked and no row queued for the name, an issuer
    whose broadcast fails hands the chain's error back with [success: False];
    the queue is as it was, and the only trace of the call is the broadcast.
    ([transfer] sets no 'message'; the other issuers add "Couldn't broadcast
    transaction. You can try again.") *)
Theorem issuers_report_failed_broadcast :
  forall (E : Env) (w : World) (name addr e : string) (zf tok xfer : option string),
    wallet_locked (wallet w) = false ->
    (in_queue Preorder name (queue w) = false ->
     b_error (chain_broadcast E Preorder name) = Some e ->
     refused_by_chain E Preorder name e true (preorder E name zf tok xfer) w) /\
    (in_queue Transfer name (queue w) = false ->
     b_error (chain_broadcast E Transfer name) = Some e ->
     refused_by_chain E Transfer name e false (transfer E name addr) w) /\
    (in_queue Renew name (queue w) = false ->
     b_error (chain_broadcast E Renew name) = Some e ->
     refused_by_chain E Renew name e true (renew E name) w) /\
    (in_queue Revoke name (queue w) = false ->
     b_error (chain_broadcast E Revoke name) = Some e ->
     refused_by_chain E Revoke name e true (revoke E name) w).
Proof.
  intros E w name addr e zf tok xfer Hw. unfold refused_by_chain.
  split; [| split; [| split]]; intros Hq Hb.
  - rewrite (preorder_passes E name zf tok xfer w Hw Hq).
    rewrite issuer_passes by exact Hq. simpl. rewrite Hb. reflexivity.
  - rewrite (transfer_passes E name addr w Hw Hq).
    rewrite issuer_passes by exact Hq. simpl. rewrite Hb. reflexivity.
  - rewrite (renew_passes E name w Hw Hq).
    rewrite issuer_passes by exact Hq. simpl. rewrite Hb. reflexivity.
  - rewrite (revoke_passes E name w Hw Hq).
    rewrite issuer_passes by exact Hq. simpl. rewrite Hb. reflexivity.
Qed.

Lemma issuers_report_failed_broadcast_witness :
  wallet_locked (wallet Demo.empty_world) = false /\
  in_queue Renew "alice.id" (queue Demo.empty_world) = false /\
  b_error (chain_broadcast Demo.failing_env Renew "alice.id") = Some "broadcast failed" /\
  refused_by_chain Demo.failing_env Renew "alice.id" "broadcast failed" true
                   (renew Demo.failing_env "alice.id") Demo.empty_world.
Proof.
  assert (Hw : wallet_locked (wallet Demo.empty_world) = false) by reflexivity.
  assert (Hq : in_queue Renew "alice.id" (queue Demo.empty_world) = false)
    by reflexivity.
  assert (Hb : b_error (chain_broadcast Demo.failing_env Renew "alice.id")
               = Some "broadcast failed") by reflexivity.
  split; [exact Hw |]. split; [exact Hq |]. split; [exact Hb |].
  destruct (issuers_report_failed_broadcast Demo.failing_env Demo.empty_world
              "alice.id" "addr" "broadcast failed" None None None Hw)
    as (_ & _ & Hrenew & _).
  exact (Hrenew Hq Hb).
Defined.

(** An issuer that gets through to a chain that accepts the broadcast has
    [issued] its row. *)
Lemma issuer_issues (E : Env) (row : entry) (msg : string) (b1 b2 : bool)
      (call : M resp) (w : World) :
  (forall w0, wallet_locked (wallet w0) = false ->
              in_queue (etype row) (fqu row) (queue w0) = false ->
              call w0 = bind (async_op E row)
                             (fun r => ret (issuer_reply msg b1 b2 r)) w0) ->
  (forall w0, wallet_locked (wallet w0) = false ->
              in_queue (etype row) (fqu row) (queue w0) = true ->
              call w0 = (Ret (failure_resp "Already in queue."), w0)) ->
  tx_hash row = b_txid (chain_broadcast E (etype row) (fqu row)) ->
  wallet_locked (wallet w) = false ->
  in_queue (etype row) (fqu row) (queue w) = false ->
  b_error (chain_broadcast E (etype row) (fqu row)) = None ->
  issued E row call w.
Proof.
  intros Hpass Hrefuse Htx Hw Hq Hb. unfold issued.
  rewrite (Hpass w Hw Hq), issuer_passes by exact Hq. rewrite Hb.
  eexists. split; [reflexivity |]. split; [reflexivity |].
  split; [simpl; rewrite Htx; reflexivity |]. split; [exact Htx |].
  simpl snd. apply Hrefuse.
  - exact Hw.
  - simpl. rewrite in_queue_app. simpl. unfold same_key.
    rewrite category_eqb_refl, String.eqb_refl. simpl. apply orb_true_r.
Qed.

(** X4.  With the wallet unlocked and no row queued for the name, an issuer
    whose broadcast succeeds answers [success: True] with the transaction
    hash, and the queue has grown by exactly one row: the row of the
    operation for the name, queued under that transaction hash.  The
    preorder row carries the zone file, the token file and the transfer
    address for the later stages; the transfer row carries the new address.
    The same issuer called again for the name is then refused. *)
Theorem issuers_queue_what_they_broadcast :
  forall (E : Env) (w : World) (name addr : string) (zf tok xfer : option string),
    wallet_locked (wallet w) = false ->
    (in_queue Preorder name (queue w) = false ->
     b_error (chain_broadcast E Preorder name) = None ->
     issued E (queued_row E Preorder name zf None tok xfer)
            (preorder E name zf tok xfer) w) /\
    (in_queue Transfer name (queue w) = false ->
     b_error (chain_broadcast E Transfer name) = None ->
     issued E (queued_row E Transfer name None None None (Some addr))
            (transfer E name addr) w) /\
    (in_queue Renew name (queue w) = false ->
     b_error (chain_broadcast E Renew name) = None ->
     issued E (queued_row E Renew name None None None None) (renew E name) w) /\
    (in_queue Revoke name (queue w) = false ->
     b_error (chain_broadcast E Revoke name) = None ->
     issued E (queued_row E Revoke name None None None None) (revoke E name) w).
Proof.
  intros E w name addr zf tok xfer Hw.
  split; [| split; [| split]]; intros Hq Hb.
  - apply (issuer_issues E (queued_row E Preorder name zf None tok xfer)
             preorder_message true false); auto.
    + intros w0. apply preorder_passes.
    + intros w0. apply preorder_already_in_queue.
  - apply (issuer_issues E (queued_row E Transfer name None None None (Some addr))
             transfer_message false false); auto.
    + intros w0. apply transfer_passes.
    + intros w0 Hw0 Hq0.
      apply (queued_name_refused E w0 name addr None None None None Hw0).
      exact Hq0.
  - apply (issuer_issues E (queued_row E Renew name None None None None)
             renew_message true false); auto.
    + intros w0. apply renew_passes.
    + intros w0 Hw0 Hq0.
      apply (queued_name_refused E w0 name addr None None None None Hw0).
      exact Hq0.
  - apply (issuer_issues E (queued_row E Revoke name None None None None)
             revoke_message true false); auto.
    + intros w0. apply revoke_passes.
    + intros w0 Hw0 Hq0.
      apply (queued_name_refused E w0 name addr None None None None Hw0).
      exact Hq0.
Qed.

Lemma issuers_queue_what_they_broadcast_witness :
  wallet_locked (wallet Demo.empty_world) = false /\
  in_queue Transfer "alice.id" (queue Demo.empty_world) = false /\
  b_error (chain_broadcast Demo.env Transfer "alice.id") = None /\
  issued Demo.env
         (queued_row Demo.env Transfer "alice.id" None None None (Some "new-owner"))
         (transfer Demo.env "alice.id" "new-owner") Demo.empty_world.
Proof.
  assert (Hw : wallet_locked (wallet Demo.empty_world) = false) by reflexivity.
  assert (Hq : in_queue Transfer "alice.id" (queue Demo.empty_world) = false)
    by reflexivity.
  assert (Hb : b_error (chain_broadcast Demo.env Transfer "alice.id") = None)
    by reflexivity.
  split; [exact Hw |]. split; [exact Hq |]. split; [exact Hb |].
  destruct (issuers_queue_what_they_broadcast Demo.env Demo.empty_world
              "alice.id" "new-owner" None None None Hw)
    as (_ & Htransfer & _).
  exact (Htransfer Hq Hb).
Defined.

(** X5.  [update] works with the hash it is given, and with the hash of the
    zone file text only when it is given none.  When the chain does not
    report that hash as current and the broadcast succeeds, it is that hash
    which is asked about, queued in the update row and handed back as
    'value_hash', next to the transaction hash; the row carries the zone file
    text, the token file and the transfer address. *)
Theorem update_queues_the_hash :
  forall (E : Env) (w : World) (name : string) (txt tok h xfer : option string),
    let hash := match h, txt with
                | Some h', _ => h'
                | None, Some t => get_zonefile_data_hash E t
                | None, None => ""
                end in
    (txt <> None \/ h <> None) ->
    wallet_locked (wallet w) = false ->
    in_queue Update name (queue w) = false ->
    is_zonefile_hash_current E name hash = false ->
    b_error (chain_broadcast E Update name) = None ->
    exists r,
      update E name txt tok h xfer w
      = (Ret r,
         set_queue (queue w ++ [queued_row E Update name txt (Some hash) tok xfer])
                   (emit (EvBroadcast Update name)
                         (emit (EvIsZonefileHashCurrent name hash) w))) /\
      r_success r = Some true /\
      r_value_hash r = Some hash /\
      r_transaction_hash r = Some (b_txid (chain_broadcast E Update name)).
Proof.
  intros E w name txt tok h xfer hash Hsome Hw Hq Hcur Hb.
  rewrite (update_unlocked_unqueued E name txt tok h xfer w hash Hsome eq_refl Hw Hq).
  rewrite Hcur. simpl negb. cbv iota.
  unfold async_update.
  rewrite (issuer_passes E (queued_row E Update name txt (Some hash) tok xfer))
    by exact Hq.
  simpl etype. simpl fqu. rewrite Hb.
  eexists. split; [reflexivity |]. repeat split.
Qed.

Lemma update_queues_the_hash_witness :
  exists r,
    update Demo.env "carol.id" (Some "Z") None (Some "given-hash") None
           Demo.empty_world
    = (Ret r,
       set_queue [queued_row Demo.env Update "carol.id" (Some "Z")
                             (Some "given-hash") None None]
                 (emit (EvBroadcast Update "carol.id")
                       (emit (EvIsZonefileHashCurrent "carol.id" "given-hash")
                             Demo.empty_world))) /\
    r_success r = Some true /\
    r_value_hash r = Some "given-hash" /\
    r_transaction_hash r = Some "tx-carol.id".
Proof.
  apply (update_queues_the_hash Demo.env Demo.empty_world "carol.id" (Some "Z")
           None (Some "given-hash") None).
  - left. discriminate.
  - reflexivity.
  - reflexivity.
  - reflexivity.
  - reflexivity.
Defined.

(* ===================================================================== *)
(** ** Computations that keep a property of the world *)
(* ===================================================================== *)

Lemma keeps_ret {A : Type} (P : World -> Prop) (a : A) : keeps P (ret a).
Proof. intros w H. exact H. Qed.

Lemma keeps_raise {A : Type} (P : World -> Prop) (e : exn) : keeps P (@raise A e).
Proof. intros w H. exact H. Qed.

Lemma keeps_gets {A : Type} (P : World -> Prop) (f : World -> A) : keeps P (gets f).
Proof. intros w H. exact H. Qed.

Lemma keeps_modify (P : World -> Prop) (f : World -> World) :
  (forall w, P w -> P (f w)) -> keeps P (modify f).
Proof. intros Hf w H. apply Hf. exact H. Qed.

Lemma keeps_bind {A B : Type} (P : World -> Prop) (c : M A) (k : A -> M B) :
  keeps P c -> (forall a, keeps P (k a)) -> keeps P (bind c k).
Proof.
  intros Hc Hk w H. unfold bind.
  specialize (Hc w H). destruct (c w) as [[a | e] w1]; simpl in *.
  - apply Hk. exact Hc.
  - exact Hc.
Qed.

Lemma keeps_for_each {A S : Type} (P : World -> Prop) (body : S -> A -> M S) :
  (forall acc x, keeps P (body acc x)) ->
  forall xs acc, keeps P (for_each xs body acc).
Proof.
  intros Hbody xs. induction xs as [| x rest IH]; intros acc; simpl.
  - apply keeps_ret.
  - apply keeps_bind; [apply Hbody | intros a; apply IH].
Qed.

(* ===================================================================== *)
(** ** The registration step *)
(* ===================================================================== *)

Lemma other_names_untouched_refl names w : other_names_untouched names w w.
Proof. unfold other_names_untouched. repeat split; auto. Qed.

Lemma other_names_untouched_trans names1 names2 w w1 w2 :
  other_names_untouched names1 w w1 -> other_names_untouched names2 w1 w2 ->
  other_names_untouched (names1 ++ names2) w w2.
Proof.
  intros (Hw1 & Hq1 & Hr1 & Ht1) (Hw2 & Hq2 & Hr2 & Ht2).
  unfold other_names_untouched. split; [congruence |]. split; [| split].
  - intros c name Hn. rewrite Hq2, Hq1; [reflexivity | |];
      intro; apply Hn; apply in_or_app; auto.
  - intros x Hin Hn. apply Hr2.
    + apply Hr1; [exact Hin |]. intro. apply Hn. apply in_or_app; auto.
    + intro. apply Hn. apply in_or_app; auto.
  - auto.
Qed.

(** Removing the row [v], after appending rows of the same name, and adding
    to the trace, leaves the other names alone. *)
Lemma other_names_untouched_remove (v : entry) (extra : list entry) (w w' : World) tr :
  Forall (fun x => fqu x = fqu v) extra ->
  w' = mk_world (queue_removeall [v] (queue w ++ extra)) (wallet w)
                (replicated_zonefiles w) (replicated_token_file_hashes w)
                (trace w ++ tr) ->
  other_names_untouched [fqu v] w w'.
Proof.
  intros Hextra ->. unfold other_names_untouched. simpl.
  split; [reflexivity |]. split; [| split].
  - intros c name Hn.
    assert (Hne : name <> fqu v) by (intro; apply Hn; left; congruence).
    rewrite in_queue_removeall, in_queue_app.
    assert (Hx : in_queue c name extra = false).
    { unfold in_queue. apply not_true_is_false. intros Hex.
      apply existsb_exists in Hex. destruct Hex as [x [Hin Hk]].
      rewrite Forall_forall in Hextra. specialize (Hextra x Hin).
      apply same_key_iff in Hk. destruct Hk. congruence. }
    rewrite Hx, orb_false_r. apply String.eqb_neq in Hne.
    rewrite Hne, andb_false_r. apply andb_true_r.
  - intros x Hin Hn. apply In_removeall; [apply in_or_app; left; exact Hin |].
    unfold same_key. destruct (String.eqb_spec (fqu x) (fqu v)) as [Heq | Hne].
    + exfalso. apply Hn. left. congruence.
    + apply andb_false_r.
  - intros ev Hin. apply in_or_app. left. exact Hin.
Qed.

(** Adding to the trace alone leaves every name alone. *)
Lemma other_names_untouched_trace names (w w' : World) tr :
  w' = mk_world (queue w) (wallet w) (replicated_zonefiles w)
                (replicated_token_file_hashes w) (trace w ++ tr) ->
  other_names_untouched names w w'.
Proof.
  intros ->. unfold other_names_untouched. simpl. repeat split; auto.
  intros ev Hin. apply in_or_app. left. exact Hin.
Qed.

(** One round of the loop of [register_preorders], for a preorder row that
    is in the queue. *)
Lemma register_preorders_body_spec (E : Env) acc (v : entry) (w : World) :
  etype v = Preorder -> In v (queue w) ->
  exists acc' w',
    register_preorders_body E acc v w = (Ret acc', w') /\
    other_names_untouched [fqu v] w w' /\
    preorder_outcome E v w w' /\
    (has_error acc = true -> has_error acc' = true) /\
    (register_done E w v = false -> has_error acc' = true).
Proof.
  intros Hv Hin.
  assert (Hpre : in_queue Preorder (fqu v) (queue w) = true).
  { apply in_queue_iff. exists v. auto. }
  unfold register_preorders_body, preorder_outcome, register_done, register_row_of.
  unfold bind at 1. unfold gets at 1.
  destruct (in_queue Register (fqu v) (queue w)) eqn:Hreg.
  - (* a register is queued already *)
    exists acc, (set_queue (queue_removeall [v] (queue w)) w).
    split; [reflexivity |]. split.
    { apply (other_names_untouched_remove v [] w _ []); [constructor |].
      unfold set_queue. rewrite !app_nil_r. reflexivity. }
    simpl. rewrite !in_queue_removeall, Hv, String.eqb_refl, Hreg. simpl.
    rewrite andb_false_r.
    repeat split; auto; try discriminate.
  - unfold register_preordered_name. run_m.
    destruct (is_name_registered E (fqu v)) eqn:Hchain; simpl.
    + (* the name is registered already *)
      eexists; eexists. split; [reflexivity |]. split.
      { apply (other_names_untouched_remove v [] w _ [EvIsNameRegistered (fqu v)]);
          [constructor |].
        unfold set_queue, emit. simpl. rewrite app_nil_r. reflexivity. }
      simpl. rewrite !in_queue_removeall, Hv, String.eqb_refl. simpl.
      rewrite andb_false_r.
      repeat split; auto; try discriminate.
    + rewrite Hpre. simpl. rewrite Hreg. simpl.
      unfold async_register.
      rewrite (async_op_spec E (mk_entry Register (fqu v) (txid_of E Register (fqu v))
                                  (zonefile v) (zonefile_hash v) (token_file v)
                                  (transfer_address v) []))
        by exact Hreg.
      simpl etype. simpl fqu.
      destruct (b_error (chain_broadcast E Register (fqu v))) as [e |] eqn:Hb; simpl.
      * (* the broadcast fails *)
        eexists; eexists. split; [reflexivity |]. split.
        { apply (other_names_untouched_trace [fqu v] w _
                   [EvIsNameRegistered (fqu v); EvBroadcast Register (fqu v)]).
          unfold emit. simpl. rewrite <- app_assoc. reflexivity. }
        simpl. rewrite Hpre.
        repeat split; auto; try discriminate.
      * (* the register is broadcast and queued *)
        eexists; eexists. split; [reflexivity |]. split.
        { apply (other_names_untouched_remove v
                   [queued_row E Register (fqu v) (zonefile v) (zonefile_hash v)
                               (token_file v) (transfer_address v)]
                   w _ [EvIsNameRegistered (fqu v); EvBroadcast Register (fqu v)]).
          - constructor; [reflexivity | constructor].
          - unfold set_queue, emit. simpl. rewrite <- app_assoc. reflexivity. }
        simpl. rewrite !in_queue_removeall, !in_queue_app, Hv, String.eqb_refl.
        simpl. rewrite ?String.eqb_refl. simpl.
        rewrite ?orb_true_r, ?andb_false_r.
        split; [| split; [auto | discriminate]].
        split; [reflexivity |]. split; [discriminate |]. split.
        -- intros _. right. unfold same_key. simpl.
           rewrite String.eqb_refl. simpl. rewrite orb_true_r. reflexivity.
        -- intros _ _ _. split.
           ++ apply In_removeall; [apply in_or_app; right; left; reflexivity |].
              rewrite Hv. reflexivity.
           ++ apply in_or_app. right. left. reflexivity.
Qed.

Lemma register_done_frame (E : Env) (u : entry) (w w1 : World) :
  in_queue Register (fqu u) (queue w1) = in_queue Register (fqu u) (queue w) ->
  register_done E w1 u = register_done E w u.
Proof. intros H. unfold register_done. rewrite H. reflexivity. Qed.

(** The outcome of a row stands when the names touched afterwards are
    others. *)
Lemma preorder_outcome_later (E : Env) (u : entry) names (w w1 w' : World) :
  ~ In (fqu u) names ->
  other_names_untouched names w1 w' ->
  preorder_outcome E u w w1 -> preorder_outcome E u w w'.
Proof.
  intros Hn (_ & Hq & Hrows & Htrace) (Hgone & Hleft & Hreg & Hsent).
  unfold preorder_outcome. rewrite !Hq by exact Hn.
  split; [exact Hgone |]. split; [| split].
  - intros Hd. apply Hrows; [apply Hleft; exact Hd | exact Hn].
  - exact Hreg.
  - intros H1 H2 H3. destruct (Hsent H1 H2 H3) as [Hrow Hev]. split.
    + apply Hrows; [exact Hrow | exact Hn].
    + apply Htrace. exact Hev.
Qed.

(** The loop of [register_preorders] over rows with distinct names that are
    in the queue: it returns, and every row ends as [preorder_outcome]
    says. *)
Lemma register_preorders_loop_spec (E : Env) :
  forall (l : list entry) acc (w : World),
    NoDup (map fqu l) ->
    (forall x, In x l -> etype x = Preorder /\ In x (queue w)) ->
    exists acc' w',
      for_each l (register_preorders_body E) acc w = (Ret acc', w') /\
      other_names_untouched (map fqu l) w w' /\
      (has_error acc = true -> has_error acc' = true) /\
      forall u, In u l ->
                preorder_outcome E u w w' /\
                (register_done E w u = false -> has_error acc' = true).
Proof.
  induction l as [| v rest IH]; intros acc w Hnodup Hrows.
  - exists acc, w. split; [reflexivity |].
    split; [apply other_names_untouched_refl |]. split; [auto |]. intros u [].
  - simpl in Hnodup. inversion Hnodup as [| ? ? Hfresh Hnodup']; subst.
    destruct (Hrows v (or_introl eq_refl)) as [Hv Hvin].
    destruct (register_preorders_body_spec E acc v w Hv Hvin)
      as (acc1 & w1 & Hrun1 & Hframe1 & Hout1 & Hsticky1 & Hfail1).
    assert (Hrows1 : forall x, In x rest -> etype x = Preorder /\ In x (queue w1)).
    { intros x Hx. destruct (Hrows x (or_intror Hx)) as [Hxt Hxin].
      split; [exact Hxt |].
      destruct Hframe1 as (_ & _ & Hkeep & _). apply Hkeep; [exact Hxin |].
      intros [Heq | []]. apply Hfresh. rewrite Heq. apply in_map. exact Hx. }
    destruct (IH acc1 w1 Hnodup' Hrows1)
      as (acc' & w' & Hrun & Hframe & Hsticky & Hall).
    exists acc', w'. split.
    { simpl. unfold bind. rewrite Hrun1. exact Hrun. }
    split.
    { exact (other_names_untouched_trans [fqu v] (map fqu rest) w w1 w'
               Hframe1 Hframe). }
    split; [auto |].
    intros u [<- | Hin].
    + split.
      * eapply preorder_outcome_later; eassumption.
      * intros Hd. apply Hsticky. apply Hfail1. exact Hd.
    + assert (Hne : ~ In (fqu u) [fqu v]).
      { intros [Heq | []]. apply Hfresh. rewrite Heq. apply in_map. exact Hin. }
      destruct Hframe1 as (_ & Hq1 & _ & _).
      pose proof (register_done_frame E u w w1 (Hq1 Register (fqu u) Hne)) as Hd.
      destruct (Hall u Hin) as [Hout Hfail].
      unfold preorder_outcome in *. rewrite Hd in Hout, Hfail.
      rewrite (Hq1 Register (fqu u) Hne) in Hout.
      split; assumption.
Qed.

Lemma unique_keys_find_accepted (E : Env) (c : category) (q : list entry) :
  unique_keys q -> NoDup (map fqu (queue_find_accepted E c q)).
Proof.
  unfold unique_keys, queue_find_accepted.
  induction q as [| x q IH]; intros Hq; simpl; [constructor |].
  simpl in Hq. inversion Hq as [| ? ? Hfresh Hq']; subst.
  destruct (category_eqb (etype x) c && tx_accepted E (tx_hash x)) eqn:Hx.
  - simpl. constructor; [| apply IH; exact Hq'].
    intros Hin. apply in_map_iff in Hin. destruct Hin as [y [Hy Hin]].
    apply filter_In in Hin. destruct Hin as [Hin Hfy].
    apply andb_true_iff in Hx. destruct Hx as [Hx _].
    apply andb_true_iff in Hfy. destruct Hfy as [Hfy _].
    destruct (category_eqb_spec (etype x) c); [| discriminate].
    destruct (category_eqb_spec (etype y) c); [| discriminate].
    apply Hfresh. apply in_map_iff. exists y. split; [| exact Hin].
    congruence.
  - apply IH. exact Hq'.
Qed.

(** X7.  Let the queue hold at most one row per category and name, and let
    [u] be a confirmed preorder row.  [register_preorders] returns (it never
    raises), and afterwards:
    - no preorder row for the name is left exactly when a register of the
      name was queued already, or the chain has the name registered already,
      or the register was broadcast with success;
    - otherwise the preorder row is still there and the step reports
      ['error'];
    - a preorder row is only dropped for a name that is registered on the
      chain or has a register row; the register row that is queued now
      carries forward the zone file, the token file and the transfer address
      of the preorder row. *)
Theorem register_preorders_drops_row_iff :
  forall (E : Env) (wd : wallet_data) (w : World) (u : entry),
    unique_keys (queue w) ->
    In u (get_confirmed_preorders E (queue w)) ->
    exists (r : resp) (w' : World),
      register_preorders E wd w = (Ret r, w') /\
      (in_queue Preorder (fqu u) (queue w') = false <->
       (in_queue Register (fqu u) (queue w) = true \/
        is_name_registered E (fqu u) = true \/
        b_error (chain_broadcast E Register (fqu u)) = None)) /\
      (in_queue Preorder (fqu u) (queue w') = true ->
       In u (queue w') /\ has_error r = true) /\
      (in_queue Preorder (fqu u) (queue w') = false ->
       is_name_registered E (fqu u) = true \/
       in_queue Register (fqu u) (queue w') = true) /\
      (in_queue Register (fqu u) (queue w) = false ->
       is_name_registered E (fqu u) = false ->
       b_error (chain_broadcast E Register (fqu u)) = None ->
       In (register_row_of E u) (queue w') /\
       In (EvBroadcast Register (fqu u)) (trace w')).
Proof.
  intros E wd w u Huniq Hin.
  assert (Hrows : forall x, In x (get_confirmed_preorders E (queue w)) ->
                            etype x = Preorder /\ In x (queue w)).
  { intros x Hx. apply filter_In in Hx. destruct Hx as [Hxin Hx].
    apply andb_true_iff in Hx. destruct Hx as [Hx _].
    destruct (category_eqb_spec (etype x) Preorder); [auto | discriminate]. }
  destruct (register_preorders_loop_spec E (get_confirmed_preorders E (queue w))
              status_ok w (unique_keys_find_accepted E Preorder (queue w) Huniq)
              Hrows)
    as (r & w' & Hrun & _ & _ & Hall).
  destruct (Hall u Hin) as [(Hgone & Hleft & Hreg & Hsent) Hfail].
  exists r, w'. split.
  { unfold register_preorders. run_m. exact Hrun. }
  assert (Hdone : register_done E w u = true <->
                  (in_queue Register (fqu u) (queue w) = true \/
                   is_name_registered E (fqu u) = true \/
                   b_error (chain_broadcast E Register (fqu u)) = None)).
  { unfold register_done. rewrite !orb_true_iff.
    destruct (b_error (chain_broadcast E Register (fqu u))); intuition congruence. }
  split; [| split; [| split]].
  - rewrite Hgone, negb_false_iff. exact Hdone.
  - rewrite Hgone, negb_true_iff. intros Hd. auto.
  - rewrite Hgone, negb_false_iff. exact Hreg.
  - exact Hsent.
Qed.

Lemma register_preorders_drops_row_iff_witness :
  let w := Demo.world_of [Demo.preorder_row "alice.id"; Demo.preorder_row "bob.id";
                          Demo.register_row "bob.id"] in
  let u := Demo.preorder_row "alice.id" in
  unique_keys (queue w) /\
  In u (get_confirmed_preorders Demo.env (queue w)) /\
  exists (r : resp) (w' : World),
    register_preorders Demo.env Demo.wd w = (Ret r, w') /\
    in_queue Preorder (fqu u) (queue w') = false /\
    In (register_row_of Demo.env u) (queue w').
Proof.
  intros w u.
  assert (Huniq : unique_keys (queue w)).
  { unfold unique_keys. simpl. repeat constructor; simpl; intuition discriminate. }
  assert (Hin : In u (get_confirmed_preorders Demo.env (queue w))).
  { simpl. left. reflexivity. }
  split; [exact Huniq |]. split; [exact Hin |].
  destruct (register_preorders_drops_row_iff Demo.env Demo.wd w u Huniq Hin)
    as (r & w' & Hrun & Hiff & _ & _ & Hrow).
  exists r, w'. split; [exact Hrun |]. split.
  - apply Hiff. right. right. reflexivity.
  - apply Hrow; reflexivity.
Defined.

(* ===================================================================== *)
(** ** The zone file step *)
(* ===================================================================== *)

(** What a call of [update] leaves behind: at most one more row, an update
    row of the name, and a longer trace; the row is there whenever the answer
    has a transaction hash. *)
Lemma update_shape (E : Env) name txt tok h xfer (w : World) :
  exists extra tr,
    snd (update E name txt tok h xfer w)
    = mk_world (queue w ++ extra) (wallet w) (replicated_zonefiles w)
               (replicated_token_file_hashes w) (trace w ++ tr) /\
    Forall (fun x => etype x = Update /\ fqu x = name) extra /\
    (forall res, fst (update E name txt tok h xfer w) = Ret res ->
                 r_transaction_hash res <> None -> extra <> []).
Proof.
  assert (Hsame : w = mk_world (queue w ++ []) (wallet w) (replicated_zonefiles w)
                               (replicated_token_file_hashes w) (trace w ++ [])).
  { rewrite !app_nil_r. destruct w; reflexivity. }
  destruct (wallet_locked (wallet w)) eqn:Hw.
  { exists [], []. destruct txt, h; unfold update; run_m; rewrite ?Hw; simpl;
      (split; [exact Hsame |]); (split; [constructor |]);
      intros res Hres Htx; inversion Hres; subst; simpl in Htx; congruence. }
  destruct (in_queue Update name (queue w)) eqn:Hq.
  { exists [], []. destruct txt, h; unfold update; run_m; rewrite ?Hw, ?Hq; simpl;
      (split; [exact Hsame |]); (split; [constructor |]);
      intros res Hres Htx; inversion Hres; subst; simpl in Htx; congruence. }
  destruct txt as [t |] eqn:Ht, h as [h' |] eqn:Hh.
  4:{ exists [], []. unfold update, raise. simpl.
      split; [exact Hsame |]. split; [constructor |]. intros res Hres. discriminate. }
  all: match goal with
       | |- context [update ?e ?n ?a ?k ?b ?x ?w0] =>
           rewrite (update_unlocked_unqueued e n a k b x w0 _
                      ltac:(first [left; discriminate | right; discriminate])
                      eq_refl Hw Hq)
       end;
    match goal with
    | |- context [is_zonefile_hash_current ?e ?n ?hash] =>
        destruct (is_zonefile_hash_current e n hash); simpl negb; cbv iota;
        [ exists [], [EvIsZonefileHashCurrent n hash]; simpl;
          rewrite app_nil_r; split; [reflexivity |]; split; [apply Forall_nil |];
          intros res Hres Htx; inversion Hres; subst; simpl in Htx; congruence
        | unfold async_update;
          match goal with
          | |- context [async_op ?e ?row] =>
              rewrite (issuer_passes e row update_message true true) by exact Hq;
              simpl etype; simpl fqu;
              destruct (b_error (chain_broadcast e Update n));
              [ exists [], [EvIsZonefileHashCurrent n hash; EvBroadcast Update n];
                unfold emit; simpl; rewrite app_nil_r, <- app_assoc;
                split; [reflexivity |]; split; [apply Forall_nil |];
                intros res Hres Htx; inversion Hres; subst; simpl in Htx; congruence
              | exists [row],
                       [EvIsZonefileHashCurrent n hash; EvBroadcast Update n];
                unfold emit, set_queue; simpl; rewrite <- app_assoc;
                split; [reflexivity |];
                split; [constructor; [split; reflexivity | constructor] |];
                intros; discriminate ]
          end ]
    end.
Qed.

(** What a call of [set_zonefile] leaves behind: as for [update], and the
    update row is there whenever it answers without 'error'. *)
Lemma set_zonefile_shape (E : Env) (v : entry) (w : World) :
  exists extra tr,
    snd (set_zonefile E v w)
    = mk_world (queue w ++ extra) (wallet w) (replicated_zonefiles w)
               (replicated_token_file_hashes w) (trace w ++ tr) /\
    Forall (fun x => etype x = Update /\ fqu x = fqu v) extra /\
    (forall res, fst (set_zonefile E v w) = Ret res ->
                 has_error res = false -> extra <> []).
Proof.
  unfold set_zonefile, bind, gets, raise, ret.
  destruct (in_queue Update (fqu v) (queue w)) eqn:Hq.
  { exists [], []. simpl. rewrite !app_nil_r.
    split; [destruct w; reflexivity |]. split; [apply Forall_nil |].
    intros res Hres. discriminate. }
  destruct (update_shape E (fqu v) (zonefile v) (token_file v) (zonefile_hash v)
                         (transfer_address v) w) as (extra & tr & Hw' & Hall & Hrow).
  exists extra, tr.
  destruct (update E (fqu v) (zonefile v) (token_file v) (zonefile_hash v)
                   (transfer_address v) w) as [[res | e] w1] eqn:Hu;
    simpl in Hw'; subst w1.
  - destruct (r_success res) as [[|] |] eqn:Hs.
    + destruct (r_transaction_hash res) as [t |] eqn:Ht.
      * destruct (r_value_hash res) as [vh |] eqn:Hv; simpl;
          (split; [reflexivity |]); (split; [exact Hall |]);
          intros res' Hres' Herr; try discriminate;
          apply (Hrow res eq_refl); congruence.
      * simpl. split; [reflexivity |]. split; [exact Hall |].
        intros res' Hres'. discriminate.
    + destruct (r_error res) as [err |] eqn:He; simpl;
        (split; [reflexivity |]); (split; [exact Hall |]);
        intros res' Hres' Herr; try discriminate.
      inversion Hres'; subst res'. discriminate.
    + simpl. split; [reflexivity |]. split; [exact Hall |].
      intros res' Hres'. discriminate.
  - simpl. split; [reflexivity |]. split; [exact Hall |].
    intros res' Hres'. discriminate.
Qed.

Lemma registers_followed_refl (w : World) : registers_followed w w.
Proof. split; auto. Qed.

Lemma registers_followed_trans (w w1 w2 : World) :
  registers_followed w w1 -> registers_followed w1 w2 -> registers_followed w w2.
Proof.
  intros [Hr1 Hu1] [Hr2 Hu2]. split.
  - intros r Hin Ht. destruct (Hr1 r Hin Ht) as [Hin1 | Hup].
    + apply Hr2; assumption.
    + right. apply Hu2. exact Hup.
  - intros name H. apply Hu2, Hu1, H.
Qed.

(** A longer queue loses nothing. *)
Lemma registers_followed_grow (w w' : World) extra :
  queue w' = (queue w ++ extra)%list -> registers_followed w w'.
Proof.
  intros Hq. split.
  - intros r Hin _. left. rewrite Hq. apply in_or_app. left. exact Hin.
  - intros name H. rewrite Hq, in_queue_app, H. reflexivity.
Qed.

(** Taking the register row [v] out loses nothing once an update of its name
    is queued. *)
Lemma registers_followed_remove (v : entry) (w : World) :
  etype v = Register ->
  in_queue Update (fqu v) (queue w) = true ->
  registers_followed w (set_queue (queue_removeall [v] (queue w)) w).
Proof.
  intros Hv Hup. split; simpl.
  - intros r Hin Hr.
    destruct (same_key (etype v) (fqu v) r) eqn:Hk.
    + right. apply same_key_iff in Hk. destruct Hk as [_ Hf].
      rewrite in_queue_removeall, Hf, Hup, Hv. reflexivity.
    + left. apply In_removeall; assumption.
  - intros name H. rewrite in_queue_removeall, H, Hv. reflexivity.
Qed.

Lemma set_zonefiles_body_followed (E : Env) acc (v : entry) (w : World) :
  etype v = Register ->
  registers_followed w (snd (set_zonefiles_body E acc v w)).
Proof.
  intros Hv. unfold set_zonefiles_body. unfold bind at 1. unfold gets at 1.
  destruct (in_queue Update (fqu v) (queue w)) eqn:Hq.
  { run_m. apply registers_followed_remove; assumption. }
  destruct (set_zonefile_shape E v w) as (extra & tr & Hw' & Hall & Hrow).
  unfold bind at 1.
  destruct (set_zonefile E v w) as [[res | e] w1] eqn:Hs; simpl in Hw'.
  - destruct (has_error res) eqn:Herr.
    + simpl. apply (registers_followed_grow w w1 extra). subst w1. reflexivity.
    + run_m.
      apply registers_followed_trans with (w1 := w1).
      * apply (registers_followed_grow w w1 extra). subst w1. reflexivity.
      * apply registers_followed_remove; [exact Hv |].
        specialize (Hrow res eq_refl Herr).
        destruct extra as [| x extra]; [congruence |].
        inversion Hall as [| ? ? [Hx1 Hx2] _]; subst.
        simpl. rewrite in_queue_app. apply orb_true_iff. right.
        simpl. unfold same_key. rewrite Hx1, Hx2, String.eqb_refl. reflexivity.
  - simpl. apply (registers_followed_grow w w1 extra). subst w1. reflexivity.
Qed.

Lemma set_zonefiles_loop_followed (E : Env) :
  forall (l : list entry) acc (w : World),
    Forall (fun v => etype v = Register) l ->
    registers_followed w (snd (for_each l (set_zonefiles_body E) acc w)).
Proof.
  induction l as [| v l IH]; intros acc w Hl.
  - apply registers_followed_refl.
  - inversion Hl as [| ? ? Hv Hl']; subst. simpl. unfold bind.
    pose proof (set_zonefiles_body_followed E acc v w Hv) as Hstep.
    destruct (set_zonefiles_body E acc v w) as [[acc1 | e] w1]; simpl in *.
    + apply registers_followed_trans with (w1 := w1); [exact Hstep |].
      apply IH. exact Hl'.
    + exact Hstep.
Qed.

Lemma find_accepted_category (E : Env) (c : category) (q : list entry) :
  Forall (fun v => etype v = c) (queue_find_accepted E c q).
Proof.
  apply Forall_forall. intros v Hin. unfold queue_find_accepted in Hin.
  apply filter_In in Hin. destruct Hin as [_ Hk].
  apply andb_true_iff in Hk. destruct Hk as [Hk _].
  destruct (etype v), c; simpl in Hk; congruence.
Qed.

(** X8.  [set_zonefiles] loses no name between its registration and its
    update, whatever the chain, the wallet and the broadcasts do and whether
    the call returns or raises: a register row that was queued before the call
    is still queued after it, or an update row of its name is; and no update
    row's name leaves the queue. *)
Theorem set_zonefiles_keeps_registered_names :
  forall (E : Env) (w : World),
    registers_followed w (snd (set_zonefiles E w)).
Proof.
  intros E w. unfold set_zonefiles. unfold bind, gets. simpl.
  apply set_zonefiles_loop_followed.
  apply find_accepted_category.
Qed.

(** X9.  A register row whose zone file hash the chain already reports as
    current stops [set_zonefile] with an exception: [update] answers
    [{'success': True, 'warning': ...}], which has no 'transaction_hash', so
    the check of the answer raises [Exception("Invalid response...")].
    Nothing is broadcast or queued; only the look-up is in the trace. *)
Theorem set_zonefile_current_hash_raises :
  forall (E : Env) (v : entry) (w : World),
    wallet_locked (wallet w) = false ->
    in_queue Update (fqu v) (queue w) = false ->
    (zonefile v <> None \/ zonefile_hash v <> None) ->
    is_zonefile_hash_current E (fqu v) (row_zonefile_hash E v) = true ->
    set_zonefile E v w
    = (Raise (Exception "Invalid response"),
       emit (EvIsZonefileHashCurrent (fqu v) (row_zonefile_hash E v)) w).
Proof.
  intros E v w Hw Hq Hsome Hcur.
  unfold set_zonefile. unfold bind at 1. unfold gets at 1. rewrite Hq.
  unfold bind.
  rewrite (update_unlocked_unqueued E (fqu v) (zonefile v) (token_file v)
             (zonefile_hash v) (transfer_address v) w (row_zonefile_hash E v)
             Hsome eq_refl Hw Hq).
  rewrite Hcur. reflexivity.
Qed.

Lemma set_zonefile_current_hash_raises_witness :
  set_zonefile Demo.current_env (Demo.register_row "alice.id")
               (Demo.world_of [Demo.register_row "alice.id"])
  = (Raise (Exception "Invalid response"),
     emit (EvIsZonefileHashCurrent "alice.id" "hash(Z)")
          (Demo.world_of [Demo.register_row "alice.id"])).
Proof.
  apply (set_zonefile_current_hash_raises Demo.current_env
           (Demo.register_row "alice.id")
           (Demo.world_of [Demo.register_row "alice.id"])).
  - reflexivity.
  - reflexivity.
  - left. discriminate.
  - reflexivity.
Defined.

(* ===================================================================== *)
(** ** Clearing the queue *)
(* ===================================================================== *)

Lemma filter_all {A : Type} (f : A -> bool) (l : list A) :
  (forall x, In x l -> f x = true) -> filter f l = l.
Proof.
  induction l as [| x l IH]; intros H; simpl; [reflexivity |].
  rewrite (H x (or_introl eq_refl)). f_equal. apply IH.
  intros y Hy. apply H. right. exact Hy.
Qed.

Lemma filter_twice {A : Type} (f g : A -> bool) (l : list A) :
  filter f (filter g l) = filter (fun x => g x && f x) l.
Proof.
  induction l as [| x l IH]; simpl; [reflexivity |].
  destruct (g x); simpl; [destruct (f x) |]; rewrite IH; reflexivity.
Qed.

Lemma key_confirmed_iff (E : Env) (q : list entry) (x : entry) :
  key_confirmed E q x = true
  <-> exists y, In y q /\ etype y = etype x /\ fqu y = fqu x /\ confirmed E y = true.
Proof.
  unfold key_confirmed. rewrite existsb_exists. split.
  - intros [y [Hin Hk]]. apply andb_true_iff in Hk. destruct Hk as [Hk Hc].
    apply same_key_iff in Hk. exists y. tauto.
  - intros [y (Hin & Ht & Hf & Hc)]. exists y. split; [exact Hin |].
    apply andb_true_iff. split; [| exact Hc]. apply same_key_iff. auto.
Qed.

(** Rows of other categories leaving the queue do not change whether the key
    of [x] has a confirmed row. *)
Lemma key_confirmed_filter (E : Env) (f : entry -> bool) (q : list entry) (x : entry) :
  (forall y, etype y = etype x -> f y = true) ->
  key_confirmed E (filter f q) x = key_confirmed E q x.
Proof.
  intros Hf. apply Bool.eq_iff_eq_true. rewrite !key_confirmed_iff.
  split; intros [y (Hin & Ht & Hk)]; exists y; (split; [| auto]).
  - apply filter_In in Hin. tauto.
  - apply filter_In. auto.
Qed.

Lemma survives_filter (E : Env) (c c' : category) (q0 q : list entry) (x : entry) :
  c <> c' ->
  survives E c (filter (survives E c' q0) q) x = survives E c q x.
Proof.
  intros Hc. unfold survives at 1 3.
  destruct (category_eqb_spec (etype x) c) as [Hx | Hx]; [| reflexivity].
  simpl. f_equal. apply key_confirmed_filter.
  intros y Hy. unfold survives.
  destruct (category_eqb_spec (etype y) c') as [Hy' | Hy']; [| reflexivity].
  congruence.
Qed.

(** The row removal [queue_removeall] makes for the confirmed rows of a
    category. *)
Lemma removeall_accepted (E : Env) (c : category) (q : list entry) :
  queue_removeall (queue_find_accepted E c q) q = filter (survives E c q) q.
Proof.
  unfold queue_removeall. apply filter_ext. intros x. unfold survives. f_equal.
  apply Bool.eq_iff_eq_true.
  rewrite andb_true_iff, key_confirmed_iff, existsb_exists. split.
  - intros [r [Hin Hk]]. apply same_key_iff in Hk. destruct Hk as [Ht Hf].
    unfold queue_find_accepted in Hin. apply filter_In in Hin.
    destruct Hin as [Hin Hacc]. apply andb_true_iff in Hacc.
    destruct Hacc as [Hc Hacc].
    destruct (category_eqb_spec (etype r) c) as [Hr |]; [| discriminate].
    split.
    + destruct (category_eqb_spec (etype x) c); [reflexivity | congruence].
    + exists r. unfold confirmed. auto.
  - intros [Hx [y (Hin & Ht & Hf & Hc)]].
    destruct (category_eqb_spec (etype x) c) as [Hxc |]; [| discriminate].
    exists y. split.
    + unfold queue_find_accepted. apply filter_In. split; [exact Hin |].
      apply andb_true_iff. split; [| exact Hc].
      destruct (category_eqb_spec (etype y) c); [reflexivity | congruence].
    + apply same_key_iff. auto.
Qed.

Lemma clear_queue_spec (E : Env) (c : category) (w : World) :
  clear_queue E c w
  = (Ret tt, set_queue (filter (survives E c (queue w)) (queue w)) w).
Proof.
  unfold clear_queue. unfold bind, gets.
  rewrite <- removeall_accepted.
  destruct (queue_find_accepted E c (queue w)) as [| a rest] eqn:Hacc.
  - unfold ret, queue_removeall. simpl. rewrite filter_all by reflexivity.
    destruct w; reflexivity.
  - reflexivity.
Qed.

(** [clear_confirmed] as one pass over the queue. *)
Lemma clear_confirmed_spec (E : Env) (w : World) :
  clear_confirmed E w
  = (Ret status_ok,
     set_queue (filter (fun x => negb (cleared E (queue w) x)) (queue w)) w).
Proof.
  unfold clear_confirmed. unfold bind.
  rewrite !clear_queue_spec. unfold modify, ret. simpl.
  f_equal. unfold set_queue. simpl. f_equal.
  unfold cleanup_preorder_queue.
  set (q := queue w).
  rewrite (filter_ext _ _ (fun x => survives_filter E Revoke Transfer q q x
                                      ltac:(discriminate))).
  rewrite (filter_ext (survives E Renew _) (survives E Renew q)).
  2:{ intros x. rewrite !survives_filter by discriminate. reflexivity. }
  rewrite (filter_ext (survives E NameImport _) (survives E NameImport q)).
  2:{ intros x. rewrite !survives_filter by discriminate. reflexivity. }
  rewrite !filter_twice. apply filter_ext. intros x.
  unfold survives, cleared.
  destruct (etype x); simpl;
    destruct (key_confirmed E q x); destruct (preorder_expired E x); reflexivity.
Qed.

(** Nothing that is left after [clear_confirmed] would be cleared again. *)
Lemma cleared_again (E : Env) (q : list entry) (x : entry) :
  In x (filter (fun y => negb (cleared E q y)) q) ->
  cleared E (filter (fun y => negb (cleared E q y)) q) x = false.
Proof.
  intros Hin. apply filter_In in Hin. destruct Hin as [Hin Hx].
  apply negb_true_iff in Hx. unfold cleared in *.
  apply orb_false_iff in Hx. destruct Hx as [Hterm Hexp].
  rewrite Hexp, orb_false_r.
  destruct (is_terminal (etype x)); [| reflexivity]. simpl in *.
  destruct (key_confirmed E (filter _ q) x) eqn:Hk; [| reflexivity].
  apply key_confirmed_iff in Hk. destruct Hk as [y (Hy & Hrest)].
  apply filter_In in Hy. destruct Hy as [Hy _].
  assert (Htrue : key_confirmed E q x = true).
  { apply key_confirmed_iff. exists y. auto. }
  congruence.
Qed.

Lemma unique_keys_same_row (q : list entry) (x y : entry) :
  unique_keys q -> In x q -> In y q ->
  etype y = etype x -> fqu y = fqu x -> y = x.
Proof.
  unfold unique_keys. induction q as [| z q IH]; intros Hq Hx Hy Ht Hf;
    [contradiction |].
  simpl in Hq. inversion Hq as [| ? ? Hfresh Hq']; subst.
  assert (Hkey : forall a, In a q -> (etype a, fqu a) <> (etype z, fqu z)).
  { intros a Ha Heq. apply Hfresh. rewrite <- Heq.
    apply (in_map (fun e => (etype e, fqu e))). exact Ha. }
  destruct Hx as [-> | Hx], Hy as [-> | Hy].
  - reflexivity.
  - exfalso. apply (Hkey y Hy). congruence.
  - exfalso. apply (Hkey x Hx). congruence.
  - apply IH; assumption.
Qed.

(** X10.  With one row per category and name in the queue, [clear_confirmed]
    answers [{'status': True}] and takes out exactly the confirmed rows of
    the categories transfer, revoke, renew and name_import and the expired
    preorders: every other row stays, in particular a confirmed preorder,
    register or update.  Wallet, trace and the replication memory are
    untouched. *)
Theorem clear_confirmed_removes_exactly :
  forall (E : Env) (w : World),
    unique_keys (queue w) ->
    fst (clear_confirmed E w) = Ret status_ok /\
    (forall x,
       In x (queue (snd (clear_confirmed E w)))
       <-> In x (queue w) /\
           (is_terminal (etype x) && confirmed E x = false) /\
           (category_eqb (etype x) Preorder && preorder_expired E x = false)) /\
    snd (clear_confirmed E w)
    = set_queue (queue (snd (clear_confirmed E w))) w.
Proof.
  intros E w Hq. rewrite clear_confirmed_spec. simpl.
  split; [reflexivity |]. split; [| reflexivity].
  intros x. rewrite filter_In, negb_true_iff. unfold cleared.
  rewrite orb_false_iff.
  split; intros [Hin H]; (split; [exact Hin |]).
  - destruct H as [Hterm Hexp]. split; [| exact Hexp].
    destruct (is_terminal (etype x)); [| reflexivity]. simpl in *.
    destruct (confirmed E x) eqn:Hc; [| reflexivity].
    rewrite <- Hterm. symmetry. apply key_confirmed_iff. exists x. auto.
  - destruct H as [Hterm Hexp]. split; [| exact Hexp].
    destruct (is_terminal (etype x)); [| reflexivity]. simpl in *.
    destruct (key_confirmed E (queue w) x) eqn:Hk; [| reflexivity].
    apply key_confirmed_iff in Hk. destruct Hk as [y (Hy & Ht & Hf & Hc)].
    rewrite (unique_keys_same_row (queue w) x y Hq Hin Hy Ht Hf) in Hc.
    congruence.
Qed.

Lemma clear_confirmed_removes_exactly_witness :
  queue (snd (clear_confirmed Scenario.env (Demo.world_of Scenario.mixed_queue)))
  = [Scenario.row Transfer "alice.id"; Scenario.row Update "bob.id";
     Scenario.row Preorder "dave.id"] /\
  (In (Scenario.row Update "bob.id")
      (queue (snd (clear_confirmed Scenario.env
                     (Demo.world_of Scenario.mixed_queue))))
   <-> In (Scenario.row Update "bob.id") Scenario.mixed_queue /\
       (is_terminal Update && confirmed Scenario.env (Scenario.row Update "bob.id")
        = false) /\
       (category_eqb Update Preorder
        && preorder_expired Scenario.env (Scenario.row Update "bob.id") = false)).
Proof.
  assert (Hq : unique_keys (queue (Demo.world_of Scenario.mixed_queue))).
  { unfold unique_keys. simpl.
    repeat (constructor; [simpl; intuition discriminate |]). constructor. }
  split; [reflexivity |].
  exact (proj1 (proj2 (clear_confirmed_removes_exactly Scenario.env
                         (Demo.world_of Scenario.mixed_queue) Hq))
               (Scenario.row Update "bob.id")).
Defined.

(** X11.  [clear_confirmed] is idempotent: run again on what it has left, it
    answers [{'status': True}] and changes nothing. *)
Theorem clear_confirmed_idempotent :
  forall (E : Env) (w : World),
    clear_confirmed E (snd (clear_confirmed E w))
    = (Ret status_ok, snd (clear_confirmed E w)).
Proof.
  intros E w. rewrite (clear_confirmed_spec E w). simpl.
  rewrite clear_confirmed_spec. simpl. f_equal.
  unfold set_queue. simpl. f_equal.
  apply filter_all. intros x Hin. apply negb_true_iff.
  apply cleared_again. exact Hin.
Qed.

(* ===================================================================== *)
(** ** The lockfile over the life of a worker *)
(* ===================================================================== *)

(** A lockfile that holds the PID [pid0] is valid for the process [pid0] and
    for no other. *)
Lemma is_lockfile_valid_of_read (getpid pid0 : Z) (dir : string) (fs0 : FS) :
  (0 < pid0)%Z ->
  fs_read (get_lockfile_path dir) fs0
  = Some (py_str_of_int pid0 ++ String (ascii_of_nat 10) "")%string ->
  is_lockfile_valid getpid dir fs0 = Z.eqb pid0 getpid.
Proof.
  intros Hpos Hread. unfold is_lockfile_valid, is_lockfile_stale.
  rewrite Hread.
  assert (Hex : fs_exists (get_lockfile_path dir) fs0 = true).
  { unfold fs_exists. unfold fs_read in Hread.
    destruct (assoc_string (get_lockfile_path dir) (links fs0));
      [reflexivity | discriminate]. }
  rewrite Hex. unfold is_lockfile_stale_contents.
  rewrite (lockfile_pid_round_trip pid0 Hpos).
  destruct (Z.eqb pid0 getpid); reflexivity.
Qed.

(** The first move of a worker that finds no valid lockfile. *)
Lemma tick_startup_invalid (E : Env) (getpid : Z) (dir : string) (poll : Z)
      (w : Worker) :
  at_pc w = Startup ->
  is_lockfile_valid getpid dir (fs w) = false ->
  at_pc (tick E getpid dir poll w) = LoopHead /\
  lockfile_path (tick E getpid dir poll w) = Some (get_lockfile_path dir) /\
  world (tick E getpid dir poll w) = world w /\
  history (tick E getpid dir poll w) = history w /\
  fs_read (get_lockfile_path dir) (fs (tick E getpid dir poll w))
  = Some (py_str_of_int getpid ++ String (ascii_of_nat 10) "")%string.
Proof.
  intros Hpc Hinv.
  destruct (acquire_lockfile_invalid getpid dir (fs w) Hinv)
    as (fs1 & tmp & fs2 & fs3 & fs4 & fs5 & _ & _ & _ & _ & _ & _ & Hacq & Hread & _).
  unfold tick. rewrite Hpc, Hacq. simpl. auto.
Qed.

(** The first move of a worker that finds a valid lockfile: it returns, and
    [cleanup_lockfile] is not reached. *)
Lemma tick_startup_valid (E : Env) (getpid : Z) (dir : string) (poll : Z)
      (w : Worker) :
  at_pc w = Startup ->
  is_lockfile_valid getpid dir (fs w) = true ->
  at_pc (tick E getpid dir poll w) = Exited /\
  fs (tick E getpid dir poll w) = fs w /\
  world (tick E getpid dir poll w) = world w /\
  history (tick E getpid dir poll w) = history w.
Proof.
  intros Hpc Hval. unfold tick.
  rewrite Hpc, (acquire_lockfile_valid getpid dir (fs w) Hval). simpl. auto.
Qed.

(** X12.  The lockfile keeps a second worker of the same process out, and
    no worker of another process.  A worker of process [pid] that finds no
    lockfile valid for it takes the lock and reaches the head of its loop.
    On the file system it leaves, a worker of the same process returns at
    once, leaving the lockfile, the world and its history as they are; a
    worker of a process [pid'] with another PID takes the lock over, after
    which the lockfile is valid for [pid'] and no longer for [pid]. *)
Theorem lockfile_excludes_same_process_only :
  forall (E : Env) (pid pid' : Z) (dir : string) (poll : Z) (w : Worker),
    (0 < pid)%Z -> (0 < pid')%Z -> pid <> pid' ->
    at_pc w = Startup ->
    is_lockfile_valid pid dir (fs w) = false ->
    let w1 := tick E pid dir poll w in
    at_pc w1 = LoopHead /\
    is_lockfile_valid pid dir (fs w1) = true /\
    (forall v, at_pc v = Startup -> fs v = fs w1 ->
       at_pc (tick E pid dir poll v) = Exited /\
       fs (tick E pid dir poll v) = fs w1 /\
       world (tick E pid dir poll v) = world v /\
       history (tick E pid dir poll v) = history v) /\
    (forall v, at_pc v = Startup -> fs v = fs w1 ->
       at_pc (tick E pid' dir poll v) = LoopHead /\
       is_lockfile_valid pid' dir (fs (tick E pid' dir poll v)) = true /\
       is_lockfile_valid pid dir (fs (tick E pid' dir poll v)) = false).
Proof.
  intros E pid pid' dir poll w Hpid Hpid' Hne Hpc Hinv w1.
  destruct (tick_startup_invalid E pid dir poll w Hpc Hinv)
    as (Hpc1 & _ & _ & _ & Hread1).
  fold w1 in Hpc1, Hread1.
  assert (Hvalid : forall p, is_lockfile_valid p dir (fs w1) = Z.eqb pid p).
  { intros p. apply is_lockfile_valid_of_read; assumption. }
  split; [exact Hpc1 |]. split; [rewrite Hvalid; apply Z.eqb_refl |]. split.
  - intros v Hv Hfs.
    assert (Hval : is_lockfile_valid pid dir (fs v) = true).
    { rewrite Hfs, Hvalid. apply Z.eqb_refl. }
    destruct (tick_startup_valid E pid dir poll v Hv Hval) as (Ha & Hb & Hc & Hd).
    rewrite <- Hfs. auto.
  - intros v Hv Hfs.
    assert (Hinv' : is_lockfile_valid pid' dir (fs v) = false).
    { rewrite Hfs, Hvalid. apply Z.eqb_neq. exact Hne. }
    destruct (tick_startup_invalid E pid' dir poll v Hv Hinv')
      as (Hpc2 & _ & _ & _ & Hread2).
    split; [exact Hpc2 |].
    rewrite !(is_lockfile_valid_of_read _ pid' dir _ Hpid' Hread2).
    split; [apply Z.eqb_refl |]. apply Z.eqb_neq. congruence.
Qed.

Lemma lockfile_excludes_same_process_only_witness :
  let w := new_worker 300 Demo.empty_world Demo.empty_fs in
  let w1 := tick Demo.env 7 Demo.config_dir 300 w in
  at_pc w1 = LoopHead /\
  at_pc (tick Demo.env 7 Demo.config_dir 300
              (new_worker 300 Demo.empty_world (fs w1))) = Exited /\
  at_pc (tick Demo.env 8 Demo.config_dir 300
              (new_worker 300 Demo.empty_world (fs w1))) = LoopHead.
Proof.
  intros w w1.
  destruct (lockfile_excludes_same_process_only Demo.env 7 8 Demo.config_dir 300 w)
    as (H1 & _ & Hsame & Hother);
    [reflexivity | reflexivity | discriminate | reflexivity | reflexivity |].
  split; [exact H1 |]. split.
  - apply (Hsame (new_worker 300 Demo.empty_world (fs w1))); reflexivity.
  - apply (Hother (new_worker 300 Demo.empty_world (fs w1))); reflexivity.
Defined.

Lemma fs_read_after_unlink (path p : string) (fs0 fs' : FS) :
  fs_unlink path fs0 = Some fs' -> p <> path -> fs_read p fs' = fs_read p fs0.
Proof.
  unfold fs_unlink. destruct (fs_exists path fs0); [| discriminate].
  intros H Hne. inversion H; subst. unfold fs_read. simpl.
  rewrite assoc_string_filter.
  destruct (String.eqb_spec p path); [contradiction | reflexivity].
Qed.

(** X13.  A worker that leaves its loop because [request_stop] was called
    removes its lockfile: stopped at the head of the loop or at the
    preemption point, with its lockfile in place, its next move ends [run],
    the lockfile is gone and valid for no process, [self.lockfile_path] is
    [None], and every other file reads as before. *)
Theorem lockfile_released_on_exit :
  forall (E : Env) (pid : Z) (dir : string) (poll : Z) (w : Worker),
    at_pc w = LoopHead \/ at_pc w = Preemption ->
    running w = false ->
    lockfile_path w = Some (get_lockfile_path dir) ->
    fs_exists (get_lockfile_path dir) (fs w) = true ->
    let w' := tick E pid dir poll w in
    at_pc w' = Exited /\
    lockfile_path w' = None /\
    fs_exists (get_lockfile_path dir) (fs w') = false /\
    (forall p, is_lockfile_valid p dir (fs w') = false) /\
    (forall p, p <> get_lockfile_path dir -> fs_read p (fs w') = fs_read p (fs w)) /\
    world w' = world w.
Proof.
  intros E pid dir poll w Hpc Hrun Hpath Hex w'.
  assert (Hw' : w' = finish w (history w ++ [RunFlagRead false])).
  { unfold w', tick. destruct Hpc as [-> | ->]; rewrite Hrun; reflexivity. }
  rewrite Hw'. unfold finish. rewrite Hpath.
  destruct (fs_unlink (get_lockfile_path dir) (fs w)) as [fs' |] eqn:Hu.
  2:{ unfold fs_unlink in Hu. rewrite Hex in Hu. discriminate. }
  simpl. pose proof (fs_exists_after_unlink _ _ _ Hu) as Hgone.
  repeat split; auto.
  - intros p. unfold is_lockfile_valid. rewrite Hgone. reflexivity.
  - intros p Hp. eapply fs_read_after_unlink; eassumption.
Qed.

Lemma lockfile_released_on_exit_witness :
  let w := exec Demo.env 7 Demo.config_dir 300 [Tick; Stop]
                (new_worker 300 Demo.empty_world Demo.empty_fs) in
  fs_exists Demo.lock_path (fs w) = true /\
  at_pc (tick Demo.env 7 Demo.config_dir 300 w) = Exited /\
  fs_exists (get_lockfile_path Demo.config_dir)
            (fs (tick Demo.env 7 Demo.config_dir 300 w)) = false.
Proof.
  intros w. split; [reflexivity |].
  destruct (lockfile_released_on_exit Demo.env 7 Demo.config_dir 300 w)
    as (H1 & _ & H3 & _);
    [left; reflexivity | reflexivity | reflexivity | reflexivity |].
  split; [exact H1 | exact H3].
Defined.

(* ===================================================================== *)
(** ** The worker loop: the wait for the wallet *)
(* ===================================================================== *)

Lemma get_wallet_returns (w : World) : exists wd, get_wallet w = (Ret wd, w).
Proof. eexists. reflexivity. Qed.

(** One round of the wait: the wallet is fetched again and the thread sleeps
    a second. *)
Lemma tick_gate_round (E : Env) (pid : Z) (dir : string) (poll : Z) (w : Worker) :
  at_pc w = WalletGate -> running w = true ->
  owner_address_unset (gate_wallet w) = true ->
  let w' := tick E pid dir poll w in
  at_pc w' = WalletGate /\ running w' = true /\ world w' = world w /\
  cur_wallet_data w' = match fst (get_wallet (world w)) with
                       | Ret wd => Some wd
                       | Raise _ => cur_wallet_data w
                       end /\
  history w' = history w ++ gate_round.
Proof.
  intros Hpc Hrun Hunset. unfold tick. rewrite Hpc.
  unfold gate_wallet in Hunset. rewrite Hunset, Hrun.
  simpl. rewrite <- app_assoc. auto.
Qed.

(** X14.  As long as the wallet is not set, the worker stays at its gate:
    however many moves it makes, it fetches the wallet and sleeps a second in
    each, begins no step and leaves the world as it is. *)
Theorem worker_waits_for_wallet :
  forall (E : Env) (pid : Z) (dir : string) (poll : Z) (n : nat) (w : Worker),
    at_pc w = WalletGate -> running w = true ->
    owner_address_unset (gate_wallet w) = true ->
    wallet_ready (world w) = false ->
    let w' := exec E pid dir poll (repeat Tick n) w in
    at_pc w' = WalletGate /\
    world w' = world w /\
    history w' = history w ++ concat (repeat gate_round n) /\
    begun (history w') = begun (history w).
Proof.
  intros E pid dir poll n. induction n as [| n IH]; intros w Hpc Hrun Hunset Hready.
  - simpl. rewrite app_nil_r. auto.
  - destruct (tick_gate_round E pid dir poll w Hpc Hrun Hunset)
      as (Hpc1 & Hrun1 & Hw1 & Hcur1 & Hh1).
    assert (Hunset1 : owner_address_unset (gate_wallet (tick E pid dir poll w)) = true).
    { unfold gate_wallet. rewrite Hcur1. unfold wallet_ready in Hready.
      destruct (get_wallet_returns (world w)) as [wd Hwd].
      rewrite Hwd in *. simpl in *.
      apply negb_false_iff. exact Hready. }
    assert (Hready1 : wallet_ready (world (tick E pid dir poll w)) = false).
    { rewrite Hw1. exact Hready. }
    destruct (IH (tick E pid dir poll w) Hpc1 Hrun1 Hunset1 Hready1)
      as (Ha & Hb & Hc & Hd).
    simpl. split; [exact Ha |]. split; [congruence |]. split.
    + rewrite Hc, Hh1, <- app_assoc. reflexivity.
    + rewrite Hd, Hh1, begun_app. simpl. apply app_nil_r.
Qed.

Lemma worker_waits_for_wallet_witness :
  let w := exec Demo.env 7 Demo.config_dir 300 [Tick; Tick]
                (new_worker 300 Demo.locked_world Demo.empty_fs) in
  let w' := exec Demo.env 7 Demo.config_dir 300 (repeat Tick 5) w in
  at_pc w' = WalletGate /\ world w' = Demo.locked_world /\ begun (history w') = [].
Proof.
  intros w w'.
  destruct (worker_waits_for_wallet Demo.env 7 Demo.config_dir 300 5 w)
    as (H1 & H2 & _ & H4); [reflexivity | reflexivity | reflexivity | reflexivity |].
  split; [exact H1 |]. split; [exact H2 | exact H4].
Defined.

(** What [get_wallet] returns once [set_wallet] has accepted. *)
Lemma set_wallet_ready (E : Env) payment owner data (w w' : World) (r : resp) :
  set_wallet E payment owner data w = (Ret r, w') ->
  r_success r = Some true ->
  exists wd,
    get_wallet w' = (Ret wd, w') /\
    wd_payment_address wd = fst payment /\
    wd_owner_address wd = fst owner /\
    owner_address_unset wd = false.
Proof.
  unfold set_wallet. intros H Hs.
  destruct (truthy_string (fst payment) && truthy_keyinfo (snd payment)
            && truthy_string (fst owner) && truthy_keyinfo (snd owner)
            && truthy_string (fst data) && truthy_keyinfo (snd data)) eqn:Hall;
    simpl in H.
  2:{ inversion H; subst. discriminate. }
  repeat (apply andb_true_iff in Hall; destruct Hall as [Hall ?]).
  destruct (snd payment) as [pk |], (snd owner) as [ok |], (snd data) as [dk |];
    try (inversion H; subst; discriminate).
  destruct (negb (is_singlesig E pk) && negb (is_multisig E pk)).
  { inversion H; subst. discriminate. }
  destruct (negb (is_singlesig E ok) && negb (is_multisig E ok)).
  { inversion H; subst. discriminate. }
  destruct (is_singlesig_hex E dk); simpl in H.
  2:{ inversion H; subst. discriminate. }
  inversion H; subst. eexists. split; [reflexivity |]. simpl.
  split; [reflexivity |]. split; [reflexivity |].
  unfold owner_address_unset. simpl.
  destruct (fst owner) as [s |]; [reflexivity | discriminate].
Qed.

(** X15.  An accepted [set_wallet] opens the gate.  A worker waits at its
    gate; another thread calls [set_wallet], which answers with success.
    Three moves later the worker has fetched the wallet, seen the owner
    address that was passed in, passed the preemption point, and is about to
    run [register_preorders]; no step has begun yet. *)
Theorem set_wallet_opens_gate :
  forall (E : Env) (pid : Z) (dir : string) (poll : Z) (w : Worker)
         (payment owner data : option string * option keyinfo) (r : resp),
    at_pc w = WalletGate -> running w = true ->
    owner_address_unset (gate_wallet w) = true ->
    fst (set_wallet E payment owner data (world w)) = Ret r ->
    r_success r = Some true ->
    let w' := exec E pid dir poll
                   [Rpc (set_wallet E payment owner data); Tick; Tick; Tick] w in
    at_pc w' = AtStep RegisterPreorders /\
    wd_owner_address (gate_wallet w') = fst owner /\
    wd_payment_address (gate_wallet w') = fst payment /\
    world w' = snd (set_wallet E payment owner data (world w)) /\
    begun (history w') = begun (history w).
Proof.
  intros E pid dir poll w payment owner data r Hpc Hrun Hunset Hret Hs.
  destruct (set_wallet E payment owner data (world w)) as [out world1] eqn:Hset.
  simpl in Hret. subst out.
  destruct (set_wallet_ready E payment owner data (world w) world1 r Hset Hs)
    as (wd & Hget & Hpay & Hown & Hok).
  simpl exec. unfold rpc. rewrite Hset. simpl snd.
  set (w1 := mk_worker (running w) (lockfile_path w) (poll_interval w) (failed w)
                       (failed_names w) (cur_wallet_data w) (at_pc w) world1
                       (fs w) (draws w) (history w)).
  destruct (tick_gate_round E pid dir poll w1 Hpc Hrun Hunset)
    as (Hpc2 & Hrun2 & Hw2 & Hcur2 & Hh2).
  simpl world in Hw2, Hcur2. rewrite Hget in Hcur2. simpl in Hcur2.
  set (w2 := tick E pid dir poll w1) in *.
  assert (Hw3 : tick E pid dir poll w2 = goto Preemption w2 (history w2)).
  { unfold tick at 1. rewrite Hpc2, Hcur2, Hok. reflexivity. }
  rewrite Hw3.
  assert (Hw4 : tick E pid dir poll (goto Preemption w2 (history w2))
                = goto (AtStep RegisterPreorders) w2
                       (history w2 ++ [RunFlagRead true])).
  { unfold tick at 1. simpl. rewrite Hrun2. reflexivity. }
  rewrite Hw4. unfold gate_wallet. simpl. rewrite Hcur2, Hw2, Hh2.
  rewrite !begun_app. simpl. rewrite !app_nil_r. auto.
Qed.

Lemma set_wallet_opens_gate_witness :
  let w := exec Demo.env 7 Demo.config_dir 300 [Tick; Tick]
                (new_worker 300 Demo.locked_world Demo.empty_fs) in
  let call := set_wallet Demo.env
                (Some "payment-address", Some (Singlesig "aa"))
                (Some "owner-address", Some (Singlesig "bb"))
                (Some "data-address", Some (Singlesig "cc")) in
  at_pc (exec Demo.env 7 Demo.config_dir 300 [Rpc call; Tick; Tick; Tick] w)
  = AtStep RegisterPreorders.
Proof.
  intros w call.
  destruct (set_wallet_opens_gate Demo.env 7 Demo.config_dir 300 w
              (Some "payment-address", Some (Singlesig "aa"))
              (Some "owner-address", Some (Singlesig "bb"))
              (Some "data-address", Some (Singlesig "cc"))
              (mk_resp (Some true) None None None None None None None None
                       false false None))
    as (H1 & _); [reflexivity | reflexivity | reflexivity | reflexivity
                  | reflexivity |].
  exact H1.
Defined.

(* ===================================================================== *)
(** ** The worker loop: a whole cycle and the sleep behind it *)
(* ===================================================================== *)

Lemma remaining_steps_next (s : step) :
  remaining_steps (AtStep s) = s :: remaining_steps (next_pc s).
Proof. destruct s; reflexivity. Qed.

(** What is not a move of the thread leaves it where it is. *)
Lemma act_other_thread (E : Env) (pid : Z) (dir : string) (poll : Z)
      (a : action) (w : Worker) :
  a <> Tick ->
  at_pc (act E pid dir poll a w) = at_pc w /\
  begun (history (act E pid dir poll a w)) = begun (history w).
Proof.
  intros Ha. destruct a as [| | call]; [congruence | |]; simpl.
  - rewrite begun_app. simpl. rewrite app_nil_r. auto.
  - auto.
Qed.

Lemma exec_cons (E : Env) (pid : Z) (dir : string) (poll : Z)
      (a : action) (acts : list action) (w : Worker) :
  exec E pid dir poll (a :: acts) w
  = exec E pid dir poll acts (act E pid dir poll a w).
Proof. reflexivity. Qed.

Lemma exec_no_ticks (E : Env) (pid : Z) (dir : string) (poll : Z) :
  forall (acts : list action) (w : Worker),
    count_ticks acts = 0 ->
    at_pc (exec E pid dir poll acts w) = at_pc w /\
    begun (history (exec E pid dir poll acts w)) = begun (history w).
Proof.
  induction acts as [| a acts IH]; intros w Hn; [simpl; auto |].
  rewrite exec_cons.
  assert (Ha : a <> Tick) by (intros ->; discriminate).
  assert (Hn' : count_ticks acts = 0) by (destruct a; [congruence | exact Hn ..]).
  destruct (IH (act E pid dir poll a w) Hn') as [H1 H2].
  destruct (act_other_thread E pid dir poll a w Ha) as [H3 H4].
  rewrite H1, H2. auto.
Qed.

Lemma exec_steps (E : Env) (pid : Z) (dir : string) (poll : Z) :
  forall (acts : list action) (w : Worker) (s : step),
    at_pc w = AtStep s ->
    count_ticks acts = List.length (remaining_steps (AtStep s)) ->
    at_pc (exec E pid dir poll acts w) = Backoff /\
    begun (history (exec E pid dir poll acts w))
    = begun (history w) ++ remaining_steps (AtStep s).
Proof.
  induction acts as [| a acts IH]; intros w s Hpc Hn.
  - destruct s; discriminate.
  - rewrite exec_cons. destruct a as [| | call].
    + assert (Hact : act E pid dir poll Tick w = run_step E s w).
      { simpl. unfold tick. rewrite Hpc. reflexivity. }
      rewrite Hact.
      pose proof (run_step_at_pc E s w) as Hpc1.
      pose proof (run_step_history E s w) as Hh1.
      rewrite remaining_steps_next in Hn |- *. simpl in Hn.
      injection Hn as Hn.
      destruct (remaining_steps (next_pc s)) as [| s' rest] eqn:Hrem.
      * destruct (exec_no_ticks E pid dir poll acts (run_step E s w) Hn) as [H1 H2].
        rewrite H1, H2, Hpc1, Hh1, begun_app.
        destruct s; simpl in Hrem; try discriminate. auto.
      * assert (Hnext : next_pc s = AtStep s').
        { destruct s; simpl in Hrem |- *; inversion Hrem; reflexivity. }
        rewrite Hnext in Hpc1.
        destruct (IH (run_step E s w) s' Hpc1) as [H1 H2].
        { rewrite <- Hnext, Hrem. exact Hn. }
        rewrite H1, H2, Hh1, begun_app, <- Hnext, Hrem, <- app_assoc. auto.
    + destruct (act_other_thread E pid dir poll Stop w) as [H3 H4]; [discriminate |].
      destruct (IH (act E pid dir poll Stop w) s) as [H1 H2];
        [congruence | exact Hn |].
      rewrite H1, H2, H4. auto.
    + destruct (act_other_thread E pid dir poll (Rpc call) w) as [H3 H4];
        [discriminate |].
      destruct (IH (act E pid dir poll (Rpc call) w) s) as [H1 H2];
        [congruence | exact Hn |].
      rewrite H1, H2, H4. auto.
Qed.

(** X16.  A cycle that has begun runs all of its six steps, in order,
    whatever happens meanwhile: a step that answers with an error or raises
    does not keep the later ones from running, and neither does a
    [request_stop] or an RPC call of another thread between two steps.  After
    the sixth move the worker chooses its next sleep. *)
Theorem cycle_runs_all_six_steps :
  forall (E : Env) (pid : Z) (dir : string) (poll : Z)
         (acts : list action) (w : Worker),
    at_pc w = AtStep RegisterPreorders ->
    count_ticks acts = 6 ->
    at_pc (exec E pid dir poll acts w) = Backoff /\
    begun (history (exec E pid dir poll acts w)) = begun (history w) ++ all_steps.
Proof.
  intros E pid dir poll acts w Hpc Hn.
  exact (exec_steps E pid dir poll acts w RegisterPreorders Hpc Hn).
Qed.

Lemma cycle_runs_all_six_steps_witness :
  let w := exec Demo.failing_env 7 Demo.config_dir 300 [Tick; Tick; Tick; Tick]
                (new_worker 300 (Demo.world_of [Demo.preorder_row "alice.id"])
                            Demo.empty_fs) in
  let acts := [Tick; Stop; Tick; Tick; Rpc (clear_confirmed Demo.failing_env);
               Tick; Tick; Tick] in
  failed (exec Demo.failing_env 7 Demo.config_dir 300 [Tick] w) = true /\
  at_pc (exec Demo.failing_env 7 Demo.config_dir 300 acts w) = Backoff /\
  begun (history (exec Demo.failing_env 7 Demo.config_dir 300 acts w)) = all_steps.
Proof.
  intros w acts. split; [reflexivity |].
  exact (cycle_runs_all_six_steps Demo.failing_env 7 Demo.config_dir 300 acts w
           eq_refl eq_refl).
Defined.

Lemma tick_sleeping (E : Env) (pid : Z) (dir : string) (poll : Z) (w : Worker) i n :
  at_pc w = Sleeping i n -> running w = true ->
  let w' := tick E pid dir poll w in
  running w' = true /\ world w' = world w /\ fs w' = fs w /\
  (i < n -> at_pc w' = Sleeping (S i) n /\ history w' = history w ++ nap) /\
  (n <= i -> at_pc w' = LoopHead /\ history w' = history w).
Proof.
  intros Hpc Hrun. unfold tick. rewrite Hpc.
  destruct (Nat.ltb_spec i n) as [Hlt | Hge].
  - rewrite Hrun. simpl. repeat split; auto; lia.
  - simpl. repeat split; auto; lia.
Qed.

Lemma exec_sleeping (E : Env) (pid : Z) (dir : string) (poll : Z) :
  forall (k : nat) (w : Worker) (i n : nat),
    at_pc w = Sleeping i n -> running w = true -> i + k = n ->
    let w' := exec E pid dir poll (repeat Tick (S k)) w in
    at_pc w' = LoopHead /\ running w' = true /\ world w' = world w /\
    fs w' = fs w /\
    history w' = history w ++ concat (repeat nap k).
Proof.
  induction k as [| k IH]; intros w i n Hpc Hrun Hk.
  - destruct (tick_sleeping E pid dir poll w i n Hpc Hrun)
      as (Hr & Hw & Hf & _ & Hend).
    destruct Hend as [Ha Hh]; [lia |].
    simpl. rewrite app_nil_r. auto.
  - destruct (tick_sleeping E pid dir poll w i n Hpc Hrun)
      as (Hr & Hw & Hf & Hgo & _).
    destruct Hgo as [Ha Hh]; [lia |].
    destruct (IH (tick E pid dir poll w) (S i) n Ha Hr) as (H1 & H2 & H3 & H4 & H5);
      [lia |].
    change (repeat Tick (S (S k))) with (Tick :: repeat Tick (S k)).
    rewrite exec_cons. simpl act.
    split; [exact H1 |]. split; [exact H2 |]. split; [congruence |].
    split; [congruence |].
    rewrite H5, Hh, <- app_assoc. reflexivity.
Qed.

Lemma py_int_of_float_inject (z : Z) : py_int_of_float (inject_Z z) = z.
Proof. unfold py_int_of_float, inject_Z. simpl. apply Z.quot_1_r. Qed.

(** X17.  After a cycle in which no step failed, the worker sleeps for the
    configured poll interval: it announces that interval, sleeps as many
    one-second naps as the interval has seconds (none when it is not
    positive), reading [self.running] after each, and is back at the head of
    its loop; the random source is not drawn from and the world and the file
    system are untouched. *)
Theorem quiet_cycle_sleeps_poll_interval :
  forall (E : Env) (pid : Z) (dir : string) (poll : Z) (w : Worker),
    at_pc w = Backoff -> failed w = false -> running w = true ->
    let w' := exec E pid dir poll (repeat Tick (2 + Z.to_nat poll)) w in
    at_pc w' = LoopHead /\
    history w' = history w ++ RunSleepFor (inject_Z poll)
                              :: concat (repeat nap (Z.to_nat poll)) /\
    poll_interval w' = inject_Z poll /\
    draws w' = draws w /\ world w' = world w /\ fs w' = fs w.
Proof.
  intros E pid dir poll w Hpc Hfail Hrun w'.
  set (w1 := tick E pid dir poll w).
  assert (Hw' : w' = exec E pid dir poll (repeat Tick (S (Z.to_nat poll))) w1)
    by reflexivity.
  assert (Hw1 : w1 = mk_worker (running w) (lockfile_path w) (inject_Z poll)
                       (failed w) (failed_names w) (cur_wallet_data w)
                       (Sleeping 0 (Z.to_nat poll)) (world w) (fs w) (draws w)
                       (history w ++ [RunSleepFor (inject_Z poll)])).
  { unfold w1, tick. rewrite Hpc. unfold next_poll_interval. rewrite Hfail.
    rewrite py_int_of_float_inject. reflexivity. }
  clearbody w1 w'. subst w'.
  assert (Hpc1 : at_pc w1 = Sleeping 0 (Z.to_nat poll)) by (rewrite Hw1; reflexivity).
  assert (Hrun1 : running w1 = true) by (rewrite Hw1; exact Hrun).
  destruct (exec_sleeping E pid dir poll (Z.to_nat poll) w1 0 (Z.to_nat poll)
              Hpc1 Hrun1 eq_refl) as (H1 & H2 & H3 & H4 & H5).
  assert (Hkeep : forall k (v : Worker) i n,
            at_pc v = Sleeping i n -> running v = true -> i + k = n ->
            poll_interval (exec E pid dir poll (repeat Tick (S k)) v) = poll_interval v /\
            draws (exec E pid dir poll (repeat Tick (S k)) v) = draws v).
  { induction k as [| k IHk]; intros v i n Hv Hr Hk.
    - simpl. unfold tick. rewrite Hv.
      destruct (Nat.ltb_spec i n); [lia |]. simpl. auto.
    - change (repeat Tick (S (S k))) with (Tick :: repeat Tick (S k)).
      rewrite exec_cons. simpl act.
      destruct (tick_sleeping E pid dir poll v i n Hv Hr) as (Hr' & _ & _ & Hgo & _).
      destruct Hgo as [Ha _]; [lia |].
      destruct (IHk (tick E pid dir poll v) (S i) n Ha Hr') as [Hp Hd]; [lia |].
      rewrite Hp, Hd. unfold tick. rewrite Hv.
      destruct (Nat.ltb_spec i n); [| lia]. rewrite Hr. simpl. auto. }
  destruct (Hkeep (Z.to_nat poll) w1 0 (Z.to_nat poll) Hpc1 Hrun1 eq_refl) as [Hp Hd].
  split; [exact H1 |].
  split; [rewrite H5, Hw1; simpl; rewrite <- app_assoc; reflexivity |].
  rewrite Hp, Hd, H3, H4, Hw1. simpl. auto.
Qed.

Lemma quiet_cycle_sleeps_poll_interval_witness :
  let w := exec Demo.env 7 Demo.config_dir 3
                (repeat Tick 10) (new_worker 3 Demo.empty_world Demo.empty_fs) in
  let w' := exec Demo.env 7 Demo.config_dir 3 (repeat Tick (2 + Z.to_nat 3)) w in
  at_pc w' = LoopHead /\
  history w' = history w ++ RunSleepFor (inject_Z 3) :: concat (repeat nap 3).
Proof.
  intros w w'.
  destruct (quiet_cycle_sleeps_poll_interval Demo.env 7 Demo.config_dir 3 w)
    as (H1 & H2 & _); [reflexivity | reflexivity | reflexivity |].
  split; [exact H1 | exact H2].
Defined.

(* ===================================================================== *)
(** ** Names the worker skips *)
(* ===================================================================== *)

(** The loop of [transfer_names] touches only the names it does not skip. *)
Lemma transfer_loop_skips (E : Env) skip :
  forall (l : list entry) acc (w : World),
    (forall x, In x l -> etype x = Update) ->
    exists acc' w',
      for_each l (transfer_names_body E skip) acc w = (Ret acc', w') /\
      touches_only
        (map fqu (filter (fun u => negb (mem_string (fqu u) skip)) l)) w w'.
Proof.
  induction l as [| v rest IH]; intros acc w Htype.
  - exists acc, w. split; [reflexivity | apply touches_only_refl].
  - assert (Hv : etype v = Update) by (apply Htype; left; reflexivity).
    destruct (transfer_names_body_shape E skip acc v w)
      as (acc1 & w1 & Hrun1 & Hcases).
    pose proof (body_touches_only E skip acc v w acc1 w1 Hv Hrun1) as Hframe1.
    destruct (IH acc1 w1) as (acc' & w' & Hrun & Hframe).
    { intros x Hx. apply Htype. right. exact Hx. }
    exists acc', w'. split.
    { simpl. unfold bind. rewrite Hrun1. exact Hrun. }
    simpl. destruct (mem_string (fqu v) skip) eqn:Hskip; simpl.
    + destruct Hcases as [[_ ->] | [(Hno & _) | (Hno & _)]];
        [exact Hframe | congruence | congruence].
    + exact (touches_only_trans [fqu v] _ w w1 w' Hframe1 Hframe).
Qed.

(** X18.  [transfer_names] leaves the names of its skip list alone (the
    worker passes the names whose replication failed in the same cycle): it
    returns, every row of a skipped name is still in the queue as it was, no
    update row of such a name is dropped and no transfer is queued for it;
    the wallet is untouched. *)
Theorem transfer_names_leaves_skipped_names :
  forall (E : Env) (skip : list string) (w : World),
    exists (r : resp) (w' : World),
      transfer_names E skip w = (Ret r, w') /\
      wallet w' = wallet w /\
      (forall x, In x (queue w) -> In (fqu x) skip -> In x (queue w')) /\
      (forall name, In name skip ->
         in_queue Update name (queue w') = in_queue Update name (queue w) /\
         in_queue Transfer name (queue w') = in_queue Transfer name (queue w)).
Proof.
  intros E skip w.
  destruct (transfer_loop_skips E skip (get_confirmed_updates E (queue w))
              (status_ok, []) w) as (acc' & w' & Hrun & Hframe).
  { intros x Hx. unfold get_confirmed_updates in Hx.
    pose proof (find_accepted_category E Update (queue w)) as Hall.
    rewrite Forall_forall in Hall. apply Hall. exact Hx. }
  exists (with_names acc'), w'. split.
  { unfold transfer_names. unfold bind, gets. simpl. rewrite Hrun. reflexivity. }
  destruct Hframe as (Hwal & Hq & Hkeep & _).
  assert (Hnot : forall name, In name skip ->
            ~ In name (map fqu (filter (fun u => negb (mem_string (fqu u) skip))
                                       (get_confirmed_updates E (queue w))))).
  { intros name Hs Hin. apply in_map_iff in Hin. destruct Hin as [u [Hu Hin]].
    apply filter_In in Hin. destruct Hin as [_ Hn].
    apply negb_true_iff, mem_string_not_In in Hn. congruence. }
  split; [exact Hwal |]. split.
  - intros x Hin Hs. apply Hkeep; [exact Hin |].
    intros name Hn. destruct (same_key Update name x) eqn:Hk; [| reflexivity].
    apply same_key_iff in Hk. destruct Hk as [_ Hf].
    exfalso. apply (Hnot (fqu x) Hs). congruence.
  - intros name Hs. apply Hq. apply Hnot. exact Hs.
Qed.

Lemma transfer_names_leaves_skipped_names_witness :
  let w := Demo.world_of [Demo.update_row "alice.id" (Some "new-owner");
                          Demo.update_row "bob.id" (Some "new-owner")] in
  queue (snd (transfer_names Demo.env ["alice.id"] w))
  = [Demo.update_row "alice.id" (Some "new-owner");
     queued_row Demo.env Transfer "bob.id" None None None (Some "new-owner")] /\
  In (Demo.update_row "alice.id" (Some "new-owner"))
     (queue (snd (transfer_names Demo.env ["alice.id"] w))).
Proof.
  intros w. split; [reflexivity |].
  destruct (transfer_names_leaves_skipped_names Demo.env ["alice.id"] w)
    as (r & w' & Hrun & _ & Hkeep & _).
  rewrite Hrun. simpl snd.
  apply Hkeep; simpl; auto.
Defined.

(* ===================================================================== *)
(** ** Replication *)
(* ===================================================================== *)

Lemma replication_frame_refl (w : World) : replication_frame w w.
Proof. unfold replication_frame. auto using incl_refl. Qed.

Ltac keeps_frame :=
  repeat first
    [ match goal with
      | |- keeps _ (if ?b then _ else _) => destruct b
      | |- keeps _ (match ?x with _ => _ end) => destruct x
      end
    | apply keeps_ret
    | apply keeps_raise
    | apply keeps_gets
    | apply keeps_bind; [| intros ?]
    | match goal with
      | |- keeps _ (modify _) =>
          apply keeps_modify;
          let v := fresh "v" in
          let H := fresh "H" in
          intros v H; destruct H as (? & ? & ? & ? & ?);
          unfold replication_frame; simpl;
          repeat split; auto using incl_appl
      end ].

Lemma replicate_name_data_frame (E : Env) nd wd (w0 : World) :
  keeps (replication_frame w0) (replicate_name_data E nd wd).
Proof.
  unfold replicate_name_data, replicate_zonefile, replicate_token_file.
  keeps_frame.
Qed.

Lemma replicate_names_data_frame (E : Env) updates wd skip (w0 : World) :
  keeps (replication_frame w0) (replicate_names_data E updates wd skip).
Proof.
  unfold replicate_names_data, get_atlas_server_list.
  apply keeps_bind; [keeps_frame | intros servers].
  destruct servers; [keeps_frame |].
  apply keeps_bind; [| intros acc; keeps_frame].
  apply keeps_for_each. intros acc row. unfold replicate_names_body.
  destruct (mem_string (fqu row) skip); [keeps_frame |].
  apply keeps_bind; [apply replicate_name_data_frame | intros res].
  keeps_frame.
Qed.

(** X19.  Replication does not touch the queue ("Do NOT remove items from
    the queue") or the wallet: whether they return or raise,
    [replicate_name_data], [replicate_names_data], [replicate_update_data]
    and [replicate_name_import_data] leave both as they were, forget nothing
    they had remembered as replicated, and only add to the trace. *)
Theorem replication_leaves_queue_alone :
  forall (E : Env) (nd : entry) (updates : list entry) (wd : wallet_data)
         (skip : list string) (w : World),
    replication_frame w (snd (replicate_name_data E nd wd w)) /\
    replication_frame w (snd (replicate_names_data E updates wd skip w)) /\
    replication_frame w (snd (replicate_update_data E wd skip w)) /\
    replication_frame w (snd (replicate_name_import_data E wd skip w)).
Proof.
  intros E nd updates wd skip w.
  pose proof (replication_frame_refl w) as Hw.
  split; [apply replicate_name_data_frame; exact Hw |].
  split; [apply replicate_names_data_frame; exact Hw |].
  split.
  - unfold replicate_update_data. unfold bind, gets.
    destruct (get_confirmed_updates E (queue w)) as [| u us]; [exact Hw |].
    apply replicate_names_data_frame. exact Hw.
  - unfold replicate_name_import_data. unfold bind, gets.
    destruct (get_confirmed_name_imports E (queue w)) as [| u us]; [exact Hw |].
    apply replicate_names_data_frame. exact Hw.
Qed.

Lemma mem_string_snoc (h : string) (l : list string) : mem_string h (l ++ [h]) = true.
Proof. apply mem_string_In. apply in_or_app. right. left. reflexivity. Qed.

Lemma has_error_error_resp (e : string) : has_error (error_resp e) = true.
Proof. reflexivity. Qed.

(** The zone file half: an early return is an error; going on means the
    hash is remembered. *)
Lemma replicate_zonefile_outcome (E : Env) nd z zh (w w1 : World) early :
  replicate_zonefile E nd z zh w = (Ret early, w1) ->
  match early with
  | Some r => has_error r = true
  | None =>
      mem_string zh (replicated_zonefiles w1) = true /\
      replicated_token_file_hashes w1 = replicated_token_file_hashes w
  end.
Proof.
  unfold replicate_zonefile. run_m.
  destruct (mem_string zh (replicated_zonefiles w)) eqn:Hm; simpl.
  - intros H. inversion H; subst. auto.
  - destruct (get_name_blockchain_record E (fqu nd)) as [e | a vh].
    + intros H. inversion H; subst. reflexivity.
    + destruct (String.eqb (py_str vh) zh); simpl.
      * destruct (zonefile_data_replicate E (fqu nd) z).
        -- intros H. inversion H; subst. reflexivity.
        -- intros H. inversion H; subst. simpl.
           split; [apply mem_string_snoc | reflexivity].
      * intros H. inversion H; subst. reflexivity.
Qed.

Lemma replicate_zonefile_known (E : Env) nd z zh (w : World) :
  mem_string zh (replicated_zonefiles w) = true ->
  replicate_zonefile E nd z zh w = (Ret None, w).
Proof. intros H. unfold replicate_zonefile. run_m. rewrite H. reflexivity. Qed.

(** The token file half: an answer without 'error' is [{'status': True}],
    and the same call made again gives it without doing anything. *)
Lemma replicate_token_file_settles (E : Env) nd z zh wd (w w1 : World) r :
  replicate_token_file E nd z zh wd w = (Ret r, w1) ->
  has_error r = false ->
  r = status_ok /\
  replicated_zonefiles w1 = replicated_zonefiles w /\
  replicate_token_file E nd z zh wd w1 = (Ret status_ok, w1).
Proof.
  unfold replicate_token_file.
  destruct (token_file nd) as [token |].
  2:{ intros H _. inversion H; subst. auto. }
  destruct (is_user_zonefile E z); simpl.
  2:{ intros H _. inversion H; subst. auto. }
  destruct (get_signing_privkey E (wd_owner_privkey wd)) as [key |].
  2:{ intros H. discriminate. }
  run_m.
  destruct (mem_string _ (replicated_token_file_hashes w)) eqn:Hm.
  { intros H _. inversion H; subst. rewrite Hm. auto. }
  destruct (token_file_put E (fqu nd) token).
  { intros H Herr. inversion H; subst. discriminate. }
  intros H _. inversion H; subst. simpl. rewrite mem_string_snoc. auto.
Qed.

(** X20.  [replicate_name_data] remembers what it has done.  When a call
    returns without 'error', its answer is [{'status': True}], and the same
    call made again on the world it left answers [{'status': True}] without
    any effect: no chain look-up, no push to Atlas, no token file upload. *)
Theorem replicate_name_data_settles :
  forall (E : Env) (nd : entry) (wd : wallet_data) (w w1 : World) (r : resp),
    replicate_name_data E nd wd w = (Ret r, w1) ->
    has_error r = false ->
    r = status_ok /\
    replicate_name_data E nd wd w1 = (Ret status_ok, w1).
Proof.
  intros E nd wd w w1 r. unfold replicate_name_data.
  destruct (zonefile nd) as [z |].
  2:{ intros H _. inversion H; subst. auto. }
  unfold bind at 1.
  destruct (replicate_zonefile E nd z (entry_zonefile_hash E nd z) w)
    as [[early | e] wa] eqn:Hz; [| discriminate].
  pose proof (replicate_zonefile_outcome E nd z _ w wa early Hz) as Hout.
  destruct early as [r0 |].
  { intros H Herr. inversion H; subst. congruence. }
  destruct Hout as [Hmem _].
  intros Htok Herr.
  destruct (replicate_token_file_settles E nd z _ wd wa w1 r Htok Herr)
    as (Hr & Hzf & Hagain).
  split; [exact Hr |].
  unfold bind. rewrite replicate_zonefile_known by (rewrite Hzf; exact Hmem).
  exact Hagain.
Qed.

Lemma replicate_name_data_settles_witness :
  let nd := Demo.update_row "alice.id" None in
  let w1 := snd (replicate_name_data Demo.env nd Demo.wd Demo.empty_world) in
  trace w1 = [EvGetNameRecord "alice.id"; EvAtlasPush "alice.id" "Z";
              EvTokenFilePut "alice.id" "T"] /\
  replicate_name_data Demo.env nd Demo.wd w1 = (Ret status_ok, w1).
Proof.
  intros nd w1. split; [reflexivity |].
  exact (proj2 (replicate_name_data_settles Demo.env nd Demo.wd Demo.empty_world
                  w1 status_ok eq_refl eq_refl)).
Defined.

Lemma get_atlas_server_list_failure (E : Env) (w : World) :
  peers_ok (get_atlas_peers E (server_hostport E)) = false ->
  exists err,
    get_atlas_server_list E w
    = (Ret (inl err), emit (EvGetAtlasPeers (server_hostport E)) w).
Proof.
  unfold get_atlas_server_list, server_hostport. run_m.
  destruct (get_atlas_peers E _); simpl; intros H; try discriminate;
    eexists; reflexivity.
Qed.

Lemma replicate_names_data_no_servers (E : Env) updates wd skip (w : World) :
  peers_ok (get_atlas_peers E (server_hostport E)) = false ->
  replicate_names_data E updates wd skip w
  = (Raise (NameError "servers"), emit (EvGetAtlasPeers (server_hostport E)) w).
Proof.
  intros H. destruct (get_atlas_server_list_failure E w H) as [err Herr].
  unfold replicate_names_data. unfold bind. rewrite Herr. reflexivity.
Qed.

(** X21.  When the Atlas peer list cannot be had, replication does not
    answer with an error dict but raises: [replicate_names_data] formats
    [servers['error']], and [servers] is not a name of that function.  So
    [replicate_update_data] and [replicate_name_import_data] raise
    [NameError] as soon as there is a confirmed row to replicate, having done
    nothing but ask for the peers; the worker's step counts as failed.  With
    no confirmed row they answer [{'status': True}] and ask nobody. *)
Theorem replication_without_peers_raises :
  forall (E : Env) (wd : wallet_data) (skip : list string) (w : World),
    peers_ok (get_atlas_peers E (server_hostport E)) = false ->
    (forall updates,
       replicate_names_data E updates wd skip w
       = (Raise (NameError "servers"),
          emit (EvGetAtlasPeers (server_hostport E)) w)) /\
    replicate_update_data E wd skip w
    = (if match get_confirmed_updates E (queue w) with [] => true | _ => false end
       then (Ret status_ok, w)
       else (Raise (NameError "servers"),
             emit (EvGetAtlasPeers (server_hostport E)) w)) /\
    replicate_name_import_data E wd skip w
    = (if match get_confirmed_name_imports E (queue w) with [] => true | _ => false end
       then (Ret status_ok, w)
       else (Raise (NameError "servers"),
             emit (EvGetAtlasPeers (server_hostport E)) w)) /\
    (forall v, world v = w -> get_confirmed_updates E (queue w) <> [] ->
       failed (run_step E ReplicateUpdates v) = true /\
       poll_interval (run_step E ReplicateUpdates v) = 1%Q /\
       failed_names (run_step E ReplicateUpdates v) = failed_names v).
Proof.
  intros E wd skip w Hpeers.
  split; [intros updates; apply replicate_names_data_no_servers; exact Hpeers |].
  split; [| split].
  - unfold replicate_update_data. unfold bind, gets.
    destruct (get_confirmed_updates E (queue w)) as [| u us]; [reflexivity |].
    apply replicate_names_data_no_servers. exact Hpeers.
  - unfold replicate_name_import_data. unfold bind, gets.
    destruct (get_confirmed_name_imports E (queue w)) as [| u us]; [reflexivity |].
    apply replicate_names_data_no_servers. exact Hpeers.
  - intros v Hv Hsome. unfold run_step, step_call.
    unfold replicate_update_data. unfold bind, gets. rewrite Hv.
    destruct (get_confirmed_updates E (queue w)) as [| u us]; [congruence |].
    rewrite replicate_names_data_no_servers by exact Hpeers.
    simpl. auto.
Qed.

Lemma replication_without_peers_raises_witness :
  let w := Demo.world_of [Demo.update_row "alice.id" None] in
  replicate_update_data Offline.env Demo.wd [] w
  = (Raise (NameError "servers"), emit (EvGetAtlasPeers "localhost:6264") w).
Proof.
  intros w.
  exact (proj1 (proj2 (replication_without_peers_raises Offline.env Demo.wd [] w
                         eq_refl))).
Defined.

(** X22.  What [get_atlas_server_list] hands out when the configured node
    answers with its peers: the [(host, port)] pair [url_to_host_port] makes
    of each entry of a list of "host:port" strings, in the order of that
    list.  The list of strings has no duplicates, it holds the configured
    node and every peer, it holds node.blockstack.org:6264 unless
    [BLOCKSTACK_TEST] is set, and it holds nothing else.  (Two strings that
    [url_to_host_port] maps to the same pair give that pair twice.)  The only
    effect of the call is the question to the configured node. *)
Theorem atlas_server_list_contents :
  forall (E : Env) (peers : list string) (w : World),
    get_atlas_peers E (server_hostport E) = PeersOk peers ->
    exists servers,
      get_atlas_server_list E w
      = (Ret (inr (map (url_to_host_port E) servers)),
         emit (EvGetAtlasPeers (server_hostport E)) w) /\
      NoDup servers /\
      forall s, In s servers
                <-> s = server_hostport E \/ In s peers \/
                    (s = default_atlas_node /\ BLOCKSTACK_TEST E = false).
Proof.
  intros E peers w Hpeers.
  unfold get_atlas_server_list, bind, modify, ret. cbv beta zeta iota.
  fold (server_hostport E). rewrite Hpeers. fold default_atlas_node.
  set (servers := nodup string_dec (server_hostport E :: peers)).
  assert (Hnd : NoDup servers) by apply NoDup_nodup.
  assert (Hin : forall s, In s servers <-> s = server_hostport E \/ In s peers).
  { intros s. unfold servers. rewrite nodup_In. simpl. intuition congruence. }
  destruct (mem_string default_atlas_node servers) eqn:Hmem; cbn [negb andb].
  - exists servers. split; [reflexivity |]. split; [exact Hnd |].
    intros s. rewrite Hin. split; [tauto |].
    intros [H | [H | [-> _]]]; [auto | auto |].
    apply Hin. apply mem_string_In. exact Hmem.
  - apply mem_string_not_In in Hmem.
    destruct (BLOCKSTACK_TEST E) eqn:Htest; cbn [negb andb].
    + exists servers. split; [reflexivity |]. split; [exact Hnd |].
      intros s. rewrite Hin. split; [tauto |].
      intros [H | [H | [_ H]]]; [auto | auto | discriminate].
    + exists (servers ++ [default_atlas_node]). split; [reflexivity |]. split.
      * apply NoDup_app; [exact Hnd | repeat constructor; simpl; tauto |].
        intros s Hs [<- | []]. contradiction.
      * intros s. rewrite in_app_iff, Hin. simpl. intuition.
Qed.

(** The node names peer.example twice and the configured node once; the
    worker is not under test.  The list has each once, and the default
    node. *)
Lemma atlas_server_list_contents_witness :
  fst (get_atlas_server_list Peers.env Demo.empty_world)
  = Ret (inr [(Some "localhost", Some 6264%Z); (Some "peer.example", Some 6270%Z);
              (Some "node.blockstack.org", Some 6264%Z)]) /\
  exists servers,
    get_atlas_server_list Peers.env Demo.empty_world
    = (Ret (inr (map (url_to_host_port Peers.env) servers)),
       emit (EvGetAtlasPeers "localhost:6264") Demo.empty_world) /\
    NoDup servers /\
    In "peer.example:6270" servers /\ In default_atlas_node servers.
Proof.
  split; [reflexivity |].
  destruct (atlas_server_list_contents Peers.env
              ["peer.example:6270"; "localhost:6264"; "peer.example:6270"]
              Demo.empty_world eq_refl)
    as (servers & Hrun & Hnd & Hin).
  exists servers. split; [exact Hrun |]. split; [exact Hnd |]. split.
  - apply Hin. right. left. simpl. auto.
  - apply Hin. right. right. split; reflexivity.
Defined.

(* ===================================================================== *)
(** ** The wallet cache *)
(* ===================================================================== *)

Ltac refuse :=
  eexists; split; [reflexivity |]; left; eexists;
  split; [reflexivity |]; split; [simpl; tauto | reflexivity].

(** X23.  [set_wallet] is all or nothing.  It either refuses, with one of
    its four errors and without touching the world, so that a locked wallet
    stays locked; or it answers [{'success': True}], and then the wallet is
    unlocked, with the payment and owner addresses that were passed in, while
    queue, trace and replication memory are as before. *)
Theorem set_wallet_all_or_nothing :
  forall (E : Env) (payment owner data : option string * option keyinfo)
         (w : World),
    exists r,
      fst (set_wallet E payment owner data w) = Ret r /\
      ((exists e, r = error_resp e /\ In e set_wallet_errors /\
                  snd (set_wallet E payment owner data w) = w) \/
       (r_success r = Some true /\ has_error r = false /\
        wallet_locked (wallet (snd (set_wallet E payment owner data w))) = false /\
        payment_address (wallet (snd (set_wallet E payment owner data w)))
        = fst payment /\
        owner_address (wallet (snd (set_wallet E payment owner data w)))
        = fst owner /\
        snd (set_wallet E payment owner data w)
        = set_wallet_state (wallet (snd (set_wallet E payment owner data w))) w)).
Proof.
  intros E payment owner data w. unfold set_wallet, set_wallet_errors.
  destruct (truthy_string (fst payment) && truthy_keyinfo (snd payment)
            && truthy_string (fst owner) && truthy_keyinfo (snd owner)
            && truthy_string (fst data) && truthy_keyinfo (snd data)) eqn:Hall;
    simpl.
  2:{ refuse. }
  repeat (apply andb_true_iff in Hall; destruct Hall as [Hall ?]).
  destruct (snd payment) as [pk |], (snd owner) as [ok |], (snd data) as [dk |];
    try (refuse; fail).
  destruct (negb (is_singlesig E pk) && negb (is_multisig E pk)).
  { refuse. }
  destruct (negb (is_singlesig E ok) && negb (is_multisig E ok)).
  { refuse. }
  destruct (is_singlesig_hex E dk); simpl.
  2:{ refuse. }
  eexists. split; [reflexivity |]. right. simpl.
  split; [reflexivity |]. split; [reflexivity |].
  split; [| auto].
  unfold wallet_locked. simpl.
  destruct (fst payment) as [[| c s] |]; try discriminate.
  destruct (fst owner) as [[| c' s'] |]; try discriminate.
  reflexivity.
Qed.

(* ===================================================================== *)
(** ** What replication acts on *)
(* ===================================================================== *)

Lemma acts_only_on_refl names (w : World) : acts_only_on names w w.
Proof. intros ev H. left. exact H. Qed.

Lemma acts_only_on_emit names (w0 v : World) (ev : event) :
  match event_name ev with Some n => In n names | None => True end ->
  acts_only_on names w0 v -> acts_only_on names w0 (emit ev v).
Proof.
  intros Hev H ev' Hin. simpl in Hin. apply in_app_or in Hin.
  destruct Hin as [Hin | [<- | []]]; [apply H; exact Hin | right; exact Hev].
Qed.

Ltac keeps_acts :=
  repeat first
    [ match goal with
      | |- keeps _ (if ?b then _ else _) => destruct b
      | |- keeps _ (match ?x with _ => _ end) => destruct x
      end
    | apply keeps_ret
    | apply keeps_raise
    | apply keeps_gets
    | apply keeps_bind; [| intros ?]
    | match goal with
      | |- keeps _ (modify (emit _)) =>
          apply keeps_modify; intros ? ?; apply acts_only_on_emit;
          [simpl; auto | assumption]
      | |- keeps _ (modify _) =>
          apply keeps_modify; intros ? ?; assumption
      end ].

Lemma replicate_name_data_acts (E : Env) names nd wd (w0 : World) :
  In (fqu nd) names ->
  keeps (acts_only_on names w0) (replicate_name_data E nd wd).
Proof.
  intros Hin.
  unfold replicate_name_data, replicate_zonefile, replicate_token_file.
  keeps_acts.
Qed.

(** X24.  [replicate_names_data] acts for the rows it is given, and for none
    of those whose name is in its skip list (the worker passes the names that
    failed earlier in the cycle): whatever it adds to the trace is the
    question for the Atlas peers, or a chain look-up, a zone file push or a
    token file upload for a name of a row that is not skipped.  It never
    broadcasts a transaction. *)
Theorem replication_acts_on_unskipped_rows :
  forall (E : Env) (updates : list entry) (wd : wallet_data)
         (skip : list string) (w : World),
    acts_only_on (names_not_skipped skip updates) w
                 (snd (replicate_names_data E updates wd skip w)) /\
    forall op n,
      In (EvBroadcast op n) (trace (snd (replicate_names_data E updates wd skip w))) ->
      In (EvBroadcast op n) (trace w).
Proof.
  intros E updates wd skip w.
  assert (Hall : forall names,
            (forall u, In u updates -> mem_string (fqu u) skip = false ->
                       In (fqu u) names) ->
            keeps (acts_only_on names w) (replicate_names_data E updates wd skip)).
  { intros names Hnames.
    unfold replicate_names_data, get_atlas_server_list.
    apply keeps_bind; [keeps_acts | intros servers].
    destruct servers as [err | srv]; [keeps_acts |].
    apply keeps_bind; [| intros acc; keeps_acts].
    assert (Hloop : forall l acc,
              (forall u, In u l -> In u updates) ->
              keeps (acts_only_on names w)
                    (for_each l (replicate_names_body E wd skip) acc)).
    { intros l. induction l as [| u l IH]; intros acc Hl; simpl; [apply keeps_ret |].
      apply keeps_bind.
      - unfold replicate_names_body.
        destruct (mem_string (fqu u) skip) eqn:Hs; [apply keeps_ret |].
        apply keeps_bind.
        + apply replicate_name_data_acts. apply Hnames; [| exact Hs].
          apply Hl. left. reflexivity.
        + intros res. keeps_acts.
      - intros acc1. apply IH. intros x Hx. apply Hl. right. exact Hx. }
    apply Hloop. auto. }
  split.
  - apply Hall; [| apply acts_only_on_refl].
    intros u Hu Hs. unfold names_not_skipped. apply in_map. apply filter_In.
    split; [exact Hu |]. rewrite Hs. reflexivity.
  - intros op n Hin.
    assert (Hk : keeps (fun v => forall op n, In (EvBroadcast op n) (trace v) ->
                                              In (EvBroadcast op n) (trace w))
                       (replicate_names_data E updates wd skip)).
    { assert (Hemit : forall ev v,
                (forall op n, ev <> EvBroadcast op n) ->
                (forall op n, In (EvBroadcast op n) (trace v) ->
                              In (EvBroadcast op n) (trace w)) ->
                forall op n, In (EvBroadcast op n) (trace (emit ev v)) ->
                             In (EvBroadcast op n) (trace w)).
      { intros ev v Hev Hv op' n' H'. simpl in H'. apply in_app_or in H'.
        destruct H' as [H' | [H' | []]]; [apply Hv; exact H' |].
        exfalso. exact (Hev op' n' H'). }
      unfold replicate_names_data, get_atlas_server_list, replicate_names_body,
        replicate_name_data, replicate_zonefile, replicate_token_file.
      repeat first
        [ match goal with
          | |- keeps _ (if ?b then _ else _) => destruct b
          | |- keeps _ (match ?x with _ => _ end) => destruct x
          end
        | apply keeps_ret
        | apply keeps_raise
        | apply keeps_gets
        | apply keeps_bind; [| intros ?]
        | apply keeps_for_each; intros ? ?
        | match goal with
          | |- keeps _ (modify (emit _)) =>
              apply keeps_modify; intros ? ?; apply Hemit;
              [intros; discriminate | assumption]
          | |- keeps _ (modify _) =>
              apply keeps_modify; intros ? ?; assumption
          end ]. }
    apply (Hk w); [auto | exact Hin].
Qed.

(* ===================================================================== *)
(** ** The required storage drivers *)
(* ===================================================================== *)

Lemma split_on_nonempty (sep : ascii) (s : string) : split_on sep s <> [].
Proof.
  destruct s as [| c r]; simpl; [discriminate |].
  destruct (Ascii.eqb c sep); [discriminate |].
  destruct (split_on sep r); discriminate.
Qed.

Lemma split_on_join (sep : ascii) (s : string) :
  String.concat (String sep "") (split_on sep s) = s.
Proof.
  induction s as [| c r IH]; [reflexivity |].
  pose proof (split_on_nonempty sep r) as Hne. simpl.
  destruct (Ascii.eqb_spec c sep) as [-> | Hc].
  - destruct (split_on sep r) as [| p rest]; [congruence |].
    simpl in *. rewrite IH. reflexivity.
  - destruct (split_on sep r) as [| p rest]; [congruence |].
    destruct rest as [| q rest]; simpl in *; rewrite <- IH; reflexivity.
Qed.

Lemma split_on_pieces (sep : ascii) (s : string) :
  Forall (fun piece => mentions sep piece = false) (split_on sep s).
Proof.
  induction s as [| c r IH]; simpl; [repeat constructor |].
  destruct (Ascii.eqb c sep) eqn:Hc.
  - constructor; [reflexivity | exact IH].
  - destruct (split_on sep r) as [| p rest]; [repeat constructor; simpl |].
    + rewrite Hc. reflexivity.
    + inversion IH as [| ? ? Hp Hrest]; subst. constructor; [| exact Hrest].
      simpl. rewrite Hc, Hp. reflexivity.
Qed.

(** X25.  The storage drivers [__init__] requires are the comma-separated
    pieces of the configured string: joined with commas again (as the
    start-up log does) they give that string back, no piece holds a comma,
    and there is always at least one piece, so that a configuration without
    any driver setting requires the single driver with the empty name.
    'storage_drivers_required_write' wins over 'storage_drivers' whenever it
    is present. *)
Theorem required_storage_drivers_round_trip :
  forall (conf : list (string * string)),
    String.concat "," (required_storage_drivers conf) = configured_drivers conf /\
    Forall (fun piece => mentions "," piece = false) (required_storage_drivers conf) /\
    required_storage_drivers conf <> [] /\
    (configured_drivers conf = ""%string -> required_storage_drivers conf = [""%string]).
Proof.
  intros conf.
  assert (Heq : required_storage_drivers conf = split_on "," (configured_drivers conf)).
  { unfold required_storage_drivers, configured_drivers.
    destruct (config_get "storage_drivers_required_write" conf); reflexivity. }
  rewrite Heq. split; [apply split_on_join |].
  split; [apply split_on_pieces |].
  split; [apply split_on_nonempty |].
  intros ->. reflexivity.
Qed.

(* ===================================================================== *)
(** ** The branches that call queuedb_find, with other threads at work *)
(* ===================================================================== *)

Lemma for_each_ext {A S : Type} (body1 body2 : S -> A -> M S) :
  (forall acc x w, body1 acc x w = body2 acc x w) ->
  forall xs acc w, for_each xs body1 acc w = for_each xs body2 acc w.
Proof.
  intros Hbody xs. induction xs as [| x rest IH]; intros acc w; [reflexivity |].
  simpl. unfold bind. rewrite Hbody.
  destruct (body2 acc x w) as [[acc1 | e] w1]; [apply IH | reflexivity].
Qed.

(** With nobody else at work the racing steps are the steps. *)
Lemma register_preorders_racing_nobody (E : Env) wd (w : World) :
  register_preorders_racing E nobody wd w = register_preorders E wd w.
Proof.
  unfold register_preorders_racing, register_preorders, bind, gets.
  apply for_each_ext. reflexivity.
Qed.

Lemma set_zonefiles_racing_nobody (E : Env) (w : World) :
  set_zonefiles_racing E nobody w = set_zonefiles E w.
Proof.
  unfold set_zonefiles_racing, set_zonefiles, bind, gets.
  apply for_each_ext. reflexivity.
Qed.










